(** * go-imap-backup: the duplicate manager, the folder deleter and their
    orderer, retry and grouping logic, embedded and verified.

    The repository holds command-line tools written against the
    go-imap client:
    - [delete-folder]      (deleteMailbox, sortMailboxesByDepth; further
                           on findMailboxesForDeletion and main),
    - [manage-duplicates]  in its move-to-trash variant
                           (computeEmailHash, scanMailbox, findDuplicates;
                           further on connectIMAP, listMailboxes,
                           promptForChoice, moveToTrash and main),
    - [manage-duplicates]  in its delete variant, with [--auto] and
                           TARGET_FOLDER (isExcludedFolder, listMailboxes,
                           scanMailbox, findDuplicates, promptForChoice, main),
    - [imap-backup]        (sanitizePath, saveMessage, backupMessageBatch,
                           backupMailbox, Start).

    Go strings are byte strings ([string]); [uint32] values are [Z];
    the IMAP server, the terminal and the Go standard library are the
    environment and are passed in explicitly. *)

From Stdlib Require Import List ZArith Lia Bool Ascii String Permutation Sorted.
From stdpp Require Import gmap strings list sorting.

Local Open Scope string_scope.
Local Open Scope list_scope.

(** ** The parts of the Go standard library the tools call *)

Module Go.

(** [strings.HasPrefix(s, prefix)]. *)
Definition HasPrefix (s pre : string) : bool := String.prefix pre s.

(** [strings.Contains(s, substr)]: some suffix of [s] starts with [substr]. *)
Fixpoint Contains (s substr : string) : bool :=
  HasPrefix s substr ||
  match s with
  | EmptyString => false
  | String _ s' => Contains s' substr
  end.

(** [strings.Count(s, sep)] for a one-byte separator, the only way the
    tools call it ([strings.Count(name, "/")]). *)
Fixpoint CountByte (s : string) (sep : ascii) : nat :=
  match s with
  | EmptyString => 0
  | String c s' => (if Ascii.eqb c sep then 1 else 0) + CountByte s' sep
  end.

(** The order [sort.Slice] is documented to need from [less]. *)
Record StrictWeakOrder {A : Type} (less : A -> A -> bool) : Prop := {
  swo_irrefl : forall x, less x x = false;
  swo_trans : forall x y z, less x y = true -> less y z = true -> less x z = true;
  swo_incomp : forall x y z, less x y = false -> less y z = false -> less x z = false
}.

(** [sort.Slice(x, less)].  Its documentation promises a sorted slice and
    says in so many words that the sort is not guaranteed to be stable;
    as it only swaps elements the result is a rearrangement of the
    slice.  The algorithm behind it changed between Go releases, so the
    tools are verified against the contract, for every implementation. *)
Class SliceSorter := {
  sort_Slice : forall {A : Type}, (A -> A -> bool) -> list A -> list A;
  sort_Slice_perm : forall (A : Type) (less : A -> A -> bool) (l : list A),
    Permutation (sort_Slice less l) l;
  sort_Slice_sorted : forall (A : Type) (less : A -> A -> bool) (l : list A),
    StrictWeakOrder less ->
    StronglySorted (fun x y => less y x = false) (sort_Slice less l)
}.

(** [insertionSort_func(data, 0, len)]: each element in turn is swapped
    leftwards while it is less than its left neighbour.  The prefix
    already handled is kept reversed, its last element first. *)
Fixpoint bubble {A : Type} (less : A -> A -> bool) (x : A) (revprefix : list A) : list A :=
  match revprefix with
  | [] => [x]
  | y :: r => if less x y then y :: bubble less x r else x :: y :: r
  end.

Definition insertionSort {A : Type} (less : A -> A -> bool) (l : list A) : list A :=
  rev (fold_left (fun acc x => bubble less x acc) l []).

(** [data.Swap(i, j)]. *)
Definition swapAt {A : Type} (i j : nat) (l : list A) : list A :=
  match l !! i, l !! j with
  | Some x, Some y => <[i := y]> (<[j := x]> l)
  | _, _ => l
  end.

(** The pass that [sort.Slice] ran before its insertion sort on slices of
    at most 12 elements up to Go 1.18:
    [for i := a + 6; i < b; i++ { if data.Less(i, i-6) { data.Swap(i, i-6) } }]. *)
Definition shellPass6 {A : Type} (less : A -> A -> bool) (l : list A) : list A :=
  fold_left
    (fun acc i =>
       match acc !! i, acc !! (i - 6) with
       | Some x, Some y => if less x y then swapAt i (i - 6) acc else acc
       | _, _ => acc
       end)
    (seq 6 (length l - 6)) l.

Definition shellInsertionSort {A : Type} (less : A -> A -> bool) (l : list A) : list A :=
  insertionSort less (shellPass6 less l).

(** A Go result pair [(value, error)] with exactly one side set. *)
Inductive result (A : Type) :=
| Ok (a : A)
| Err (err : string).
Arguments Ok {A} a.
Arguments Err {A} err.

(** [crypto/sha256]: the digest of a byte string.  Writing to a
    [sha256.New()] hasher piece by piece and calling [Sum(nil)] gives
    the digest of the concatenation of the pieces, so a hasher is the
    bytes written to it so far. *)
Class Sha256 := { Sum256 : string -> string }.

(** [hex.EncodeToString]. *)
Definition hexDigit (n : N) : ascii :=
  if (n <? 10)%N then ascii_of_N (48 + n) else ascii_of_N (87 + n).

Fixpoint EncodeToString (src : string) : string :=
  match src with
  | EmptyString => EmptyString
  | String c s' =>
      let n := N_of_ascii c in
      String (hexDigit (n / 16)) (String (hexDigit (n mod 16)) (EncodeToString s'))
  end.

(** [for k, v := range m]: every entry once, in an order the language
    leaves open. *)
Class MapRange := {
  range_map : forall {V : Type}, gmap string V -> list (string * V);
  range_map_perm : forall (V : Type) (m : gmap string V),
    Permutation (range_map m) (map_to_list m)
}.

(** [strings.ToLower] and [strings.TrimSpace] follow the Unicode tables;
    the tools are verified for whatever these two compute. *)
Class Unicode := {
  ToLower : string -> string;
  TrimSpace : string -> string
}.

(** The two functions as they act on ASCII text, for running the tools
    on examples: letters A to Z are lowered, and tab, line feed,
    vertical tab, form feed, carriage return and space are trimmed. *)
Definition asciiLower (c : ascii) : ascii :=
  let n := N_of_ascii c in
  if ((65 <=? n) && (n <=? 90))%N then ascii_of_N (n + 32) else c.

Fixpoint asciiToLower (s : string) : string :=
  match s with
  | EmptyString => EmptyString
  | String c s' => String (asciiLower c) (asciiToLower s')
  end.

Definition asciiSpace (c : ascii) : bool :=
  let n := N_of_ascii c in
  ((9 <=? n) && (n <=? 13) || (n =? 32))%N.

Fixpoint trimLeft (s : string) : string :=
  match s with
  | EmptyString => EmptyString
  | String c s' => if asciiSpace c then trimLeft s' else s
  end.

Fixpoint trimRight (s : string) : string :=
  match s with
  | EmptyString => EmptyString
  | String c s' =>
      let t := trimRight s' in
      if asciiSpace c && String.eqb t EmptyString then EmptyString else String c t
  end.

Definition asciiUnicode : Unicode :=
  {| ToLower := asciiToLower; TrimSpace := fun s => trimRight (trimLeft s) |}.

(** A stand-in digest for running the tools on examples; nothing that
    is proved about the tools looks inside a digest. *)
Definition plainDigest : Sha256 := {| Sum256 := fun data => data |}.

(** [uint32] arithmetic wraps. *)
Definition u32 (z : Z) : Z := (z mod 4294967296)%Z.

(** [strconv.Atoi] with a 64-bit [int]: an optional sign, then at least
    one decimal digit and nothing else; a value out of range is an
    error.  [None] is the error. *)
Fixpoint atoiDigits (s : string) (acc : Z) : option Z :=
  match s with
  | EmptyString => Some acc
  | String c s' =>
      let n := Z.of_N (N_of_ascii c) in
      if ((48 <=? n) && (n <=? 57))%Z
      then atoiDigits s' (10 * acc + (n - 48))%Z
      else None
  end.

Definition atoiBody (neg : bool) (s : string) : option Z :=
  match s with
  | EmptyString => None
  | _ =>
      match atoiDigits s 0 with
      | None => None
      | Some v =>
          let v := if neg then (- v)%Z else v in
          if ((- 9223372036854775808 <=? v) && (v <=? 9223372036854775807))%Z
          then Some v else None
      end
  end.

Definition Atoi (s : string) : option Z :=
  match s with
  | String "-"%char s' => atoiBody true s'
  | String "+"%char s' => atoiBody false s'
  | _ => atoiBody false s
  end.

End Go.

(** ** delete-folder *)

Module DeleteFolder.
Import Go.

Record MessageInfo := { Subject : string; Date : string }.

Record MailboxInfo := {
  Name : string;
  Messages : Z;
  MessagesList : list MessageInfo
}.

(** The closure handed to [sort.Slice]:
    [strings.Count(sorted[i].Name, "/") > strings.Count(sorted[j].Name, "/")]. *)
Definition depth (m : MailboxInfo) : nat := CountByte (Name m) "/".

Definition depthLess (mi mj : MailboxInfo) : bool := Nat.ltb (depth mj) (depth mi).

(** [sortMailboxesByDepth] on the contents of the slices:
    [sorted := append([]MailboxInfo{}, mailboxes...)], sorted, returned. *)
Definition sortMailboxesByDepth `{SliceSorter} (mailboxes : list MailboxInfo) : list MailboxInfo :=
  let sorted := [] ++ mailboxes in
  sort_Slice depthLess sorted.

(** The same function on slices that share memory: a slice is a window
    on a backing array, and the heap maps array addresses to arrays. *)
Record slice := { s_arr : nat; s_off : nat; s_len : nat }.

Definition slice_read (h : gmap nat (list MailboxInfo)) (s : slice) : list MailboxInfo :=
  take (s_len s) (drop (s_off s) (default [] (h !! s_arr s))).

(** [append([]MailboxInfo{}, mailboxes...)] allocates a new backing array
    and copies the elements; [sort.Slice] then permutes that array in
    place. *)
Definition sortMailboxesByDepth_mem `{SliceSorter}
    (h : gmap nat (list MailboxInfo)) (mailboxes : slice)
  : slice * gmap nat (list MailboxInfo) :=
  let elems := slice_read h mailboxes in
  let a := fresh (dom h) in
  let h1 := <[a := elems]> h in
  let sorted := {| s_arr := a; s_off := 0; s_len := length elems |} in
  let h2 := <[a := sort_Slice depthLess (slice_read h1 sorted)]> h1 in
  (sorted, h2).

(** A mailbox name below another one in a hierarchy with the given
    delimiter: the ancestor's name, the delimiter, and more. *)
Definition isDescendantBy (delimiter d a : string) : Prop :=
  exists rest, d = (a ++ delimiter ++ rest)%string.

(** The hierarchy the orderer knows: the one delimited by "/". *)
Definition isDescendant (d a : string) : Prop := isDescendantBy "/" d a.

(** The mailboxes of a list that lie at depth [d], in the order of the
    list. *)
Definition sameDepth (d : nat) (l : list MailboxInfo) : list MailboxInfo :=
  List.filter (fun m => Nat.eqb (depth m) d) l.

Definition mailboxNamed (name : string) : MailboxInfo :=
  {| Name := name; Messages := 0; MessagesList := [] |}.

(** The input of the scenario: INBOX, INBOX/Work, INBOX/Work/2024. *)
Definition inboxTree : list MailboxInfo :=
  map mailboxNamed ["INBOX"; "INBOX/Work"; "INBOX/Work/2024"].

(** A mailbox and its child as a server with the delimiter "." names
    them. *)
Definition dottedTree : list MailboxInfo :=
  map mailboxNamed ["INBOX"; "INBOX.Work"].

(** *** The session, as the deleter sees it

    Every call on the client is recorded, and the server answers a call
    from the calls made before it.  Which connection a call travels on
    follows from that record, so it is not recorded separately.  Go
    errors are their [Error()] text; [None] is [nil]. *)
Inductive Call :=
| CLogout
| CDialTLS (addr : string)
| CLogin (user pass : string)
| CSelect (name : string) (readOnly : bool)
| CStoreDeleted (from to : Z)
| CExpunge
| CDelete (name : string)
| CSleep (seconds : Z).

Record Server := {
  srv_dial : list Call -> string -> option string;
  srv_login : list Call -> string -> string -> option string;
  srv_select : list Call -> string -> bool -> result Z;
  srv_store : list Call -> Z -> Z -> option string;
  srv_expunge : list Call -> option string;
  srv_delete : list Call -> string -> option string
}.

(** The fields of [IMAPManager] that outlive a connection; [client] is
    never nil once [connectIMAP] has returned the manager. *)
Record IMAPManager := { host : string; port : string; user : string; password : string }.

(** [reconnect]: log out of the old client, dial, log in. *)
Definition reconnect (srv : Server) (im : IMAPManager) (h : list Call)
  : option string * list Call :=
  let h := h ++ [CLogout] in
  let addr := (host im ++ ":" ++ port im)%string in
  match srv_dial srv h addr with
  | Some err => (Some ("connection error: " ++ err)%string, h ++ [CDialTLS addr])
  | None =>
      let h := h ++ [CDialTLS addr] in
      match srv_login srv h (user im) (password im) with
      | Some err =>
          (Some ("login error: " ++ err)%string, h ++ [CLogin (user im) (password im)])
      | None => (None, h ++ [CLogin (user im) (password im)])
      end
  end.

(** How one pass through the body of the retry loop ends:
    [return nil], [continue], or [return err]. *)
Inductive Attempt :=
| Done
| Retry
| Abandon (err : string).

(** The test and the two exits every failing step of [deleteMailbox]
    shares: sleep and [continue] on "Not logged in", else return the
    wrapped error. *)
Definition onStepError (wrap err : string) (h : list Call) : Attempt * list Call :=
  if Contains err "Not logged in"
  then (Retry, h ++ [CSleep 2])
  else (Abandon (wrap ++ err)%string, h).

(** The loop body of [deleteMailbox] after the reconnect: select
    read-write, flag every message deleted and expunge when the mailbox
    holds any, delete the mailbox. *)
Definition deleteSteps (srv : Server) (name : string) (h : list Call)
  : Attempt * list Call :=
  let delete (h : list Call) :=
    match srv_delete srv h name with
    | Some err => onStepError "error deleting mailbox: " err (h ++ [CDelete name])
    | None => (Done, h ++ [CDelete name])
    end in
  match srv_select srv h name false with
  | Err err => onStepError "error selecting mailbox: " err (h ++ [CSelect name false])
  | Ok messages =>
      let h := h ++ [CSelect name false] in
      if (0 <? messages)%Z then
        match srv_store srv h 1 messages with
        | Some err =>
            onStepError "error marking messages as deleted: " err
              (h ++ [CStoreDeleted 1 messages])
        | None =>
            let h := h ++ [CStoreDeleted 1 messages] in
            match srv_expunge srv h with
            | Some err => onStepError "error expunging messages: " err (h ++ [CExpunge])
            | None => delete (h ++ [CExpunge])
            end
        end
      else delete h
  end.

(** A step of the sequence fails: the step's message prefix, the
    server's error, and the calls up to and with the failing one.  The
    steps before it succeeded. *)
Inductive StepFailure (srv : Server) (name : string) (h : list Call)
  : string -> string -> list Call -> Prop :=
| FailSelect err :
    srv_select srv h name false = Err err ->
    StepFailure srv name h "error selecting mailbox: " err (h ++ [CSelect name false])
| FailStore messages err :
    srv_select srv h name false = Ok messages ->
    (0 < messages)%Z ->
    srv_store srv (h ++ [CSelect name false]) 1 messages = Some err ->
    StepFailure srv name h "error marking messages as deleted: " err
      ((h ++ [CSelect name false]) ++ [CStoreDeleted 1 messages])
| FailExpunge messages err :
    srv_select srv h name false = Ok messages ->
    (0 < messages)%Z ->
    srv_store srv (h ++ [CSelect name false]) 1 messages = None ->
    srv_expunge srv ((h ++ [CSelect name false]) ++ [CStoreDeleted 1 messages]) = Some err ->
    StepFailure srv name h "error expunging messages: " err
      (((h ++ [CSelect name false]) ++ [CStoreDeleted 1 messages]) ++ [CExpunge])
| FailDelete messages err :
    srv_select srv h name false = Ok messages ->
    (0 < messages)%Z ->
    srv_store srv (h ++ [CSelect name false]) 1 messages = None ->
    srv_expunge srv ((h ++ [CSelect name false]) ++ [CStoreDeleted 1 messages]) = None ->
    srv_delete srv (((h ++ [CSelect name false]) ++ [CStoreDeleted 1 messages]) ++ [CExpunge])
      name = Some err ->
    StepFailure srv name h "error deleting mailbox: " err
      ((((h ++ [CSelect name false]) ++ [CStoreDeleted 1 messages]) ++ [CExpunge])
         ++ [CDelete name])
| FailDeleteEmpty messages err :
    srv_select srv h name false = Ok messages ->
    (messages <= 0)%Z ->
    srv_delete srv (h ++ [CSelect name false]) name = Some err ->
    StepFailure srv name h "error deleting mailbox: " err
      ((h ++ [CSelect name false]) ++ [CDelete name]).

(** [for attempts := 0; attempts < 3; attempts++ { ... }] over the
    attempt numbers still to run, then the error after the loop. *)
Fixpoint deleteMailbox_from (todo : list nat) (srv : Server) (im : IMAPManager)
    (name : string) (h : list Call) : option string * list Call :=
  match todo with
  | [] => (Some "failed to delete mailbox after 3 attempts", h)
  | attempts :: todo' =>
      let steps (h : list Call) :=
        match deleteSteps srv name h with
        | (Done, h') => (None, h')
        | (Retry, h') => deleteMailbox_from todo' srv im name h'
        | (Abandon err, h') => (Some err, h')
        end in
      if (0 <? attempts)%nat then
        match reconnect srv im h with
        | (Some _, h') => deleteMailbox_from todo' srv im name (h' ++ [CSleep 2])
        | (None, h') => steps h'
        end
      else steps h
  end.

Definition deleteMailbox (srv : Server) (im : IMAPManager) (name : string)
    (h : list Call) : option string * list Call :=
  deleteMailbox_from (seq 0 3) srv im name h.

(** The attempts whose four steps get to run: attempt [k] (counted from
    0) starts its steps at the history [hk].  The first attempt starts
    at once; a later one starts when the steps of an earlier attempt
    ended in [continue] and a reconnect has succeeded since, at once or
    after one attempt lost to a failed reconnect. *)
Inductive StartsAttempt (srv : Server) (im : IMAPManager) (name : string)
    (h0 : list Call) : nat -> list Call -> Prop :=
| StartsFirst : StartsAttempt srv im name h0 0 h0
| StartsAfterRetry k hk h1 h2 :
    StartsAttempt srv im name h0 k hk ->
    deleteSteps srv name hk = (Retry, h1) ->
    reconnect srv im h1 = (None, h2) ->
    StartsAttempt srv im name h0 (S k) h2
| StartsAfterLostAttempt k hk h1 err h2 h3 :
    StartsAttempt srv im name h0 k hk ->
    deleteSteps srv name hk = (Retry, h1) ->
    reconnect srv im h1 = (Some err, h2) ->
    reconnect srv im (h2 ++ [CSleep 2]) = (None, h3) ->
    StartsAttempt srv im name h0 (S (S k)) h3.

(** A server whose sessions go stale: the first session is not logged
    in when the mailbox is selected, the second one expires before the
    expunge, the third one holds.  Every mailbox has three messages. *)
Definition countDials (h : list Call) : nat :=
  length (List.filter (fun c => match c with CDialTLS _ => true | _ => false end) h).

Definition staleServer : Server :=
  {| srv_dial := fun _ _ => None;
     srv_login := fun _ _ _ => None;
     srv_select := fun h _ _ =>
       if Nat.eqb (countDials h) 0 then Err "imap: Not logged in" else Ok 3%Z;
     srv_store := fun _ _ _ => None;
     srv_expunge := fun h =>
       if Nat.ltb (countDials h) 2 then Some "imap: Not logged in" else None;
     srv_delete := fun _ _ => None |}.

Definition someManager : IMAPManager :=
  {| host := "imap.example.com"; port := "993"; user := "me"; password := "secret" |}.

End DeleteFolder.

(** ** manage-duplicates, the variant that moves duplicates to the trash *)

Module MoveDuplicates.
Import Go.

Record EmailInfo := {
  Mailbox : string;
  Uid : Z;
  Subject : string;
  Date : Z;
  Size : Z;
  Hash : string
}.

(** The field [Hash] of a group is [GroupHash] here. *)
Record DuplicateGroup := {
  Emails : list EmailInfo;
  GroupHash : string
}.

(** *** A parsed message, as [mail.Reader] hands it out *)

(** [io.ReadAll(p.Body)]. *)
Inductive ReadAll :=
| ReadOk (content : string)
| ReadErr (err : string).

(** A part: [p.Header.Get("Content-Type")] and what reading its decoded
    body gives. *)
Record Part := { ContentType : string; Body : ReadAll }.

(** One call of [msg.NextPart()] before [io.EOF]. *)
Inductive NextPart :=
| NextOk (p : Part)
| NextErr (err : string).

(** [Header.Get] gives the empty string for a missing field.  The list
    holds the answers of [NextPart] up to [io.EOF]. *)
Record MailReader := {
  HeaderSubject : string;
  HeaderDate : string;
  NextParts : list NextPart
}.

(** The [switch] on the content type: the three cases write the content
    when reading it gave no error. *)
Definition writePart (p : Part) (h : string) : string :=
  let contentType := ContentType p in
  if HasPrefix contentType "text/plain" then
    match Body p with ReadOk content => (h ++ content)%string | ReadErr _ => h end
  else if HasPrefix contentType "text/html" then
    match Body p with ReadOk content => (h ++ content)%string | ReadErr _ => h end
  else if HasPrefix contentType "application/" then
    match Body p with ReadOk content => (h ++ content)%string | ReadErr _ => h end
  else h.

(** The [for] loop over the parts; [h] is the hasher. *)
Fixpoint hashParts (ps : list NextPart) (h : string) : result string :=
  match ps with
  | [] => Ok h
  | NextErr err :: _ => Err err
  | NextOk p :: ps' => hashParts ps' (writePart p h)
  end.

(** The bytes [computeEmailHash] feeds to the hasher. *)
Definition hashInput (msg : MailReader) : result string :=
  let h := EmptyString in
  let h := if String.eqb (HeaderSubject msg) "" then h else (h ++ HeaderSubject msg)%string in
  let h := if String.eqb (HeaderDate msg) "" then h else (h ++ HeaderDate msg)%string in
  hashParts (NextParts msg) h.

Definition computeEmailHash `{Sha256} (msg : MailReader) : result string :=
  match hashInput msg with
  | Ok h => Ok (EncodeToString (Sum256 h))
  | Err err => Err err
  end.

(** The content types the [switch] lets through: those that begin with
    one of its three prefixes. *)
Definition selected (contentType : string) : bool :=
  HasPrefix contentType "text/plain" || HasPrefix contentType "text/html"
  || HasPrefix contentType "application/".

(** What one answer of [NextPart] adds to the hash input under a given
    selection of content types: the content of a selected part that
    could be read, else nothing. *)
Definition contribution (select : string -> bool) (np : NextPart) : string :=
  match np with
  | NextOk p =>
      if select (ContentType p)
      then match Body p with ReadOk content => content | ReadErr _ => EmptyString end
      else EmptyString
  | NextErr _ => EmptyString
  end.

Definition canonicalInput (select : string -> bool) (msg : MailReader) : string :=
  (HeaderSubject msg ++ HeaderDate msg
   ++ fold_right String.append EmptyString (map (contribution select) (NextParts msg)))%string.

(** The selection as the specification words it: the declared content
    type, which is what stands before the parameters of the header
    value, is text/plain or text/html, or the value begins with
    application/. *)
Fixpoint mediaType (contentType : string) : string :=
  match contentType with
  | EmptyString => EmptyString
  | String c s' => if Ascii.eqb c ";" then EmptyString else String c (mediaType s')
  end.

Definition declaredSelected (contentType : string) : bool :=
  String.eqb (mediaType contentType) "text/plain"
  || String.eqb (mediaType contentType) "text/html"
  || HasPrefix contentType "application/".

(** A message with one part whose content type is not text/plain but
    begins like it. *)
Definition richTextMessage : MailReader :=
  {| HeaderSubject := "Invoice";
     HeaderDate := "Mon, 01 Jan 2024 10:00:00 +0000";
     NextParts := [ NextOk {| ContentType := "text/plain-markdown";
                              Body := ReadOk "# Invoice" |} ] |}.

(** A message with an unreadable part between two readable ones. *)
Definition damagedMessage : MailReader :=
  {| HeaderSubject := "Invoice";
     HeaderDate := "Mon, 01 Jan 2024 10:00:00 +0000";
     NextParts := [ NextOk {| ContentType := "text/plain; charset=utf-8";
                              Body := ReadOk "Dear customer" |};
                    NextOk {| ContentType := "text/html"; Body := ReadErr "unexpected EOF" |};
                    NextOk {| ContentType := "image/png"; Body := ReadOk "PNG" |};
                    NextOk {| ContentType := "application/pdf"; Body := ReadOk "%PDF" |} ] |}.

(** The records that carry the fingerprint [hash], in input order. *)
Definition bucketOf (hash : string) (emails : list EmailInfo) : list EmailInfo :=
  List.filter (fun email => String.eqb (Hash email) hash) emails.

(** *** The scanner *)

(** A fetched message: [GetBody(section)] is [None] for a nil literal,
    else what [mail.CreateReader] makes of it.  The envelope was asked
    for and is taken to be there. *)
Record Message := {
  MsgUid : Z;
  EnvelopeSubject : string;
  EnvelopeDate : Z;
  MsgSize : Z;
  GetBody : option (result MailReader)
}.

(** What the scanner does and sees, in order: the commands it sends,
    every record it receives from the [messages] channel, and the value
    it receives from the [done] channel. *)
Inductive Event :=
| ESelect (name : string) (readOnly : bool)
| EFetch (from to : Z)
| ERecv (uid : Z)
| EDone (status : option string).

(** The server answers from the events so far.  A retrieval answers with
    the records it delivers and the status it ends with. *)
Record Server := {
  srv_select : list Event -> string -> bool -> result Z;
  srv_fetch : list Event -> Z -> Z -> list Message * option string
}.

(** The body of [for msg := range messages]. *)
Definition scanMessage `{Sha256} (mailboxName : string) (emails : list EmailInfo)
    (msg : Message) : list EmailInfo :=
  match GetBody msg with
  | None => emails
  | Some (Err _) => emails
  | Some (Ok mr) =>
      match computeEmailHash mr with
      | Err _ => emails
      | Ok hash =>
          emails ++ [{| Mailbox := mailboxName; Uid := MsgUid msg;
                        Subject := EnvelopeSubject msg; Date := EnvelopeDate msg;
                        Size := MsgSize msg; Hash := hash |}]
      end
  end.

Definition batchSize : Z := 100.

(** [for i := uint32(1); i <= mbox.Messages; i += batchSize], one turn
    per unit of fuel. *)
Fixpoint scanBatches `{Sha256} (fuel : nat) (srv : Server) (mailboxName : string)
    (messages i : Z) (emails : list EmailInfo) (h : list Event)
  : option (result (list EmailInfo) * list Event) :=
  match fuel with
  | O => None
  | S fuel' =>
      if (i <=? messages)%Z then
        let from := i in
        let to := u32 (i + batchSize - 1) in
        let to := if (to >? messages)%Z then messages else to in
        let (delivered, status) := srv_fetch srv h from to in
        let h := h ++ [EFetch from to] in
        let emails := fold_left (scanMessage mailboxName) delivered emails in
        let h := h ++ map (fun msg => ERecv (MsgUid msg)) delivered in
        let h := h ++ [EDone status] in
        match status with
        | Some err => Some (Err ("error fetching messages: " ++ err)%string, h)
        | None =>
            scanBatches fuel' srv mailboxName messages (u32 (i + batchSize)) emails h
        end
      else Some (Ok emails, h)
  end.

Definition scanMailbox `{Sha256} (fuel : nat) (srv : Server) (mailboxName : string)
    (h : list Event) : option (result (list EmailInfo) * list Event) :=
  match srv_select srv h mailboxName true with
  | Err err =>
      Some (Err ("error selecting mailbox: " ++ err)%string, h ++ [ESelect mailboxName true])
  | Ok messages =>
      let h := h ++ [ESelect mailboxName true] in
      if (messages =? 0)%Z then Some (Ok [], h)
      else scanBatches fuel srv mailboxName messages 1 [] h
  end.

(** The events of the batch loop from one history to a later one: every
    retrieval is followed by all the records it delivered, these by its
    status, and a status that is an error is the end.  The last
    argument is that error, if any. *)
Inductive Batches (srv : Server) : list Event -> list Event -> option string -> Prop :=
| BatchesEnd h : Batches srv h h None
| BatchesError h from to delivered err :
    srv_fetch srv h from to = (delivered, Some err) ->
    Batches srv h
      (((h ++ [EFetch from to]) ++ map (fun msg => ERecv (MsgUid msg)) delivered)
         ++ [EDone (Some err)])
      (Some err)
| BatchesNext h from to delivered h' status :
    srv_fetch srv h from to = (delivered, None) ->
    Batches srv
      (((h ++ [EFetch from to]) ++ map (fun msg => ERecv (MsgUid msg)) delivered)
         ++ [EDone None])
      h' status ->
    Batches srv h h' status.

(** *** The grouper *)

(** [hashMap[email.Hash] = append(hashMap[email.Hash], email)]. *)
Definition addToBucket (hashMap : gmap string (list EmailInfo)) (email : EmailInfo)
  : gmap string (list EmailInfo) :=
  <[Hash email := default [] (hashMap !! Hash email) ++ [email]]> hashMap.

Definition buckets (emails : list EmailInfo) : gmap string (list EmailInfo) :=
  fold_left addToBucket emails ∅.

(** The second loop: a group for every entry with more than one member. *)
Definition emitGroup (groups : list DuplicateGroup) (entry : string * list EmailInfo)
  : list DuplicateGroup :=
  let (hash, duplicates) := entry in
  if (1 <? length duplicates)%nat
  then groups ++ [{| Emails := duplicates; GroupHash := hash |}]
  else groups.

Definition findDuplicates `{MapRange} (emails : list EmailInfo) : list DuplicateGroup :=
  fold_left emitGroup (range_map (buckets emails)) [].

End MoveDuplicates.

(** ** manage-duplicates, the variant that deletes duplicates *)

Module DeleteDuplicates.
Import Go.

Record EmailInfo := {
  Mailbox : string;
  Uid : Z;
  Subject : string;
  Date : Z;
  Size : Z;
  Hash : string;
  Content : string
}.

(** The field [Hash] of a group is [GroupHash] here. *)
Record DuplicateGroup := {
  Emails : list EmailInfo;
  GroupHash : string
}.

(** The fields of [IMAPManager] besides the client. *)
Record IMAPManager := {
  targetFolder : string;
  excludedFolders : list string
}.

(** The list [connectIMAP] installs. *)
Definition defaultExcludedFolders : list string :=
  [ "trash"; "corbeille"; "deleted"; "deleted messages";
    "deleted items"; "elements supprimes"; "éléments supprimés";
    "bin"; "junk"; "spam"; "[gmail]/trash";
    "[google mail]/trash"; "[gmail]/corbeille";
    "[gmail]/spam"; "[gmail]/junk" ].

(** [buf.ReadFrom(r)] on one body literal. *)
Inductive ReadFrom :=
| ReadOk (data : string)
| ReadErr (err : string).

(** A fetched message; [Bodies] is [msg.Body] in the order the [range]
    over it visits the literals, [None] a nil literal.  The envelope was
    asked for and is taken to be there. *)
Record Message := {
  MsgUid : Z;
  EnvelopeSubject : string;
  EnvelopeDate : Z;
  Bodies : list (option ReadFrom)
}.

(** What the tool does and sees on the session, in order. *)
Inductive Event :=
| EDialTLS (addr : string)
| ELogin (user pass : string)
| ELogout
| EList
| ESelect (name : string) (readOnly : bool)
| EFetch (from to : Z)
| ERecv (uid : option Z)
| EDone (status : option string)
| EUidStoreDeleted (uid : Z)
| EExpunge.

(** The server answers from the events so far.  A listing and a
    retrieval answer with what they deliver on the channel (a nil
    message is [None]) and the status they end with. *)
Record Server := {
  srv_dial : list Event -> string -> option string;
  srv_login : list Event -> string -> string -> option string;
  srv_list : list Event -> list string * option string;
  srv_select : list Event -> string -> bool -> result Z;
  srv_fetch : list Event -> Z -> Z -> list (option Message) * option string;
  srv_uidstore : list Event -> Z -> option string;
  srv_expunge : list Event -> option string
}.

(** The loop of [isExcludedFolder] over [im.excludedFolders]. *)
Fixpoint containsAny (nameLower : string) (excludedFolders : list string) : bool :=
  match excludedFolders with
  | [] => false
  | excluded :: rest =>
      if Contains nameLower excluded then true else containsAny nameLower rest
  end.

Definition isExcludedFolder `{Unicode} (im : IMAPManager) (name : string) : bool :=
  let nameLower := ToLower name in
  containsAny nameLower (excludedFolders im).

(** The body of [for m := range mailboxes] in [listMailboxes]. *)
Definition listStep `{Unicode} (im : IMAPManager) (boxes : list string) (name : string)
  : list string :=
  if isExcludedFolder im name then boxes
  else if negb (String.eqb (targetFolder im) "") then
    if HasPrefix name (targetFolder im) then boxes ++ [name] else boxes
  else boxes ++ [name].

Definition listMailboxes `{Unicode} (srv : Server) (im : IMAPManager) (h : list Event)
  : result (list string) * list Event :=
  let (names, status) := srv_list srv h in
  let h := h ++ [EList] in
  let boxes := fold_left (listStep im) names [] in
  match status with
  | Some err => (Err err, h)
  | None =>
      if negb (String.eqb (targetFolder im) "") && (length boxes =? 0)%nat
      then (Err ("no mailboxes found matching target folder: " ++ targetFolder im)%string, h)
      else (Ok boxes, h)
  end.

(** The two tests of [listMailboxes] on a folder name: no entry of the
    exclusion list occurs in the lowered name, and the name starts with
    the target folder when one is set. *)
Definition passesFilters `{Unicode} (im : IMAPManager) (name : string) : bool :=
  forallb (fun excluded => negb (Contains (ToLower name) excluded)) (excludedFolders im)
  && (String.eqb (targetFolder im) "" || HasPrefix name (targetFolder im)).

(** A server with five folders and nothing else to say. *)
Definition fiveFolders : Server :=
  {| srv_dial := fun _ _ => None;
     srv_login := fun _ _ _ => None;
     srv_list := fun _ =>
       (["INBOX"; "Trash"; "Work/Project"; "[Gmail]/Spam"; "Work/Project/2024"], None);
     srv_select := fun _ _ _ => Ok 0%Z;
     srv_fetch := fun _ _ _ => ([], None);
     srv_uidstore := fun _ _ => None;
     srv_expunge := fun _ => None |}.

Definition projectManager : IMAPManager :=
  {| targetFolder := "Work/Project"; excludedFolders := defaultExcludedFolders |}.

(** *** The scanner *)

(** [for _, r := range msg.Body]: the first literal that is there and
    reads without error, empty or not. *)
Fixpoint firstBody (bodies : list (option ReadFrom)) : string :=
  match bodies with
  | [] => EmptyString
  | None :: rest => firstBody rest
  | Some (ReadErr _) :: rest => firstBody rest
  | Some (ReadOk data) :: _ => data
  end.

(** [string(msgData[:100])].  For a message shorter than 100 bytes the
    slice expression reaches into the spare capacity of the buffer,
    which [bytes.Buffer.ReadFrom] has grown by at least 512 zeroed
    bytes, so it does not panic and reads zero bytes there. *)
Fixpoint zeros (n : nat) : string :=
  match n with
  | O => EmptyString
  | S n' => String Ascii.zero (zeros n')
  end.

Definition preview (msgData : string) : string :=
  String.substring 0 100 (msgData ++ zeros 100)%string.

(** The body of [for msg := range messages]. *)
Definition scanMessage `{Sha256} (mailboxName : string) (emails : list EmailInfo)
    (msg : option Message) : list EmailInfo :=
  match msg with
  | None => emails
  | Some msg =>
      let msgData := firstBody (Bodies msg) in
      if (String.length msgData =? 0)%nat then emails
      else
        emails ++ [{| Mailbox := mailboxName; Uid := MsgUid msg;
                      Subject := EnvelopeSubject msg; Date := EnvelopeDate msg;
                      Size := u32 (Z.of_nat (String.length msgData));
                      Hash := EncodeToString (Sum256 msgData);
                      Content := preview msgData |}]
  end.

Definition batchSize : Z := 50.

(** [for i := uint32(1); i <= mbox.Messages; i += batchSize], one turn
    per unit of fuel. *)
Fixpoint scanBatches `{Sha256} (fuel : nat) (srv : Server) (mailboxName : string)
    (messages i : Z) (emails : list EmailInfo) (h : list Event)
  : option (result (list EmailInfo) * list Event) :=
  match fuel with
  | O => None
  | S fuel' =>
      if (i <=? messages)%Z then
        let from := i in
        let to := u32 (i + batchSize - 1) in
        let to := if (to >? messages)%Z then messages else to in
        let (delivered, status) := srv_fetch srv h from to in
        let h := h ++ [EFetch from to] in
        let emails := fold_left (scanMessage mailboxName) delivered emails in
        let h := h ++ map (fun msg => ERecv (option_map MsgUid msg)) delivered in
        let h := h ++ [EDone status] in
        match status with
        | Some err => Some (Err ("error fetching messages: " ++ err)%string, h)
        | None =>
            scanBatches fuel' srv mailboxName messages (u32 (i + batchSize)) emails h
        end
      else Some (Ok emails, h)
  end.

Definition scanMailbox `{Sha256} (fuel : nat) (srv : Server) (mailboxName : string)
    (h : list Event) : option (result (list EmailInfo) * list Event) :=
  match srv_select srv h mailboxName true with
  | Err err =>
      Some (Err ("error selecting mailbox: " ++ err)%string, h ++ [ESelect mailboxName true])
  | Ok messages =>
      let h := h ++ [ESelect mailboxName true] in
      if (messages =? 0)%Z then Some (Ok [], h)
      else scanBatches fuel srv mailboxName messages 1 [] h
  end.

(** The events of the batch loop from one history to a later one: every
    retrieval is followed by all the records it delivered, these by its
    status, and a status that is an error is the end.  The last
    argument is that error, if any. *)
Inductive Batches (srv : Server) : list Event -> list Event -> option string -> Prop :=
| BatchesEnd h : Batches srv h h None
| BatchesError h from to delivered err :
    srv_fetch srv h from to = (delivered, Some err) ->
    Batches srv h
      (((h ++ [EFetch from to]) ++ map (fun msg => ERecv (option_map MsgUid msg)) delivered)
         ++ [EDone (Some err)])
      (Some err)
| BatchesNext h from to delivered h' status :
    srv_fetch srv h from to = (delivered, None) ->
    Batches srv
      (((h ++ [EFetch from to]) ++ map (fun msg => ERecv (option_map MsgUid msg)) delivered)
         ++ [EDone None])
      h' status ->
    Batches srv h h' status.

(** [deleteEmail]. *)
Definition deleteEmail (srv : Server) (email : EmailInfo) (h : list Event)
  : option string * list Event :=
  match srv_select srv h (Mailbox email) false with
  | Err err => (Some ("error selecting mailbox: " ++ err)%string,
                h ++ [ESelect (Mailbox email) false])
  | Ok _ =>
      let h := h ++ [ESelect (Mailbox email) false] in
      match srv_uidstore srv h (Uid email) with
      | Some err => (Some ("error marking message as deleted: " ++ err)%string,
                     h ++ [EUidStoreDeleted (Uid email)])
      | None =>
          let h := h ++ [EUidStoreDeleted (Uid email)] in
          match srv_expunge srv h with
          | Some err => (Some ("error expunging mailbox: " ++ err)%string, h ++ [EExpunge])
          | None => (None, h ++ [EExpunge])
          end
      end
  end.

(** *** The grouper *)

(** The body of the first loop, with its guard on the empty hash. *)
Definition addToBucket (hashMap : gmap string (list EmailInfo)) (email : EmailInfo)
  : gmap string (list EmailInfo) :=
  if negb (String.eqb (Hash email) "")
  then <[Hash email := default [] (hashMap !! Hash email) ++ [email]]> hashMap
  else hashMap.

Definition buckets (emails : list EmailInfo) : gmap string (list EmailInfo) :=
  fold_left addToBucket emails ∅.

Definition emitGroup (groups : list DuplicateGroup) (entry : string * list EmailInfo)
  : list DuplicateGroup :=
  let (hash, duplicates) := entry in
  if (1 <? length duplicates)%nat
  then groups ++ [{| Emails := duplicates; GroupHash := hash |}]
  else groups.

Definition findDuplicates `{MapRange} (emails : list EmailInfo) : list DuplicateGroup :=
  fold_left emitGroup (range_map (buckets emails)) [].

(** The records that carry the fingerprint [hash], in input order. *)
Definition bucketOf (hash : string) (emails : list EmailInfo) : list EmailInfo :=
  List.filter (fun email => String.eqb (Hash email) hash) emails.

(** A record of the given mailbox, identifier and fingerprint. *)
Definition emailOf (mailbox : string) (uid : Z) (hash : string) : EmailInfo :=
  {| Mailbox := mailbox; Uid := uid; Subject := "Invoice"; Date := 0; Size := 1024;
     Hash := hash; Content := "Invoice" |}.

(** Three scanned records, the first and the last with one fingerprint. *)
Definition threeEmails : list EmailInfo :=
  [ emailOf "INBOX" 1 "aa11"; emailOf "INBOX" 2 "bb22"; emailOf "Archive" 7 "aa11" ].

(** *** The planner *)

(** What [reader.ReadString('\n')] returns on the terminal: the text
    read and whether it came with an error.  A terminal that has
    nothing more to give reports the end of the input. *)
Record Line := { text : string; failed : bool }.

Definition readLine (stdin : list Line) : Line * list Line :=
  match stdin with
  | [] => ({| text := EmptyString; failed := true |}, [])
  | l :: rest => (l, rest)
  end.

(** [promptForChoice], its printing left out.  The header it prints
    reads [group.Emails[0]], which panics on a group without members:
    that is [None]. *)
Definition promptForChoice `{Unicode} (group : DuplicateGroup)
    (currentGroup totalGroups : Z) (dryRun autoMode : bool) (stdin : list Line)
  : option (Z * bool * list Line) :=
  if autoMode then Some (0, false, stdin)%Z
  else
    match Emails group with
    | [] => None
    | _ :: _ =>
        if dryRun then Some (0, false, stdin)%Z
        else
          let (line, stdin) := readLine stdin in
          if failed line then Some (-1, false, stdin)%Z
          else
            let input := TrimSpace (text line) in
            if String.eqb input "q" || String.eqb input "Q" then Some (-1, true, stdin)%Z
            else if String.eqb input "s" || String.eqb input "S" then Some (-1, false, stdin)%Z
            else
              match Atoi input with
              | None => Some (-1, false, stdin)%Z
              | Some choice =>
                  if ((choice <? 1) || (choice >? Z.of_nat (length (Emails group))))%Z
                  then Some (-1, false, stdin)%Z
                  else Some (choice - 1, false, stdin)%Z
              end
    end.

(** [for j, email := range group.Emails { if j != choice { append } }]. *)
Fixpoint planGroup (choice j : Z) (emails : list EmailInfo)
    (plannedDeletes : list EmailInfo) : list EmailInfo :=
  match emails with
  | [] => plannedDeletes
  | email :: rest =>
      planGroup choice (j + 1) rest
        (if negb (j =? choice)%Z then plannedDeletes ++ [email] else plannedDeletes)
  end.

(** [for i, group := range duplicateGroups] in [main]; the [continue]
    and the end of the body both lead to the next group. *)
Fixpoint planLoop `{Unicode} (groups : list DuplicateGroup) (i totalGroups : Z)
    (dryRun autoMode : bool) (stdin : list Line) (plannedDeletes : list EmailInfo)
  : option (list EmailInfo * list Line) :=
  match groups with
  | [] => Some (plannedDeletes, stdin)
  | group :: rest =>
      match promptForChoice group (i + 1) totalGroups dryRun autoMode stdin with
      | None => None
      | Some (choice, quit, stdin) =>
          let plannedDeletes :=
            if negb (choice =? -1)%Z
            then planGroup choice 0 (Emails group) plannedDeletes
            else plannedDeletes in
          if quit && negb autoMode then Some (plannedDeletes, stdin)
          else planLoop rest (i + 1) totalGroups dryRun autoMode stdin plannedDeletes
      end
  end.

(** [confirmActions]: the error of the read is dropped. *)
Definition confirmActions `{Unicode} (stdin : list Line) : bool * list Line :=
  let (line, stdin) := readLine stdin in
  (String.eqb (TrimSpace (ToLower (text line))) "yes", stdin).

(** A fetched message with one body literal. *)
Definition messageOf (uid : Z) (raw : string) : Message :=
  {| MsgUid := uid; EnvelopeSubject := "Invoice"; EnvelopeDate := 0;
     Bodies := [Some (ReadOk raw)] |}.

(** A server with one mailbox of two messages whose retrieval delivers
    both records and then reports that the connection was lost. *)
Definition lossyServer : Server :=
  {| srv_dial := fun _ _ => None;
     srv_login := fun _ _ _ => None;
     srv_list := fun _ => (["INBOX"], None);
     srv_select := fun _ _ _ => Ok 2%Z;
     srv_fetch := fun _ _ _ =>
       ([Some (messageOf 11 "Subject: Invoice"); Some (messageOf 12 "Subject: Invoice")],
        Some "connection reset by peer");
     srv_uidstore := fun _ _ => None;
     srv_expunge := fun _ => None |}.

(** The line the terminal delivers when the user types [answer] and
    presses return. *)
Definition typed (answer : string) : Line :=
  {| text := (answer ++ String (ascii_of_nat 10) EmptyString)%string; failed := false |}.

(** A group of three copies found in three mailboxes. *)
Definition threeCopies : DuplicateGroup :=
  {| Emails := [ emailOf "INBOX" 4 "aa11"; emailOf "Archive" 9 "aa11";
                 emailOf "Work" 2 "aa11" ];
     GroupHash := "aa11" |}.

(** *** The run *)

(** The environment: what [godotenv.Load] returns and the variables. *)
Record Env := {
  dotenv : option string;
  IMAP_HOST : string;
  IMAP_PORT : string;
  IMAP_USER : string;
  IMAP_PASSWORD : string;
  TARGET_FOLDER : string
}.

Definition connectIMAP (srv : Server) (env : Env) (h : list Event)
  : result IMAPManager * list Event :=
  let addr := (IMAP_HOST env ++ ":" ++ IMAP_PORT env)%string in
  match srv_dial srv h addr with
  | Some err => (Err ("connection error: " ++ err)%string, h ++ [EDialTLS addr])
  | None =>
      let h := h ++ [EDialTLS addr] in
      match srv_login srv h (IMAP_USER env) (IMAP_PASSWORD env) with
      | Some err =>
          (Err ("login error: " ++ err)%string,
           h ++ [ELogin (IMAP_USER env) (IMAP_PASSWORD env)])
      | None =>
          (Ok {| targetFolder := TARGET_FOLDER env;
                 excludedFolders := defaultExcludedFolders |},
           h ++ [ELogin (IMAP_USER env) (IMAP_PASSWORD env)])
      end
  end.

(** The scan loop of [main]: a mailbox whose scan fails is logged and
    passed over. *)
Fixpoint scanAll `{Sha256} (fuel : nat) (srv : Server) (mailboxes : list string)
    (allEmails : list EmailInfo) (h : list Event)
  : option (list EmailInfo * list Event) :=
  match mailboxes with
  | [] => Some (allEmails, h)
  | mailbox :: rest =>
      match scanMailbox fuel srv mailbox h with
      | None => None
      | Some (Err _, h') => scanAll fuel srv rest allEmails h'
      | Some (Ok emails, h') => scanAll fuel srv rest (allEmails ++ emails) h'
      end
  end.

(** The deletion loop of [main]: an error is printed and the loop goes
    on.  The errors printed are returned. *)
Fixpoint executeAll (srv : Server) (plannedDeletes : list EmailInfo) (h : list Event)
  : list string * list Event :=
  match plannedDeletes with
  | [] => ([], h)
  | email :: rest =>
      match deleteEmail srv email h with
      | (Some err, h') =>
          let (errs, h'') := executeAll srv rest h' in (err :: errs, h'')
      | (None, h') => executeAll srv rest h'
      end
  end.

(** What the scan loop does with a list of mailboxes, from one history
    to a later one: each mailbox is scanned in turn; the records of a
    scan that succeeds are collected, a scan that fails adds none, and
    either way the loop goes on with the rest. *)
Inductive Scans `{Sha256} (fuel : nat) (srv : Server)
  : list string -> list Event -> list EmailInfo -> list Event -> Prop :=
| ScansNone h : Scans fuel srv [] h [] h
| ScansKept mailbox rest h emails h1 more h2 :
    scanMailbox fuel srv mailbox h = Some (Ok emails, h1) ->
    Scans fuel srv rest h1 more h2 ->
    Scans fuel srv (mailbox :: rest) h (emails ++ more) h2
| ScansDropped mailbox rest h err h1 more h2 :
    scanMailbox fuel srv mailbox h = Some (Err err, h1) ->
    Scans fuel srv rest h1 more h2 ->
    Scans fuel srv (mailbox :: rest) h more h2.

(** What the deletion loop does with a plan: each planned deletion is
    tried in turn; one that fails is reported, and either way the loop
    goes on with the rest. *)
Inductive Executes (srv : Server)
  : list EmailInfo -> list Event -> list string -> list Event -> Prop :=
| ExecutesNone h : Executes srv [] h [] h
| ExecutesDone email rest h h1 errs h2 :
    deleteEmail srv email h = (None, h1) ->
    Executes srv rest h1 errs h2 ->
    Executes srv (email :: rest) h errs h2
| ExecutesFailed email rest h err h1 errs h2 :
    deleteEmail srv email h = (Some err, h1) ->
    Executes srv rest h1 errs h2 ->
    Executes srv (email :: rest) h (err :: errs) h2.

(** The ways [main] can fail before the scan: the environment file does
    not load, the connection or the login fails, or the listing fails
    or finds no mailbox under the target folder. *)
Definition SetupFails `{Unicode} (env : Env) (srv : Server) : Prop :=
  dotenv env <> None \/
  (exists err h, connectIMAP srv env [] = (Err err, h)) \/
  (exists imap h err h', connectIMAP srv env [] = (Ok imap, h) /\
                         listMailboxes srv imap h = (Err err, h')).

(** A server with three folders: Broken cannot be selected for
    reading, INBOX holds three copies of one message, Trash is on the
    exclusion list; the first expunge fails. *)
Definition countExpunges (h : list Event) : nat :=
  length (List.filter (fun e => match e with EExpunge => true | _ => false end) h).

Definition patchyServer : Server :=
  {| srv_dial := fun _ _ => None;
     srv_login := fun _ _ _ => None;
     srv_list := fun _ => (["Broken"; "INBOX"; "Trash"], None);
     srv_select := fun _ name readOnly =>
       if String.eqb name "Broken" && readOnly then Err "NO permission denied" else Ok 3%Z;
     srv_fetch := fun _ _ _ =>
       ([Some (messageOf 11 "Subject: Invoice"); Some (messageOf 12 "Subject: Invoice");
         Some (messageOf 13 "Subject: Invoice")], None);
     srv_uidstore := fun _ _ => None;
     srv_expunge := fun h =>
       if Nat.eqb (countExpunges h) 0 then Some "NO expunge failed" else None |}.

Definition someEnv : Env :=
  {| dotenv := None; IMAP_HOST := "imap.example.com"; IMAP_PORT := "993";
     IMAP_USER := "me"; IMAP_PASSWORD := "secret"; TARGET_FOLDER := "" |}.

(** How the process ends: [log.Fatal] (exit status 1, deferred calls
    skipped), a panic, or one of the four returns of [main]. *)
Inductive Exit :=
| Fatal (msg : string)
| Panicked
| NoActions
| DryRunSummary (plannedDeletes : list EmailInfo)
| Cancelled
| Completed (errors : list string).

(** [main], from the loading of the environment on; [None] when the
    fuel of a scan runs out.  The deferred [imap.Close()] logs out on
    every way out but [log.Fatal]. *)
Definition main `{Sha256} `{MapRange} `{Unicode} (fuel : nat) (dryRun autoMode : bool)
    (env : Env) (srv : Server) (stdin : list Line) : option (Exit * list Event) :=
  match dotenv env with
  | Some _ => Some (Fatal "Error loading .env file", [])
  | None =>
      match connectIMAP srv env [] with
      | (Err err, h) => Some (Fatal ("Failed to connect to IMAP: " ++ err)%string, h)
      | (Ok imap, h) =>
          match listMailboxes srv imap h with
          | (Err err, h) => Some (Fatal ("Error listing mailboxes: " ++ err)%string, h)
          | (Ok mailboxes, h) =>
              match scanAll fuel srv mailboxes [] h with
              | None => None
              | Some (allEmails, h) =>
                  let duplicateGroups := findDuplicates allEmails in
                  match planLoop duplicateGroups 0
                          (Z.of_nat (length duplicateGroups)) dryRun autoMode stdin [] with
                  | None => Some (Panicked, h ++ [ELogout])
                  | Some (plannedDeletes, stdin) =>
                      if (length plannedDeletes =? 0)%nat then Some (NoActions, h ++ [ELogout])
                      else if dryRun then Some (DryRunSummary plannedDeletes, h ++ [ELogout])
                      else
                        let (yes, stdin) := confirmActions stdin in
                        if negb yes then Some (Cancelled, h ++ [ELogout])
                        else
                          let (errs, h) := executeAll srv plannedDeletes h in
                          Some (Completed errs, h ++ [ELogout])
                  end
              end
          end
      end
  end.

End DeleteDuplicates.

(** * Further definitions *)

(** ** Counting what a plan may take *)

Module PlanFacts.
Import Go DeleteDuplicates.

(** How many records of fingerprint [h] a plan may take from a list of
    groups: all members but one of each group with that fingerprint. *)
Fixpoint allowance (h : string) (groups : list DuplicateGroup) : nat :=
  match groups with
  | [] => 0
  | group :: rest =>
      (if String.eqb (GroupHash group) h then length (Emails group) - 1 else 0)
      + allowance h rest
  end.

(** A group as [findDuplicates] makes them: it has members and they all
    carry its fingerprint. *)
Definition wellFormed (group : DuplicateGroup) : Prop :=
  Emails group <> [] /\ Forall (fun e => Hash e = GroupHash group) (Emails group).

End PlanFacts.

(** ** What a run of the delete variant leaves in the event record *)

Module Traces.
Import Go DeleteDuplicates.

(** The commands that change a mailbox: a select for writing, the
    store of the deleted flag, the expunge. *)
Definition writes (e : Event) : bool :=
  match e with
  | ESelect _ false | EUidStoreDeleted _ | EExpunge => true
  | _ => false
  end.

(** The commands that concern no particular mailbox or only read. *)
Definition session (e : Event) : bool :=
  match e with
  | ESelect _ _ | EUidStoreDeleted _ | EExpunge => false
  | _ => true
  end.

(** The three commands of [deleteEmail] for one record. *)
Definition attemptOf (email : EmailInfo) : list Event :=
  [ESelect (Mailbox email) false; EUidStoreDeleted (Uid email); EExpunge].

(** An event record made of one attempt per record of a plan, in the
    order of the plan, each attempt cut off after its first, second or
    third command. *)
Inductive AttemptsOf : list EmailInfo -> list Event -> Prop :=
| AttemptsNone : AttemptsOf [] []
| AttemptsNext email rest n events :
    1 <= n <= 3 ->
    AttemptsOf rest events ->
    AttemptsOf (email :: rest) (take n (attemptOf email) ++ events).

(** What one call of [deleteEmail] does, by the server's answers: the
    first command the server refuses ends it with that command's error;
    when none is refused all three are sent and the result is nil. *)
Inductive Attempted (srv : Server) (email : EmailInfo) (h : list Event)
  : option string -> list Event -> Prop :=
| SelectRefused err :
    srv_select srv h (Mailbox email) false = Err err ->
    Attempted srv email h (Some ("error selecting mailbox: " ++ err)%string)
      (h ++ [ESelect (Mailbox email) false])
| StoreRefused messages err :
    srv_select srv h (Mailbox email) false = Ok messages ->
    srv_uidstore srv (h ++ [ESelect (Mailbox email) false]) (Uid email) = Some err ->
    Attempted srv email h (Some ("error marking message as deleted: " ++ err)%string)
      ((h ++ [ESelect (Mailbox email) false]) ++ [EUidStoreDeleted (Uid email)])
| ExpungeRefused messages err :
    srv_select srv h (Mailbox email) false = Ok messages ->
    srv_uidstore srv (h ++ [ESelect (Mailbox email) false]) (Uid email) = None ->
    srv_expunge srv ((h ++ [ESelect (Mailbox email) false])
                       ++ [EUidStoreDeleted (Uid email)]) = Some err ->
    Attempted srv email h (Some ("error expunging mailbox: " ++ err)%string)
      (((h ++ [ESelect (Mailbox email) false]) ++ [EUidStoreDeleted (Uid email)])
         ++ [EExpunge])
| AllAccepted messages :
    srv_select srv h (Mailbox email) false = Ok messages ->
    srv_uidstore srv (h ++ [ESelect (Mailbox email) false]) (Uid email) = None ->
    srv_expunge srv ((h ++ [ESelect (Mailbox email) false])
                       ++ [EUidStoreDeleted (Uid email)]) = None ->
    Attempted srv email h None
      (((h ++ [ESelect (Mailbox email) false]) ++ [EUidStoreDeleted (Uid email)])
         ++ [EExpunge]).

(** The attempts of a plan, one after the other, with the errors they
    end with, in order. *)
Inductive AllAttempted (srv : Server)
  : list EmailInfo -> list Event -> list string -> list Event -> Prop :=
| AllAttemptedNone h : AllAttempted srv [] h [] h
| AllAttemptedNext email rest h status h1 errs h2 :
    Attempted srv email h status h1 ->
    AllAttempted srv rest h1 errs h2 ->
    AllAttempted srv (email :: rest) h
      (match status with Some err => err :: errs | None => errs end) h2.

(** The ranges asked for in an event record. *)
Definition fetchRanges (h : list Event) : list (Z * Z) :=
  omap (fun e => match e with EFetch from to => Some (from, to) | _ => None end) h.

(** What the server delivers when the events [new] are replayed after
    the history [h]: the records of every retrieval, in order. *)
Fixpoint deliveredTo (srv : Server) (h new : list Event) : list (option Message) :=
  match new with
  | [] => []
  | EFetch from to :: rest =>
      fst (srv_fetch srv h from to) ++ deliveredTo srv (h ++ [EFetch from to]) rest
  | e :: rest => deliveredTo srv (h ++ [e]) rest
  end.

End Traces.

(** ** Ranges of sequence numbers *)

Module Ranges.
Import Go.

(** The sequence numbers [from], [from + 1], ..., [to]. *)
Definition numbers (from to : Z) : list Z :=
  map (fun k => (from + Z.of_nat k)%Z) (seq 0 (Z.to_nat (to - from + 1))).

Definition numbersOf (range : Z * Z) : list Z := numbers (fst range) (snd range).

(** The ranges asked for in an event record of the move variant, and
    what its server delivers when the events [new] are replayed after
    the history [h]. *)
Definition moveFetchRanges (h : list MoveDuplicates.Event) : list (Z * Z) :=
  omap (fun e => match e with
                 | MoveDuplicates.EFetch from to => Some (from, to)
                 | _ => None
                 end) h.

Fixpoint moveDeliveredTo (srv : MoveDuplicates.Server) (h new : list MoveDuplicates.Event)
  : list MoveDuplicates.Message :=
  match new with
  | [] => []
  | MoveDuplicates.EFetch from to :: rest =>
      fst (MoveDuplicates.srv_fetch srv h from to)
      ++ moveDeliveredTo srv (h ++ [MoveDuplicates.EFetch from to]) rest
  | e :: rest => moveDeliveredTo srv (h ++ [e]) rest
  end.

(** A mailbox that reports the largest count a [uint32] holds and whose
    retrievals deliver nothing and end without error. *)
Definition endlessDelete : DeleteDuplicates.Server :=
  {| DeleteDuplicates.srv_dial := fun _ _ => None;
     DeleteDuplicates.srv_login := fun _ _ _ => None;
     DeleteDuplicates.srv_list := fun _ => ([], None);
     DeleteDuplicates.srv_select := fun _ _ _ => Ok 4294967295%Z;
     DeleteDuplicates.srv_fetch := fun _ _ _ => ([], None);
     DeleteDuplicates.srv_uidstore := fun _ _ => None;
     DeleteDuplicates.srv_expunge := fun _ => None |}.

Definition endlessMove : MoveDuplicates.Server :=
  {| MoveDuplicates.srv_select := fun _ _ _ => Ok 4294967295%Z;
     MoveDuplicates.srv_fetch := fun _ _ _ => ([], None) |}.

(** A mailbox of 120 messages; every retrieval delivers the first
    message of its range. *)
Definition largeMailbox : DeleteDuplicates.Server :=
  {| DeleteDuplicates.srv_dial := fun _ _ => None;
     DeleteDuplicates.srv_login := fun _ _ _ => None;
     DeleteDuplicates.srv_list := fun _ => (["INBOX"], None);
     DeleteDuplicates.srv_select := fun _ _ _ => Ok 120%Z;
     DeleteDuplicates.srv_fetch := fun _ from _ =>
       ([Some (DeleteDuplicates.messageOf from "Subject: Minutes")], None);
     DeleteDuplicates.srv_uidstore := fun _ _ => None;
     DeleteDuplicates.srv_expunge := fun _ => None |}.

End Ranges.

(** ** What a deletion of a mailbox sends *)

Module Deletion.
Import Go DeleteFolder.

(** The steps of one attempt all go through, from the history [h] to a
    later one: the select for writing; when the mailbox holds messages,
    the store of the deleted flag on all of them and the expunge; the
    deletion of the mailbox. *)
Inductive StepsSucceed (srv : Server) (name : string) (h : list Call) : list Call -> Prop :=
| SucceedEmptied messages :
    srv_select srv h name false = Ok messages ->
    (0 < messages)%Z ->
    srv_store srv (h ++ [CSelect name false]) 1 messages = None ->
    srv_expunge srv ((h ++ [CSelect name false]) ++ [CStoreDeleted 1 messages]) = None ->
    srv_delete srv (((h ++ [CSelect name false]) ++ [CStoreDeleted 1 messages]) ++ [CExpunge])
      name = None ->
    StepsSucceed srv name h
      ((((h ++ [CSelect name false]) ++ [CStoreDeleted 1 messages]) ++ [CExpunge])
         ++ [CDelete name])
| SucceedEmpty messages :
    srv_select srv h name false = Ok messages ->
    (messages <= 0)%Z ->
    srv_delete srv (h ++ [CSelect name false]) name = None ->
    StepsSucceed srv name h ((h ++ [CSelect name false]) ++ [CDelete name]).

(** The calls [deleteMailbox] may make for the mailbox [name] with the
    manager [im]. *)
Definition allowed (im : IMAPManager) (name : string) (c : Call) : Prop :=
  match c with
  | CLogout | CExpunge => True
  | CDialTLS addr => addr = (host im ++ ":" ++ port im)%string
  | CLogin u p => u = user im /\ p = password im
  | CSelect n readOnly => n = name /\ readOnly = false
  | CStoreDeleted from _ => from = 1%Z
  | CDelete n => n = name
  | CSleep seconds => seconds = 2%Z
  end.

Definition countSelects (h : list Call) : nat :=
  length (List.filter (fun c => match c with CSelect _ _ => true | _ => false end) h).

Definition countDeletes (h : list Call) : nat :=
  length (List.filter (fun c => match c with CDelete _ => true | _ => false end) h).

(** What a stretch of calls adds: calls that are allowed, and so many
    selects, dials and deletions. *)
Definition Adds (im : IMAPManager) (name : string) (h h' : list Call)
    (selects dials deletes : nat) : Prop :=
  exists new,
    h' = h ++ new /\ Forall (allowed im name) new /\
    countSelects new <= selects /\ countDials new <= dials /\ countDeletes new <= deletes.

End Deletion.

(** ** imap-backup, the tool that saves every message to a file *)

Module Backup.
Import Go.

(** [strings.ReplaceAll(s, old, new)] for a one-byte [old]. *)
Fixpoint ReplaceAllByte (s : string) (old : ascii) (new : string) : string :=
  match s with
  | EmptyString => EmptyString
  | String c s' =>
      if Ascii.eqb c old then (new ++ ReplaceAllByte s' old new)%string
      else String c (ReplaceAllByte s' old new)
  end.

(** The bytes [sanitizePath] replaces, in the order of its list: the
    fourth is the double quote, the sixth the backslash. *)
Definition invalid : list ascii :=
  ["<"; ">"; ":"; ascii_of_nat 34; "/"; ascii_of_nat 92; "|"; "?"; "*"]%char.

Definition sanitizePath (path : string) : string :=
  fold_left (fun result char => ReplaceAllByte result char "_") invalid path.

(** The byte a byte of a path comes out as: an underscore for one of
    the nine, else itself. *)
Definition safeByte (c : ascii) : ascii :=
  if existsb (Ascii.eqb c) invalid then "_"%char else c.

(** A string with every byte replaced by its image. *)
Fixpoint mapBytes (f : ascii -> ascii) (s : string) : string :=
  match s with
  | EmptyString => EmptyString
  | String c s' => String (f c) (mapBytes f s')
  end.

End Backup.

(** ** delete-folder: finding the mailboxes and the run of [main] *)

Module DeleteFolderRun.
Import Go DeleteFolder.

(** What the tool sends before it deletes anything: the connection, the
    listing, selects for reading and retrievals of envelopes; and the
    logout of the deferred [Close] when [main] returns without having
    deleted. *)
Inductive Probe :=
| PDialTLS (addr : string)
| PLogin (user pass : string)
| PList
| PSelect (name : string)
| PFetchEnvelopes (from to : Z)
| PLogout.

(** The server's answers to these, from the probes so far.  A message
    is delivered as its subject and its date in the layout
    [2006-01-02 15:04:05]; its envelope is taken to be there. *)
Record Catalog := {
  cat_dial : list Probe -> string -> option string;
  cat_login : list Probe -> string -> string -> option string;
  cat_list : list Probe -> list string * option string;
  cat_select : list Probe -> string -> result Z;
  cat_fetch : list Probe -> Z -> Z -> list MessageInfo * option string
}.

Record Env := {
  dotenv : option string;
  IMAP_HOST : string;
  IMAP_PORT : string;
  IMAP_USER : string;
  IMAP_PASSWORD : string
}.

Definition connectIMAP (cat : Catalog) (env : Env) (h : list Probe)
  : result IMAPManager * list Probe :=
  let addr := (IMAP_HOST env ++ ":" ++ IMAP_PORT env)%string in
  match cat_dial cat h addr with
  | Some err => (Err ("connection error: " ++ err)%string, h ++ [PDialTLS addr])
  | None =>
      let h := h ++ [PDialTLS addr] in
      match cat_login cat h (IMAP_USER env) (IMAP_PASSWORD env) with
      | Some err =>
          (Err ("login error: " ++ err)%string,
           h ++ [PLogin (IMAP_USER env) (IMAP_PASSWORD env)])
      | None =>
          (Ok {| host := IMAP_HOST env; port := IMAP_PORT env;
                 user := IMAP_USER env; password := IMAP_PASSWORD env |},
           h ++ [PLogin (IMAP_USER env) (IMAP_PASSWORD env)])
      end
  end.

Definition listAllMailboxes (cat : Catalog) (h : list Probe)
  : result (list string) * list Probe :=
  let (boxes, status) := cat_list cat h in
  let h := h ++ [PList] in
  match status with
  | Some err => (Err ("error listing mailboxes: " ++ err)%string, h)
  | None => (Ok boxes, h)
  end.

Definition getMailboxMessages (cat : Catalog) (mailboxName : string) (h : list Probe)
  : result (list MessageInfo) * list Probe :=
  match cat_select cat h mailboxName with
  | Err err => (Err err, h ++ [PSelect mailboxName])
  | Ok messages =>
      let h := h ++ [PSelect mailboxName] in
      if (messages =? 0)%Z then (Ok [], h)
      else
        let (messagesList, status) := cat_fetch cat h 1 messages in
        let h := h ++ [PFetchEnvelopes 1 messages] in
        match status with
        | Some err => (Err err, h)
        | None => (Ok messagesList, h)
        end
  end.

(** The body of [for _, name := range allBoxes] in
    [findMailboxesForDeletion]. *)
Definition findStep (cat : Catalog) (prefix : string) (withMessages : bool)
    (state : list MailboxInfo * list Probe) (name : string)
  : list MailboxInfo * list Probe :=
  let (toDelete, h) := state in
  if HasPrefix name prefix then
    match cat_select cat h name with
    | Err _ => (toDelete, h ++ [PSelect name])
    | Ok messages =>
        let h := h ++ [PSelect name] in
        if withMessages && (0 <? messages)%Z then
          match getMailboxMessages cat name h with
          | (Err _, h) =>
              (toDelete ++ [{| Name := name; Messages := messages; MessagesList := [] |}], h)
          | (Ok messagesList, h) =>
              (toDelete ++ [{| Name := name; Messages := messages;
                               MessagesList := messagesList |}], h)
          end
        else (toDelete ++ [{| Name := name; Messages := messages; MessagesList := [] |}], h)
    end
  else (toDelete, h).

Definition findMailboxesForDeletion (cat : Catalog) (prefix : string) (withMessages : bool)
    (h : list Probe) : result (list MailboxInfo) * list Probe :=
  match listAllMailboxes cat h with
  | (Err err, h) => (Err err, h)
  | (Ok allBoxes, h) =>
      let (toDelete, h) := fold_left (findStep cat prefix withMessages) allBoxes ([], h) in
      if (length toDelete =? 0)%nat
      then (Err ("no mailboxes found matching: " ++ prefix)%string, h)
      else (Ok toDelete, h)
  end.

(** What [findMailboxesForDeletion] makes of the listed names, from one
    history to a later one: a name without the prefix is passed over
    without a probe; a name with the prefix is selected for reading; if
    the select fails the mailbox is left out; else it is found, with
    the number of messages the select reported and, when message lists
    are asked for and it holds any, with the list [getMailboxMessages]
    returns for it, or none when that fails. *)
Inductive Finds (cat : Catalog) (prefix : string) (withMessages : bool)
  : list string -> list Probe -> list MailboxInfo -> list Probe -> Prop :=
| FindsEnd h : Finds cat prefix withMessages [] h [] h
| FindsOther name rest h found h' :
    HasPrefix name prefix = false ->
    Finds cat prefix withMessages rest h found h' ->
    Finds cat prefix withMessages (name :: rest) h found h'
| FindsUnselectable name rest h err found h' :
    HasPrefix name prefix = true ->
    cat_select cat h name = Err err ->
    Finds cat prefix withMessages rest (h ++ [PSelect name]) found h' ->
    Finds cat prefix withMessages (name :: rest) h found h'
| FindsPlain name rest h messages found h' :
    HasPrefix name prefix = true ->
    cat_select cat h name = Ok messages ->
    withMessages = false \/ (messages <= 0)%Z ->
    Finds cat prefix withMessages rest (h ++ [PSelect name]) found h' ->
    Finds cat prefix withMessages (name :: rest) h
      ({| Name := name; Messages := messages; MessagesList := [] |} :: found) h'
| FindsDetailed name rest h messages res h1 found h' :
    HasPrefix name prefix = true ->
    cat_select cat h name = Ok messages ->
    withMessages = true -> (0 < messages)%Z ->
    getMailboxMessages cat name (h ++ [PSelect name]) = (res, h1) ->
    Finds cat prefix withMessages rest h1 found h' ->
    Finds cat prefix withMessages (name :: rest) h
      ({| Name := name; Messages := messages;
          MessagesList := match res with Ok messagesList => messagesList | Err _ => [] end |}
         :: found) h'.

(** Whether a select for reading of the mailbox goes through, on a
    server that answers it the same at all times. *)
Definition selectable (cat : Catalog) (name : string) : bool :=
  match cat_select cat [] name with Ok _ => true | Err _ => false end.

(** [confirmDeletion] and [askShowDetails] read the answer alike; the
    error of the read is dropped. *)
Definition confirmDeletion `{Unicode} (stdin : list DeleteDuplicates.Line)
  : bool * list DeleteDuplicates.Line :=
  let (line, stdin) := DeleteDuplicates.readLine stdin in
  (String.eqb (TrimSpace (ToLower (DeleteDuplicates.text line))) "yes", stdin).

Definition askShowDetails `{Unicode} (stdin : list DeleteDuplicates.Line)
  : bool * list DeleteDuplicates.Line :=
  let (line, stdin) := DeleteDuplicates.readLine stdin in
  (String.eqb (TrimSpace (ToLower (DeleteDuplicates.text line))) "yes", stdin).

(** The deletion loop of [main]: an error is logged with the name of
    its mailbox and the loop goes on. *)
Fixpoint deleteAll (srv : Server) (im : IMAPManager) (sortedMailboxes : list MailboxInfo)
    (h : list Call) : list (string * string) * list Call :=
  match sortedMailboxes with
  | [] => ([], h)
  | m :: rest =>
      match deleteMailbox srv im (Name m) h with
      | (Some err, h) =>
          let (errs, h) := deleteAll srv im rest h in ((Name m, err) :: errs, h)
      | (None, h) => deleteAll srv im rest h
      end
  end.

(** How the process ends: [log.Fatal] or one of the three returns of
    [main]. *)
Inductive Exit :=
| Fatal (msg : string)
| DryRunReport (mailboxes : list MailboxInfo) (details : bool)
| Cancelled
| Deleted (errors : list (string * string)).

(** [main], from the check of the arguments on; the handler of
    interrupts is left out.  The probes and the
    calls of the deletions are recorded apart; the server's answers to
    the deletions may depend on all the probes before them. *)
Definition main `{SliceSorter} `{Unicode} (args : list string) (dryRun : bool) (env : Env)
    (cat : Catalog) (srv : list Probe -> Server) (stdin : list DeleteDuplicates.Line)
  : Exit * list Probe * list Call :=
  match args with
  | [folderName] =>
      match dotenv env with
      | Some _ => (Fatal "Error loading .env file", [], [])
      | None =>
          match connectIMAP cat env [] with
          | (Err err, h) => (Fatal ("Failed to connect to IMAP: " ++ err)%string, h, [])
          | (Ok imap, h) =>
              match findMailboxesForDeletion cat folderName dryRun h with
              | (Err err, h) => (Fatal ("Error finding mailboxes: " ++ err)%string, h, [])
              | (Ok mailboxes, h) =>
                  if dryRun then
                    let (details, stdin) := askShowDetails stdin in
                    (DryRunReport mailboxes details, h ++ [PLogout], [])
                  else
                    let (yes, stdin) := confirmDeletion stdin in
                    if negb yes then (Cancelled, h ++ [PLogout], [])
                    else
                      let sortedMailboxes := sortMailboxesByDepth mailboxes in
                      let (errs, calls) := deleteAll (srv h) imap sortedMailboxes [] in
                      (Deleted errs, h, calls ++ [CLogout])
              end
          end
      end
  | _ => (Fatal "Usage: delete-folder [--dry-run] folder_name", [], [])
  end.

(** The calls that concern no mailbox or one of those named. *)
Definition concerns (names : list string) (c : Call) : Prop :=
  match c with
  | CSelect n _ | CDelete n => In n names
  | _ => True
  end.


(** A server with an archive of three folders next to the inbox; the
    folder Old/2023 cannot be selected for reading. *)
Definition archive : Catalog :=
  {| cat_dial := fun _ _ => None;
     cat_login := fun _ _ _ => None;
     cat_list := fun _ => (["INBOX"; "Old"; "Old/2023"; "Old/2024"; "Older"], None);
     cat_select := fun _ name =>
       if String.eqb name "Old/2023" then Err "NO permission denied" else Ok 2%Z;
     cat_fetch := fun _ _ _ =>
       ([{| Subject := "Minutes"; Date := "2024-01-01 10:00:00" |};
         {| Subject := "Agenda"; Date := "2024-01-02 10:00:00" |}], None) |}.

Definition willing : Server :=
  {| srv_dial := fun _ _ => None;
     srv_login := fun _ _ _ => None;
     srv_select := fun _ _ _ => Ok 2%Z;
     srv_store := fun _ _ _ => None;
     srv_expunge := fun _ => None;
     srv_delete := fun _ _ => None |}.

Definition archiveEnv : Env :=
  {| dotenv := None; IMAP_HOST := "imap.example.com"; IMAP_PORT := "993";
     IMAP_USER := "me"; IMAP_PASSWORD := "secret" |}.

End DeleteFolderRun.

(** ** manage-duplicates, the move variant: the trash folder and the run of [main] *)

Module MoveRun.
Import Go MoveDuplicates.

(** [strings.EqualFold], equality under Unicode case folding. *)
Class Folding := { EqualFold : string -> string -> bool }.

(** Equality of the ASCII-lowered strings, for the examples. *)
Definition asciiFolding : Folding :=
  {| EqualFold := fun s t => String.eqb (asciiToLower s) (asciiToLower t) |}.

Record IMAPManager := { trashbox : string }.

(** The run is recorded in three parts: the session (connection,
    listings, logout), the scan, and the moves.  The server's answers
    in a later part may depend on all of the parts before. *)
Inductive Admin :=
| ADialTLS (addr : string)
| ALogin (user pass : string)
| AList
| ALogout.

(** [Move] takes the numbers of its set as message sequence numbers. *)
Inductive Action :=
| ASelect (name : string)
| AMove (num : Z) (dest : string).

Record Host := {
  adm_dial : list Admin -> string -> option string;
  adm_login : list Admin -> string -> string -> option string;
  adm_list : list Admin -> list string * option string
}.

Record Mover := {
  mv_select : list Action -> string -> option string;
  mv_move : list Action -> Z -> string -> option string
}.

Record World := {
  session : Host;
  scanner : list Admin -> Server;
  mover : list Admin -> list Event -> Mover
}.

Record Env := {
  dotenv : option string;
  IMAP_HOST : string;
  IMAP_PORT : string;
  IMAP_USER : string;
  IMAP_PASSWORD : string
}.

Definition trashNames : list string :=
  ["Trash"; "TRASH"; "Corbeille"; "Deleted Items"; "[Gmail]/Trash"; "[Google Mail]/Trash"].

(** [for _, t := range trashNames] with its [break]: whether the name
    equals one of the trash names under case folding. *)
Fixpoint isTrashName `{Folding} (name : string) (names : list string) : bool :=
  match names with
  | [] => false
  | t :: rest => if EqualFold name t then true else isTrashName name rest
  end.

(** The body of [for m := range mailboxes] in [connectIMAP]. *)
Definition trashStep `{Folding} (trashbox name : string) : string :=
  if isTrashName name trashNames then name else trashbox.

Definition connectIMAP `{Folding} (srv : Host) (env : Env) (h : list Admin)
  : result IMAPManager * list Admin :=
  let addr := (IMAP_HOST env ++ ":" ++ IMAP_PORT env)%string in
  match adm_dial srv h addr with
  | Some err => (Err ("connection error: " ++ err)%string, h ++ [ADialTLS addr])
  | None =>
      let h := h ++ [ADialTLS addr] in
      match adm_login srv h (IMAP_USER env) (IMAP_PASSWORD env) with
      | Some err =>
          (Err ("login error: " ++ err)%string,
           h ++ [ALogin (IMAP_USER env) (IMAP_PASSWORD env)])
      | None =>
          let h := h ++ [ALogin (IMAP_USER env) (IMAP_PASSWORD env)] in
          let (names, status) := adm_list srv h in
          let h := h ++ [AList] in
          let trashbox := fold_left trashStep names EmptyString in
          match status with
          | Some err => (Err ("error listing mailboxes: " ++ err)%string, h)
          | None =>
              if String.eqb trashbox "" then (Err "could not find trash folder", h)
              else (Ok {| trashbox := trashbox |}, h)
          end
      end
  end.

(** [listMailboxes] returns the names it kept together with the status
    of the listing. *)
Definition listMailboxes `{Folding} (srv : Host) (im : IMAPManager) (h : list Admin)
  : list string * option string * list Admin :=
  let (names, status) := adm_list srv h in
  (List.filter (fun name => negb (EqualFold name (trashbox im))) names, status, h ++ [AList]).

Definition moveToTrash (srv : Mover) (im : IMAPManager) (email : EmailInfo)
    (h : list Action) : option string * list Action :=
  match mv_select srv h (Mailbox email) with
  | Some err => (Some err, h ++ [ASelect (Mailbox email)])
  | None =>
      let h := h ++ [ASelect (Mailbox email)] in
      (mv_move srv h (Uid email) (trashbox im), h ++ [AMove (Uid email) (trashbox im)])
  end.

(** The errors of [promptForChoice]: that of the read, and
    "invalid choice". *)
Inductive ChoiceError :=
| ReadFailed
| InvalidChoice.

(** [promptForChoice], its printing left out.  The header it prints
    reads [group.Emails[0]], which panics on a group without members:
    that is [None]. *)
Definition promptForChoice `{Unicode} (group : DuplicateGroup) (dryRun : bool)
    (stdin : list DeleteDuplicates.Line)
  : option (Z * option ChoiceError * list DeleteDuplicates.Line) :=
  match Emails group with
  | [] => None
  | _ :: _ =>
      if dryRun then Some (0, None, stdin)%Z
      else
        let (line, stdin) := DeleteDuplicates.readLine stdin in
        if DeleteDuplicates.failed line then Some (-1, Some ReadFailed, stdin)%Z
        else
          let input := TrimSpace (DeleteDuplicates.text line) in
          if String.eqb input "s" || String.eqb input "S" then Some (-1, None, stdin)%Z
          else
            match Atoi input with
            | None => Some (-1, Some InvalidChoice, stdin)%Z
            | Some choice =>
                if ((choice <? 1) || (choice >? Z.of_nat (length (Emails group))))%Z
                then Some (-1, Some InvalidChoice, stdin)%Z
                else Some (choice - 1, None, stdin)%Z
            end
  end.

(** [for j, email := range group.Emails { if j != choice { append } }]. *)
Fixpoint planGroup (choice j : Z) (emails : list EmailInfo) (plannedMoves : list EmailInfo)
  : list EmailInfo :=
  match emails with
  | [] => plannedMoves
  | email :: rest =>
      planGroup choice (j + 1) rest
        (if negb (j =? choice)%Z then plannedMoves ++ [email] else plannedMoves)
  end.

(** [for i, group := range duplicateGroups] in [main]. *)
Fixpoint planLoop `{Unicode} (groups : list DuplicateGroup) (dryRun : bool)
    (stdin : list DeleteDuplicates.Line) (plannedMoves : list EmailInfo)
  : option (list EmailInfo * list DeleteDuplicates.Line) :=
  match groups with
  | [] => Some (plannedMoves, stdin)
  | group :: rest =>
      match promptForChoice group dryRun stdin with
      | None => None
      | Some (_, Some _, stdin) => planLoop rest dryRun stdin plannedMoves
      | Some (choice, None, stdin) =>
          if (choice =? -1)%Z then planLoop rest dryRun stdin plannedMoves
          else planLoop rest dryRun stdin (planGroup choice 0 (Emails group) plannedMoves)
      end
  end.

Definition confirmActions `{Unicode} (stdin : list DeleteDuplicates.Line)
  : bool * list DeleteDuplicates.Line :=
  let (line, stdin) := DeleteDuplicates.readLine stdin in
  (String.eqb (TrimSpace (ToLower (DeleteDuplicates.text line))) "yes", stdin).

(** The scan loop of [main]. *)
Fixpoint scanAll `{Sha256} (fuel : nat) (srv : Server) (mailboxes : list string)
    (allEmails : list EmailInfo) (h : list Event)
  : option (list EmailInfo * list Event) :=
  match mailboxes with
  | [] => Some (allEmails, h)
  | mailbox :: rest =>
      match scanMailbox fuel srv mailbox h with
      | None => None
      | Some (Err _, h') => scanAll fuel srv rest allEmails h'
      | Some (Ok emails, h') => scanAll fuel srv rest (allEmails ++ emails) h'
      end
  end.

(** The last loop of [main]: an error is printed and the loop goes on. *)
Fixpoint moveAll (srv : Mover) (im : IMAPManager) (plannedMoves : list EmailInfo)
    (h : list Action) : list string * list Action :=
  match plannedMoves with
  | [] => ([], h)
  | email :: rest =>
      match moveToTrash srv im email h with
      | (Some err, h') => let (errs, h'') := moveAll srv im rest h' in (err :: errs, h'')
      | (None, h') => moveAll srv im rest h'
      end
  end.

Inductive Exit :=
| Fatal (msg : string)
| Panicked
| NoActions
| DryRunSummary (plannedMoves : list EmailInfo)
| Cancelled
| Completed (errors : list string).

Record Run := {
  exit : Exit;
  admin : list Admin;
  scanned : list Event;
  actions : list Action
}.

(** [main], from the loading of the environment on; the handler of
    interrupts is left out.  [None] when the fuel of a scan runs out.
    The deferred [imap.Close()] logs out on every way out but
    [log.Fatal]. *)
Definition main `{Sha256} `{MapRange} `{Unicode} `{Folding} (fuel : nat) (dryRun : bool)
    (env : Env) (world : World) (stdin : list DeleteDuplicates.Line) : option Run :=
  match dotenv env with
  | Some _ => Some {| exit := Fatal "Error loading .env file";
                      admin := []; scanned := []; actions := [] |}
  | None =>
      match connectIMAP (session world) env [] with
      | (Err err, h) =>
          Some {| exit := Fatal ("Failed to connect to IMAP: " ++ err)%string;
                  admin := h; scanned := []; actions := [] |}
      | (Ok imap, h) =>
          match listMailboxes (session world) imap h with
          | (_, Some err, h) =>
              Some {| exit := Fatal ("Error listing mailboxes: " ++ err)%string;
                      admin := h; scanned := []; actions := [] |}
          | (mailboxes, None, h) =>
              match scanAll fuel (scanner world h) mailboxes [] [] with
              | None => None
              | Some (allEmails, events) =>
                  let duplicateGroups := findDuplicates allEmails in
                  match planLoop duplicateGroups dryRun stdin [] with
                  | None =>
                      Some {| exit := Panicked; admin := h ++ [ALogout];
                              scanned := events; actions := [] |}
                  | Some (plannedMoves, stdin) =>
                      if (length plannedMoves =? 0)%nat then
                        Some {| exit := NoActions; admin := h ++ [ALogout];
                                scanned := events; actions := [] |}
                      else if dryRun then
                        Some {| exit := DryRunSummary plannedMoves; admin := h ++ [ALogout];
                                scanned := events; actions := [] |}
                      else
                        let (yes, stdin) := confirmActions stdin in
                        if negb yes then
                          Some {| exit := Cancelled; admin := h ++ [ALogout];
                                  scanned := events; actions := [] |}
                        else
                          let (errs, moves) :=
                            moveAll (mover world h events) imap plannedMoves [] in
                          Some {| exit := Completed errs; admin := h ++ [ALogout];
                                  scanned := events; actions := moves |}
                  end
              end
          end
      end
  end.

(** What the scan and the moves of a run may touch, given the trash
    folder: the scan selects for reading only, and no folder that is
    the trash folder under case folding; the moves select no such
    folder and move to the trash folder only. *)
Definition scansOutsideTrash `{Folding} (im : IMAPManager) (e : Event) : Prop :=
  match e with
  | ESelect name readOnly => readOnly = true /\ EqualFold name (trashbox im) = false
  | _ => True
  end.

Definition movesToTrash `{Folding} (im : IMAPManager) (a : Action) : Prop :=
  match a with
  | ASelect name => EqualFold name (trashbox im) = false
  | AMove _ dest => dest = trashbox im
  end.

(** The scan of the mailboxes of a list selects these for reading and
    selects nothing else. *)
Definition selectsFrom (mailboxes : list string) (e : Event) : Prop :=
  match e with
  | ESelect name readOnly => readOnly = true /\ In name mailboxes
  | _ => True
  end.

(** A server with two folders that pass for the trash. *)
Definition twoTrashes : Host :=
  {| adm_dial := fun _ _ => None;
     adm_login := fun _ _ _ => None;
     adm_list := fun _ => (["INBOX"; "Trash"; "Archive"; "[Gmail]/Trash"], None) |}.

(** Every folder holds the same two copies of one message. *)
Definition copyOf (uid : Z) : Message :=
  {| MsgUid := uid; EnvelopeSubject := "Invoice"; EnvelopeDate := 0; MsgSize := 2048;
     GetBody := Some (Ok damagedMessage) |}.

Definition twoCopies : World :=
  {| session := twoTrashes;
     scanner := fun _ =>
       {| srv_select := fun _ _ _ => Ok 2%Z;
          srv_fetch := fun _ _ _ => ([copyOf 7; copyOf 9], None) |};
     mover := fun _ _ =>
       {| mv_select := fun _ _ => None; mv_move := fun _ _ _ => None |} |}.

Definition plainEnv : Env :=
  {| dotenv := None; IMAP_HOST := "imap.example.com"; IMAP_PORT := "993";
     IMAP_USER := "me"; IMAP_PASSWORD := "secret" |}.



End MoveRun.

(** ** Plans that keep one member of a group *)

Module KeepOne.
Section Takes.
Context {A G : Type} (members : G -> list A).

(** A plan made group after group, in order: of a group it takes
    nothing, or every member but one, in the order of the group. *)
Inductive TakesFrom : list G -> list A -> Prop :=
| TakesNone : TakesFrom [] []
| TakesSkip group rest plan :
    TakesFrom rest plan -> TakesFrom (group :: rest) plan
| TakesOthers group rest before kept after plan :
    members group = before ++ kept :: after ->
    TakesFrom rest plan ->
    TakesFrom (group :: rest) ((before ++ after) ++ plan).

End Takes.
End KeepOne.

(** ** imap-backup: the run of [Start] *)

Module BackupRun.
Import Go Backup.

(** [strings.Split]. *)
Class Strings := { Split : string -> string -> list string }.

(** Splitting at a one-byte separator, for the examples. *)
Fixpoint splitByte (sep : ascii) (s : string) : list string :=
  match s with
  | EmptyString => [EmptyString]
  | String c s' =>
      if Ascii.eqb c sep then EmptyString :: splitByte sep s'
      else match splitByte sep s' with
           | [] => [String c EmptyString]
           | first :: rest => String c first :: rest
           end
  end.

Definition byteStrings : Strings :=
  {| Split := fun s sep =>
       match sep with
       | String c EmptyString => splitByte c s
       | _ => [s]
       end |}.

Record ImapConfig := {
  Host : string;
  Port : string;
  User : string;
  Password : string;
  BackupDir : string
}.

(** What [Start] does, in order.  A path is recorded as the elements
    handed to [filepath.Join]; the file of a message as its directory
    and the two numbers of its name, [<nanos>_<seqNum>.eml]. *)
Inductive Event :=
| EDialTLS (addr : string)
| ELogin (user pass : string)
| EMkdirAll (elems : list string)
| EList
| ESelect (name : string)
| EFetch (from to : Z)
| ECreate (dir : list string) (nanos seqNum : Z)
| ECopy (dir : list string) (nanos seqNum : Z)
| ELogout.

(** A fetched message: its sequence number and whether
    [GetBody(section)] is there. *)
Record Message := { SeqNum : Z; HasBody : bool }.

(** A listed mailbox. *)
Record Listed := { Name : string; Delimiter : string }.

(** The server, the file system and the clock answer from the events so
    far. *)
Record World := {
  w_dial : list Event -> string -> option string;
  w_login : list Event -> string -> string -> option string;
  w_mkdir : list Event -> list string -> option string;
  w_list : list Event -> list Listed * option string;
  w_select : list Event -> string -> result Z;
  w_fetch : list Event -> Z -> Z -> list Message * option string;
  w_now : list Event -> Z;
  w_create : list Event -> list string -> Z -> Z -> option string;
  w_copy : list Event -> list string -> Z -> Z -> option string
}.

(** The errors, by the text that wraps them. *)
Inductive Error :=
| ConnectionError (err : string)
| LoginError (err : string)
| BackupDirError (err : string)
| ListingError (err : string)
| DirectoryError (elems : list string) (err : string)
| SelectError (err : string)
| BatchError (from to : Z) (err : string)
| CreateError (err : string)
| WriteError (err : string).

Definition saveMessage (w : World) (mailboxPath : list string) (seqNum : Z) (h : list Event)
  : option Error * list Event :=
  let nanos := w_now w h in
  match w_create w h mailboxPath nanos seqNum with
  | Some err => (Some (CreateError err), h ++ [ECreate mailboxPath nanos seqNum])
  | None =>
      let h := h ++ [ECreate mailboxPath nanos seqNum] in
      match w_copy w h mailboxPath nanos seqNum with
      | Some err => (Some (WriteError err), h ++ [ECopy mailboxPath nanos seqNum])
      | None => (None, h ++ [ECopy mailboxPath nanos seqNum])
      end
  end.

(** The body of [for msg := range messages]: a message without a body
    and a message that cannot be saved are logged and passed over. *)
Definition saveStep (w : World) (mailboxPath : list string) (h : list Event) (msg : Message)
  : list Event :=
  if HasBody msg then snd (saveMessage w mailboxPath (SeqNum msg) h) else h.

Definition backupMessageBatch (w : World) (mailboxPath : list string) (start end_ : Z)
    (h : list Event) : option string * list Event :=
  let (delivered, status) := w_fetch w h start end_ in
  let h := h ++ [EFetch start end_] in
  (status, fold_left (saveStep w mailboxPath) delivered h).

Definition batchSize : Z := 100.

(** [for i := uint32(1); i <= mbox.Messages; i += batchSize], one turn
    per unit of fuel. *)
Fixpoint backupBatches (fuel : nat) (w : World) (mailboxPath : list string)
    (messages i : Z) (h : list Event) : option (option Error * list Event) :=
  match fuel with
  | O => None
  | S fuel' =>
      if (i <=? messages)%Z then
        let end_ := u32 (i + batchSize - 1) in
        let end_ := if (end_ >? messages)%Z then messages else end_ in
        match backupMessageBatch w mailboxPath i end_ h with
        | (Some err, h) => Some (Some (BatchError i end_ err), h)
        | (None, h) => backupBatches fuel' w mailboxPath messages (u32 (i + batchSize)) h
        end
      else Some (None, h)
  end.

(** The directory of a mailbox: the backup directory, then the
    sanitized parts of its name. *)
Definition mailboxPathOf `{Strings} (config : ImapConfig) (delimiter mailboxName : string)
  : list string :=
  [BackupDir config] ++ map sanitizePath (Split mailboxName delimiter).

Definition backupMailbox `{Strings} (fuel : nat) (w : World) (config : ImapConfig)
    (delimiter mailboxName : string) (h : list Event)
  : option (option Error * list Event) :=
  let mailboxPath := mailboxPathOf config delimiter mailboxName in
  match w_mkdir w h mailboxPath with
  | Some err => Some (Some (DirectoryError mailboxPath err), h ++ [EMkdirAll mailboxPath])
  | None =>
      let h := h ++ [EMkdirAll mailboxPath] in
      match w_select w h mailboxName with
      | Err err => Some (Some (SelectError err), h ++ [ESelect mailboxName])
      | Ok messages =>
          let h := h ++ [ESelect mailboxName] in
          if (messages =? 0)%Z then Some (None, h)
          else backupBatches fuel w mailboxPath messages 1 h
      end
  end.

(** The body of [for mbox := range mailboxes] in [Start], for the
    delimiter. *)
Definition pickDelimiter (delimiter : string) (mbox : Listed) : string :=
  if String.eqb delimiter "" && negb (String.eqb (Delimiter mbox) "")
  then Delimiter mbox else delimiter.

(** The last loop of [Start]: an error is logged with the name of its
    mailbox and the loop goes on. *)
Fixpoint backupAll `{Strings} (fuel : nat) (w : World) (config : ImapConfig)
    (delimiter : string) (boxes : list string) (h : list Event)
  : option (list (string * Error) * list Event) :=
  match boxes with
  | [] => Some ([], h)
  | mailboxName :: rest =>
      match backupMailbox fuel w config delimiter mailboxName h with
      | None => None
      | Some (status, h) =>
          match backupAll fuel w config delimiter rest h with
          | None => None
          | Some (errs, h) =>
              Some (match status with
                    | Some err => (mailboxName, err) :: errs
                    | None => errs
                    end, h)
          end
      end
  end.

(** [Start]; the deferred logout runs on every return after the dial.
    The errors logged in the last loop are returned beside the
    result. *)
Definition Start `{Strings} (fuel : nat) (w : World) (config : ImapConfig) (h : list Event)
  : option (option Error * list (string * Error) * list Event) :=
  let addr := (Host config ++ ":" ++ Port config)%string in
  match w_dial w h addr with
  | Some err => Some (Some (ConnectionError err), [], h ++ [EDialTLS addr])
  | None =>
      let h := h ++ [EDialTLS addr] in
      match w_login w h (User config) (Password config) with
      | Some err =>
          Some (Some (LoginError err), [],
                (h ++ [ELogin (User config) (Password config)]) ++ [ELogout])
      | None =>
          let h := h ++ [ELogin (User config) (Password config)] in
          match w_mkdir w h [BackupDir config] with
          | Some err =>
              Some (Some (BackupDirError err), [],
                    (h ++ [EMkdirAll [BackupDir config]]) ++ [ELogout])
          | None =>
              let h := h ++ [EMkdirAll [BackupDir config]] in
              let (mailboxes, status) := w_list w h in
              let h := h ++ [EList] in
              let delimiter := fold_left pickDelimiter mailboxes EmptyString in
              let boxes := map Name mailboxes in
              match status with
              | Some err => Some (Some (ListingError err), [], h ++ [ELogout])
              | None =>
                  match backupAll fuel w config delimiter boxes h with
                  | None => None
                  | Some (errs, h) => Some (None, errs, h ++ [ELogout])
                  end
              end
          end
      end
  end.

(** The sequence numbers of the files created, and the ranges asked
    for, in an event record. *)
Definition createdSeqNums (h : list Event) : list Z :=
  omap (fun e => match e with ECreate _ _ seqNum => Some seqNum | _ => None end) h.

Definition fetchRanges (h : list Event) : list (Z * Z) :=
  omap (fun e => match e with EFetch from to => Some (from, to) | _ => None end) h.

(** The directories created in an event record, in order. *)
Definition createdDirs (h : list Event) : list (list string) :=
  omap (fun e => match e with EMkdirAll elems => Some elems | _ => None end) h.

(** The events of saving into the directory [dir]. *)
Definition savesInto (dir : list string) (e : Event) : Prop :=
  match e with
  | ECreate d _ _ | ECopy d _ _ => d = dir
  | _ => False
  end.

(** The first delimiter of a listing that is not empty. *)
Definition firstDelimiter (mailboxes : list Listed) : string :=
  default EmptyString
    (head (List.filter (fun d => negb (String.eqb d "")) (map Delimiter mailboxes))).

(** A server with three folders; Work cannot be selected, the file of
    the second message of a folder cannot be created. *)
Definition threeFolders : World :=
  {| w_dial := fun _ _ => None;
     w_login := fun _ _ _ => None;
     w_mkdir := fun _ _ => None;
     w_list := fun _ =>
       ([{| Name := "INBOX"; Delimiter := "" |}; {| Name := "Work"; Delimiter := "/" |};
         {| Name := "Work/2024: Q1"; Delimiter := "/" |}], None);
     w_select := fun _ name => if String.eqb name "Work" then Err "NO no access" else Ok 3%Z;
     w_fetch := fun _ _ _ =>
       ([{| SeqNum := 1; HasBody := true |}; {| SeqNum := 2; HasBody := true |};
         {| SeqNum := 3; HasBody := false |}], None);
     w_now := fun h => Z.of_nat (length h);
     w_create := fun _ _ _ seqNum => if (seqNum =? 2)%Z then Some "disk full" else None;
     w_copy := fun _ _ _ _ => None |}.

Definition someConfig : ImapConfig :=
  {| Host := "imap.example.com"; Port := "993"; User := "me"; Password := "secret";
     BackupDir := "email_backup" |}.

(** The errors [Start] can return: those of the connection, the login,
    the backup directory and the listing. *)
Definition setupError (res : option Error) : Prop :=
  match res with
  | None => True
  | Some (ConnectionError _ | LoginError _ | BackupDirError _ | ListingError _) => True
  | Some _ => False
  end.

End BackupRun.

(** * Verification *)

(** ** Two implementations of [sort.Slice] meet its contract *)

Section SorterFacts.
Import Go.
Context {A : Type} (less : A -> A -> bool).

Lemma bubble_perm (x : A) (acc : list A) : Permutation (bubble less x acc) (x :: acc).
Proof.
  induction acc as [|y r IH]; simpl; [reflexivity|].
  destruct (less x y); [|reflexivity].
  rewrite IH. apply Permutation_swap.
Qed.

Lemma fold_bubble_perm (l acc : list A) :
  Permutation (fold_left (fun acc x => bubble less x acc) l acc) (l ++ acc).
Proof.
  revert acc. induction l as [|x l IH]; intros acc; simpl; [reflexivity|].
  rewrite IH, bubble_perm. symmetry. apply Permutation_middle.
Qed.

Lemma insertionSort_perm (l : list A) : Permutation (insertionSort less l) l.
Proof.
  unfold insertionSort. rewrite <- Permutation_rev, fold_bubble_perm.
  now rewrite app_nil_r.
Qed.

Lemma swapAt_perm (i j : nat) (l : list A) : Permutation (swapAt i j l) l.
Proof.
  unfold swapAt.
  destruct (l !! i) as [x|] eqn:Hi; [|reflexivity].
  destruct (l !! j) as [y|] eqn:Hj; [|reflexivity].
  now apply Permutation_insert_swap.
Qed.

Lemma shellPass6_perm (l : list A) : Permutation (shellPass6 less l) l.
Proof.
  unfold shellPass6. generalize (seq 6 (length l - 6)) as idxs.
  intros idxs. revert l. induction idxs as [|i idxs IH]; intros l; simpl; [reflexivity|].
  rewrite IH.
  destruct (l !! i); [|reflexivity].
  destruct (l !! (i - 6)); [|reflexivity].
  destruct (less _ _); [apply swapAt_perm | reflexivity].
Qed.

Hypothesis less_swo : StrictWeakOrder less.

Lemma less_asym (x y : A) : less x y = true -> less y x = false.
Proof.
  intros Hxy. destruct (less y x) eqn:Hyx; [|reflexivity].
  pose proof (swo_trans less less_swo x y x Hxy Hyx) as Hxx.
  rewrite (swo_irrefl less less_swo) in Hxx. discriminate.
Qed.

Lemma bubble_sorted (x : A) (acc : list A) :
  StronglySorted (fun a b => less a b = false) acc ->
  StronglySorted (fun a b => less a b = false) (bubble less x acc).
Proof.
  induction acc as [|y r IH]; simpl; intros Hs.
  - repeat constructor.
  - apply StronglySorted_cons in Hs as [Hy Hr].
    destruct (less x y) eqn:Hxy.
    + apply StronglySorted_cons. split; [|auto].
      eapply Permutation_Forall; [symmetry; apply bubble_perm|].
      constructor; [now apply less_asym | exact Hy].
    + apply StronglySorted_cons. split.
      * constructor; [exact Hxy|].
        eapply Forall_impl; [exact Hy|].
        intros z Hyz. simpl in Hyz. eapply swo_incomp; eauto.
      * apply StronglySorted_cons. auto.
Qed.

Lemma fold_bubble_sorted (l acc : list A) :
  StronglySorted (fun a b => less a b = false) acc ->
  StronglySorted (fun a b => less a b = false)
    (fold_left (fun acc x => bubble less x acc) l acc).
Proof.
  revert acc. induction l as [|x l IH]; intros acc Hs; simpl; [exact Hs|].
  apply IH, bubble_sorted, Hs.
Qed.

Lemma StronglySorted_rev_flip (R : A -> A -> Prop) (l : list A) :
  StronglySorted R l -> StronglySorted (fun x y => R y x) (rev l).
Proof.
  induction 1 as [|x l Hs IH Hx]; simpl; [constructor|].
  apply StronglySorted_app. split; [|split]; [|exact IH|repeat constructor].
  intros a b Ha Hb. apply list_elem_of_singleton in Hb. subst b.
  rewrite Forall_forall in Hx. apply Hx.
  apply list_elem_of_In in Ha. apply list_elem_of_In. now apply in_rev.
Qed.

Lemma insertionSort_sorted (l : list A) :
  StronglySorted (fun x y => less y x = false) (insertionSort less l).
Proof.
  unfold insertionSort.
  apply (StronglySorted_rev_flip (fun a b => less a b = false)).
  apply fold_bubble_sorted. constructor.
Qed.
End SorterFacts.

(** The insertion sort that [sort.Slice] runs on slices of at most 12
    elements since Go 1.19. *)
Definition insertionSorter : Go.SliceSorter :=
  {| Go.sort_Slice := @Go.insertionSort;
     Go.sort_Slice_perm := @insertionSort_perm;
     Go.sort_Slice_sorted := fun A less l Hswo => insertionSort_sorted less Hswo l |}.

Lemma shellInsertionSort_perm (A : Type) (less : A -> A -> bool) (l : list A) :
  Permutation (Go.shellInsertionSort less l) l.
Proof.
  unfold Go.shellInsertionSort. rewrite insertionSort_perm. apply shellPass6_perm.
Qed.

Lemma shellInsertionSort_sorted (A : Type) (less : A -> A -> bool) (l : list A) :
  Go.StrictWeakOrder less ->
  StronglySorted (fun x y => less y x = false) (Go.shellInsertionSort less l).
Proof. intros Hswo. apply insertionSort_sorted, Hswo. Qed.

(** The pass over elements six apart followed by the insertion sort:
    what [sort.Slice] ran on slices of at most 12 elements up to
    Go 1.18, here on slices of any length. *)
Definition shellInsertionSorter : Go.SliceSorter :=
  {| Go.sort_Slice := @Go.shellInsertionSort;
     Go.sort_Slice_perm := shellInsertionSort_perm;
     Go.sort_Slice_sorted := shellInsertionSort_sorted |}.

(** ** The hierarchical deletion orderer *)

Section Orderer.
Import Go DeleteFolder.

Lemma depthLess_false (x y : MailboxInfo) : depthLess y x = false <-> depth y <= depth x.
Proof. unfold depthLess. rewrite Nat.ltb_ge. reflexivity. Qed.

Lemma depthLess_swo : StrictWeakOrder depthLess.
Proof.
  split; unfold depthLess.
  - intros x. apply Nat.ltb_irrefl.
  - intros x y z. rewrite !Nat.ltb_lt. lia.
  - intros x y z. rewrite !Nat.ltb_ge. lia.
Qed.

Lemma CountByte_app (s t : string) (c : ascii) :
  CountByte (s ++ t)%string c = CountByte s c + CountByte t c.
Proof. induction s as [|a s IH]; simpl; [reflexivity|]. rewrite IH. lia. Qed.

Lemma descendant_deeper (d a : string) :
  isDescendant d a -> CountByte a "/" < CountByte d "/".
Proof. intros [rest ->]. rewrite CountByte_app. simpl. lia. Qed.

Lemma StronglySorted_lookup {A : Type} (R : A -> A -> Prop) (l : list A) :
  StronglySorted R l ->
  forall i j x y, i < j -> l !! i = Some x -> l !! j = Some y -> R x y.
Proof.
  induction 1 as [|a l Hs IH Ha]; intros i j x y Hij Hi Hj.
  - rewrite lookup_nil in Hi. discriminate.
  - destruct j as [|j]; [lia|]. simpl in Hj.
    destruct i as [|i]; simpl in Hi.
    + injection Hi as <-. rewrite Forall_forall in Ha.
      apply Ha. eapply list_elem_of_lookup_2, Hj.
    + eapply IH; [|exact Hi|exact Hj]. lia.
Qed.

Lemma filter_perm {A : Type} (f : A -> bool) (l l' : list A) :
  Permutation l l' -> Permutation (List.filter f l) (List.filter f l').
Proof.
  induction 1 as [|x l l' _ IH|x y l|l l' l'' _ IH1 _ IH2]; simpl.
  - reflexivity.
  - destruct (f x); [now constructor | exact IH].
  - destruct (f x), (f y); try reflexivity. apply Permutation_swap.
  - now rewrite IH1.
Qed.

Context `{S : SliceSorter}.

Lemma sortMailboxesByDepth_perm (mailboxes : list MailboxInfo) :
  Permutation (sortMailboxesByDepth mailboxes) mailboxes.
Proof. unfold sortMailboxesByDepth. simpl. apply sort_Slice_perm. Qed.

Lemma sortMailboxesByDepth_sorted (mailboxes : list MailboxInfo) :
  StronglySorted (fun x y => depth y <= depth x) (sortMailboxesByDepth mailboxes).
Proof.
  unfold sortMailboxesByDepth. simpl.
  pose proof (sort_Slice_sorted _ depthLess mailboxes depthLess_swo) as Hs.
  induction Hs as [|a l Hs IH Ha]; constructor; [exact IH|].
  eapply Forall_impl; [exact Ha|]. intros y Hy. now apply depthLess_false.
Qed.

(** C2, as the code has it.  Whatever [sort.Slice] does within its
    contract, the output of [sortMailboxesByDepth] is ordered by the
    number of "/" in the name, largest first; so a mailbox and a
    descendant of it in the hierarchy delimited by "/" that are both in
    the input are both in the output, and every occurrence of the
    descendant comes before every occurrence of the ancestor.  The
    input INBOX, INBOX/Work, INBOX/Work/2024 comes out as
    INBOX/Work/2024, INBOX/Work, INBOX. *)
Theorem sortMailboxesByDepth_descendants_first :
  (forall (mailboxes : list MailboxInfo) (i j : nat) (x y : MailboxInfo),
      i < j ->
      sortMailboxesByDepth mailboxes !! i = Some x ->
      sortMailboxesByDepth mailboxes !! j = Some y ->
      depth y <= depth x) /\
  (forall (mailboxes : list MailboxInfo) (a d : MailboxInfo),
      In a mailboxes -> In d mailboxes -> isDescendant (Name d) (Name a) ->
      (exists i j, sortMailboxesByDepth mailboxes !! j = Some d /\
                   sortMailboxesByDepth mailboxes !! i = Some a) /\
      (forall i j,
          sortMailboxesByDepth mailboxes !! i = Some a ->
          sortMailboxesByDepth mailboxes !! j = Some d ->
          j < i)) /\
  (forall (n0 n1 n2 : Z) (l0 l1 l2 : list MessageInfo),
      sortMailboxesByDepth
        [ {| Name := "INBOX"; Messages := n0; MessagesList := l0 |};
          {| Name := "INBOX/Work"; Messages := n1; MessagesList := l1 |};
          {| Name := "INBOX/Work/2024"; Messages := n2; MessagesList := l2 |} ]
      = [ {| Name := "INBOX/Work/2024"; Messages := n2; MessagesList := l2 |};
          {| Name := "INBOX/Work"; Messages := n1; MessagesList := l1 |};
          {| Name := "INBOX"; Messages := n0; MessagesList := l0 |} ]).
Proof.
  split; [|split].
  - intros mailboxes i j x y Hij Hi Hj.
    exact (StronglySorted_lookup _ _ (sortMailboxesByDepth_sorted mailboxes)
             i j x y Hij Hi Hj).
  - intros mailboxes a d Ha Hd Hdesc.
    apply descendant_deeper in Hdesc. fold (depth a) (depth d) in Hdesc.
    split.
    + assert (Hin : forall m, In m mailboxes ->
                      exists k, sortMailboxesByDepth mailboxes !! k = Some m).
      { intros m Hm. apply list_elem_of_lookup_1, list_elem_of_In.
        eapply Permutation_in; [symmetry; apply sortMailboxesByDepth_perm|exact Hm]. }
      destruct (Hin a Ha) as [i Hi], (Hin d Hd) as [j Hj]. now exists i, j.
    + intros i j Hi Hj.
      destruct (Nat.lt_trichotomy j i) as [Hlt|[Heq|Hgt]]; [exact Hlt| |].
      * subst j. rewrite Hi in Hj. injection Hj as ->. lia.
      * pose proof (StronglySorted_lookup _ _ (sortMailboxesByDepth_sorted mailboxes)
                      i j a d Hgt Hi Hj) as Hle. simpl in Hle. lia.
  - intros n0 n1 n2 l0 l1 l2.
    apply (StronglySorted_unique_strong (fun x y => depth y <= depth x)).
    + intros x1 x2 H1 H2 H12 H21.
      rewrite sortMailboxesByDepth_perm in H1.
      apply list_elem_of_In in H1, H2. simpl in H1, H2.
      destruct H1 as [<-|[<-|[<-|[]]]], H2 as [<-|[<-|[<-|[]]]];
        try reflexivity; vm_compute in H12, H21; lia.
    + apply sortMailboxesByDepth_sorted.
    + repeat constructor; vm_compute; lia.
    + rewrite sortMailboxesByDepth_perm.
      apply Permutation_rev with (l := [_; _; _]).
Qed.

(** C9, as the code has it.  [sortMailboxesByDepth] orders by depth,
    largest first, and the mailboxes of any one depth in the output
    are those of that depth in the input, each as often as there; in
    which order they come is up to [sort.Slice]. *)
Theorem sortMailboxesByDepth_depth_classes (mailboxes : list MailboxInfo) :
  (forall (i j : nat) (x y : MailboxInfo),
      i < j ->
      sortMailboxesByDepth mailboxes !! i = Some x ->
      sortMailboxesByDepth mailboxes !! j = Some y ->
      depth y <= depth x) /\
  (forall d : nat,
      Permutation (sameDepth d (sortMailboxesByDepth mailboxes)) (sameDepth d mailboxes)).
Proof.
  split.
  - intros i j x y Hij Hi Hj.
    exact (StronglySorted_lookup _ _ (sortMailboxesByDepth_sorted mailboxes)
             i j x y Hij Hi Hj).
  - intros d. apply filter_perm, sortMailboxesByDepth_perm.
Qed.

Lemma slice_read_fresh (h : gmap nat (list MailboxInfo)) (elems : list MailboxInfo) :
  slice_read (<[fresh (dom h) := elems]> h)
    {| s_arr := fresh (dom h); s_off := 0; s_len := length elems |} = elems.
Proof.
  unfold slice_read. simpl. rewrite lookup_insert_eq. simpl.
  rewrite drop_0. apply firstn_all.
Qed.

(** C10.  [sortMailboxesByDepth] returns a slice on a backing array
    that did not exist before; that slice holds a rearrangement of the
    elements of the input slice (the one the list-level function
    computes); every array that existed before, and so what the input
    slice shows, is as it was. *)
Theorem sortMailboxesByDepth_mem_permutes_fresh_copy
    (h : gmap nat (list MailboxInfo)) (mailboxes : slice) :
  Permutation (slice_read (snd (sortMailboxesByDepth_mem h mailboxes))
                          (fst (sortMailboxesByDepth_mem h mailboxes)))
              (slice_read h mailboxes) /\
  slice_read (snd (sortMailboxesByDepth_mem h mailboxes))
             (fst (sortMailboxesByDepth_mem h mailboxes))
    = sortMailboxesByDepth (slice_read h mailboxes) /\
  (s_arr (fst (sortMailboxesByDepth_mem h mailboxes)) ∉ dom h) /\
  (forall a : nat,
      a ∈ dom h -> snd (sortMailboxesByDepth_mem h mailboxes) !! a = h !! a) /\
  slice_read (snd (sortMailboxesByDepth_mem h mailboxes)) mailboxes
    = slice_read h mailboxes.
Proof.
  unfold sortMailboxesByDepth_mem. simpl.
  set (elems := slice_read h mailboxes).
  set (a := fresh (dom h)).
  assert (Hfresh : a ∉ dom h) by apply is_fresh.
  assert (Hout : slice_read
                   (<[a := sort_Slice depthLess
                             (slice_read (<[a := elems]> h)
                                {| s_arr := a; s_off := 0; s_len := length elems |})]>
                      (<[a := elems]> h))
                   {| s_arr := a; s_off := 0; s_len := length elems |}
                 = sortMailboxesByDepth elems).
  { subst a. rewrite slice_read_fresh. unfold sortMailboxesByDepth. simpl.
    unfold slice_read. simpl. rewrite lookup_insert_eq. simpl. rewrite drop_0.
    rewrite <- (Permutation_length (sort_Slice_perm _ depthLess elems)).
    apply firstn_all. }
  split; [|split; [|split; [|split]]].
  - rewrite Hout. apply sortMailboxesByDepth_perm.
  - exact Hout.
  - exact Hfresh.
  - intros b Hb. rewrite !lookup_insert_ne; [reflexivity| |]; intros ->; contradiction.
  - unfold slice_read at 1. destruct (decide (s_arr mailboxes = a)) as [Ha|Ha].
    + rewrite Ha, lookup_insert_eq. simpl.
      assert (Hnone : h !! s_arr mailboxes = None).
      { apply not_elem_of_dom. now rewrite Ha. }
      assert (Hnil : elems = []).
      { subst elems. unfold slice_read. rewrite Hnone. simpl.
        now rewrite drop_nil, take_nil. }
      subst a. rewrite slice_read_fresh, Hnil.
      pose proof (sort_Slice_perm _ depthLess (@nil MailboxInfo)) as Hp.
      apply Permutation_nil_r in Hp. rewrite Hp.
      now rewrite drop_nil, take_nil.
    + rewrite !lookup_insert_ne by congruence. reflexivity.
Qed.
End Orderer.

Lemma sortMailboxesByDepth_descendants_first_witness :
  (exists i j,
      @DeleteFolder.sortMailboxesByDepth insertionSorter DeleteFolder.inboxTree !! j
      = Some (DeleteFolder.mailboxNamed "INBOX/Work/2024") /\
      @DeleteFolder.sortMailboxesByDepth insertionSorter DeleteFolder.inboxTree !! i
      = Some (DeleteFolder.mailboxNamed "INBOX")) /\
  (forall i j,
      @DeleteFolder.sortMailboxesByDepth insertionSorter DeleteFolder.inboxTree !! i
      = Some (DeleteFolder.mailboxNamed "INBOX") ->
      @DeleteFolder.sortMailboxesByDepth insertionSorter DeleteFolder.inboxTree !! j
      = Some (DeleteFolder.mailboxNamed "INBOX/Work/2024") ->
      j < i).
Proof.
  apply (proj1 (proj2 (@sortMailboxesByDepth_descendants_first insertionSorter))
           DeleteFolder.inboxTree (DeleteFolder.mailboxNamed "INBOX")
           (DeleteFolder.mailboxNamed "INBOX/Work/2024")).
  - simpl. auto.
  - simpl. auto.
  - exists "Work/2024". reflexivity.
Defined.

(** The insertion sort, which is all that [sort.Slice] runs on slices of
    at most 12 elements since Go 1.19, does keep the mailboxes of one
    depth in their order. *)
Lemma sameDepth_app (d : nat) (l1 l2 : list DeleteFolder.MailboxInfo) :
  DeleteFolder.sameDepth d (l1 ++ l2)
  = DeleteFolder.sameDepth d l1 ++ DeleteFolder.sameDepth d l2.
Proof. apply List.filter_app. Qed.

Lemma bubble_keeps_depth_classes (d : nat) (x : DeleteFolder.MailboxInfo)
    (acc : list DeleteFolder.MailboxInfo) :
  DeleteFolder.sameDepth d (rev (Go.bubble DeleteFolder.depthLess x acc))
  = DeleteFolder.sameDepth d (rev acc ++ [x]).
Proof.
  unfold DeleteFolder.sameDepth.
  induction acc as [|y r IH]; cbn [Go.bubble]; [reflexivity|].
  destruct (DeleteFolder.depthLess x y) eqn:Hless; [|reflexivity].
  cbn [rev]. rewrite !List.filter_app in *. rewrite IH. cbn [List.filter].
  unfold DeleteFolder.depthLess in Hless. apply Nat.ltb_lt in Hless.
  destruct (Nat.eqb_spec (DeleteFolder.depth x) d), (Nat.eqb_spec (DeleteFolder.depth y) d);
    try lia; now rewrite <- ?app_assoc, ?app_nil_r.
Qed.

Lemma insertionSort_keeps_depth_classes (d : nat) (l : list DeleteFolder.MailboxInfo) :
  DeleteFolder.sameDepth d (@DeleteFolder.sortMailboxesByDepth insertionSorter l)
  = DeleteFolder.sameDepth d l.
Proof.
  unfold DeleteFolder.sortMailboxesByDepth. cbn [Go.sort_Slice insertionSorter app].
  unfold Go.insertionSort.
  assert (Hgen : forall acc,
             DeleteFolder.sameDepth d
               (rev (fold_left (fun acc x => Go.bubble DeleteFolder.depthLess x acc) l acc))
             = DeleteFolder.sameDepth d (rev acc ++ l)).
  { induction l as [|x l IH]; intros acc; cbn [fold_left].
    - now rewrite app_nil_r.
    - rewrite IH, !sameDepth_app, bubble_keeps_depth_classes, sameDepth_app.
      change (x :: l) with ([x] ++ l). rewrite (sameDepth_app d [x] l).
      now rewrite app_assoc. }
  apply (Hgen []).
Qed.

(** The claim C2 as the specification words it does not hold for every
    hierarchy delimiter a server may report: with "." the child
    INBOX.Work has no "/" more than its parent INBOX, and the insertion
    sort leaves the parent in front of it. *)
Lemma sortMailboxesByDepth_counts_slashes_only :
  ~ (forall (S : Go.SliceSorter) (delimiter : string)
            (mailboxes : list DeleteFolder.MailboxInfo) (a d : DeleteFolder.MailboxInfo),
        In a mailboxes -> In d mailboxes ->
        DeleteFolder.isDescendantBy delimiter (DeleteFolder.Name d) (DeleteFolder.Name a) ->
        forall i j,
          @DeleteFolder.sortMailboxesByDepth S mailboxes !! i = Some a ->
          @DeleteFolder.sortMailboxesByDepth S mailboxes !! j = Some d ->
          j < i).
Proof.
  intros Hclaim.
  assert (Hlt : 1 < 0); [|lia].
  apply (Hclaim insertionSorter "." DeleteFolder.dottedTree
           (DeleteFolder.mailboxNamed "INBOX") (DeleteFolder.mailboxNamed "INBOX.Work")).
  - simpl. auto.
  - simpl. auto.
  - exists "Work". reflexivity.
  - reflexivity.
  - reflexivity.
Qed.

(** Seven mailboxes: one at the top and six below. *)
Definition sevenMailboxes : list DeleteFolder.MailboxInfo :=
  map DeleteFolder.mailboxNamed
    ["Old"; "Old/a"; "Old/b"; "Old/c"; "Old/d"; "Old/e"; "Old/f"].

(** The claim C9 as the specification words it does not hold: the
    contract of [sort.Slice] leaves room for an implementation (the one
    of Go up to 1.18, on a slice this short) that returns Old/f before
    Old/a although Old/a comes first in the input and both lie at
    depth 1. *)
Lemma sortMailboxesByDepth_not_stable :
  ~ (forall (S : Go.SliceSorter) (mailboxes : list DeleteFolder.MailboxInfo) (d : nat),
        DeleteFolder.sameDepth d (@DeleteFolder.sortMailboxesByDepth S mailboxes)
        = DeleteFolder.sameDepth d mailboxes).
Proof.
  intros Hstable.
  specialize (Hstable shellInsertionSorter sevenMailboxes 1).
  vm_compute in Hstable. discriminate Hstable.
Qed.

Lemma sortMailboxesByDepth_depth_classes_witness :
  DeleteFolder.depth (DeleteFolder.mailboxNamed "Old")
  <= DeleteFolder.depth (DeleteFolder.mailboxNamed "Old/f").
Proof.
  apply (proj1 (@sortMailboxesByDepth_depth_classes shellInsertionSorter sevenMailboxes)
           0 6); [lia | reflexivity | reflexivity].
Defined.

(** A heap with one array of three mailboxes and a slice on the last
    two of them. *)
Lemma sortMailboxesByDepth_mem_permutes_fresh_copy_witness :
  snd (@DeleteFolder.sortMailboxesByDepth_mem insertionSorter
         {[ 0 := DeleteFolder.inboxTree ]}
         {| DeleteFolder.s_arr := 0; DeleteFolder.s_off := 1; DeleteFolder.s_len := 2 |})
    !! 0
  = ({[ 0 := DeleteFolder.inboxTree ]} : gmap nat (list DeleteFolder.MailboxInfo)) !! 0.
Proof.
  apply (proj1 (proj2 (proj2 (proj2
           (@sortMailboxesByDepth_mem_permutes_fresh_copy insertionSorter
              {[ 0 := DeleteFolder.inboxTree ]}
              {| DeleteFolder.s_arr := 0; DeleteFolder.s_off := 1;
                 DeleteFolder.s_len := 2 |}))))).
  rewrite dom_singleton_L. apply elem_of_singleton. reflexivity.
Defined.

(** ** The retry loop of [deleteMailbox] *)

Section Retry.
Import Go DeleteFolder.
Variables (srv : Server) (im : IMAPManager) (name : string).

Lemma onStepError_Retry (wrap err : string) (h h' : list Call) :
  onStepError wrap err h = (Retry, h') <->
  Contains err "Not logged in" = true /\ h' = h ++ [CSleep 2].
Proof.
  unfold onStepError. destruct (Contains err "Not logged in"); split.
  - intros [= <-]. auto.
  - intros [_ ->]. reflexivity.
  - intros [=].
  - intros [[=] _].
Qed.

Lemma onStepError_Abandon (wrap err e : string) (h h' : list Call) :
  onStepError wrap err h = (Abandon e, h') <->
  Contains err "Not logged in" = false /\ e = (wrap ++ err)%string /\ h' = h.
Proof.
  unfold onStepError. destruct (Contains err "Not logged in"); split.
  - intros [=].
  - intros [[=] _].
  - intros [= <- <-]. auto.
  - intros (_ & -> & ->). reflexivity.
Qed.

Lemma deleteSteps_starts_with_select (h : list Call) (r : Attempt) (h' : list Call) :
  deleteSteps srv name h = (r, h') ->
  exists rest, h' = h ++ CSelect name false :: rest.
Proof.
  unfold deleteSteps, onStepError.
  repeat match goal with
         | |- context [match ?x with _ => _ end] => destruct x
         end;
    intros [= <- <-]; rewrite <- ?app_assoc; simpl; eauto.
Qed.

(** A failed step is classified by the text of its error. *)
Lemma deleteSteps_failure (h : list Call) (wrap err : string) (hf : list Call) :
  StepFailure srv name h wrap err hf ->
  deleteSteps srv name h = onStepError wrap err hf.
Proof.
  unfold deleteSteps.
  destruct 1 as [err He|n err Hs Hn He|n err Hs Hn Hst He|n err Hs Hn Hst Hex He
                |n err Hs Hn He]; rewrite ?Hs.
  - now rewrite He.
  - apply Z.ltb_lt in Hn. now rewrite Hn, He.
  - apply Z.ltb_lt in Hn. now rewrite Hn, Hst, He.
  - apply Z.ltb_lt in Hn. now rewrite Hn, Hst, Hex, He.
  - apply Z.ltb_ge in Hn. now rewrite Hn, He.
Qed.

Lemma deleteSteps_not_Done (h : list Call) (r : Attempt) (h' : list Call) :
  deleteSteps srv name h = (r, h') -> r <> Done ->
  exists wrap err hf,
    StepFailure srv name h wrap err hf /\ onStepError wrap err hf = (r, h').
Proof.
  unfold deleteSteps. intros Hrun Hr.
  destruct (srv_select srv h name false) as [n|err] eqn:Hs.
  2:{ do 3 eexists. split; [apply FailSelect, Hs|exact Hrun]. }
  destruct (0 <? n)%Z eqn:Hn.
  - apply Z.ltb_lt in Hn.
    destruct (srv_store srv _ 1 n) as [err|] eqn:Hst.
    { do 3 eexists. split; [eapply FailStore; eauto|exact Hrun]. }
    destruct (srv_expunge srv _) as [err|] eqn:Hex.
    { do 3 eexists. split; [eapply FailExpunge; eauto|exact Hrun]. }
    destruct (srv_delete srv _ name) as [err|] eqn:Hd.
    { do 3 eexists. split; [eapply FailDelete; eauto|exact Hrun]. }
    injection Hrun as <- _. contradiction.
  - apply Z.ltb_ge in Hn.
    destruct (srv_delete srv _ name) as [err|] eqn:Hd.
    { do 3 eexists. split; [eapply FailDeleteEmpty; eauto|exact Hrun]. }
    injection Hrun as <- _. contradiction.
Qed.

Definition stepsThen (k : nat) (hk : list Call) : option string * list Call :=
  match deleteSteps srv name hk with
  | (Done, h') => (None, h')
  | (Retry, h') => deleteMailbox_from (seq (S k) (3 - S k)) srv im name h'
  | (Abandon err, h') => (Some err, h')
  end.

Lemma deleteMailbox_at_attempt (h0 : list Call) (k : nat) (hk : list Call) :
  StartsAttempt srv im name h0 k hk -> k < 3 ->
  deleteMailbox srv im name h0 = stepsThen k hk.
Proof.
  induction 1 as [|k hk h1 h2 _ IH Hsteps Hrec
                  |k hk h1 err h2 h3 _ IH Hsteps Hrec1 Hrec2]; intros Hk.
  - reflexivity.
  - rewrite IH by lia. unfold stepsThen at 1. rewrite Hsteps.
    destruct k as [|[|k]]; [| |lia]; simpl; now rewrite Hrec.
  - rewrite IH by lia. unfold stepsThen at 1. rewrite Hsteps.
    destruct k as [|k]; [|lia]. simpl. now rewrite Hrec1, Hrec2.
Qed.

(** C3.  The steps of every attempt begin with the select.  A step
  that fails with an error whose text does not hold "Not logged in"
  ends [deleteMailbox] there and then, with that error and no further
  call.  A step that fails with "Not logged in" is followed by a
  pause and, when the reconnect works, by the whole sequence again;
  no attempt starts for any other reason.  An attempt that goes
  through, be it the third, makes [deleteMailbox] return nil.  A
  third attempt that fails with "Not logged in", or attempts used up
  by reconnects that fail, end it with the error of the exhausted
  budget. *)
Theorem deleteMailbox_retry_policy (h0 : list Call) :
(forall k hk r h',
    StartsAttempt srv im name h0 k hk ->
    deleteSteps srv name hk = (r, h') ->
    exists rest, h' = hk ++ CSelect name false :: rest) /\
(forall k hk wrap err hf,
    StartsAttempt srv im name h0 k hk -> k < 3 ->
    StepFailure srv name hk wrap err hf ->
    Contains err "Not logged in" = false ->
    deleteMailbox srv im name h0 = (Some (wrap ++ err)%string, hf)) /\
(forall k hk wrap err hf h2,
    StartsAttempt srv im name h0 k hk ->
    StepFailure srv name hk wrap err hf ->
    Contains err "Not logged in" = true ->
    reconnect srv im (hf ++ [CSleep 2]) = (None, h2) ->
    StartsAttempt srv im name h0 (S k) h2) /\
(forall k hk,
    StartsAttempt srv im name h0 k hk -> 0 < k ->
    exists k' hk' wrap err hf,
      k' < k /\ StartsAttempt srv im name h0 k' hk' /\
      StepFailure srv name hk' wrap err hf /\
      Contains err "Not logged in" = true) /\
(forall k hk h',
    StartsAttempt srv im name h0 k hk -> k < 3 ->
    deleteSteps srv name hk = (Done, h') ->
    deleteMailbox srv im name h0 = (None, h')) /\
(forall hk wrap err hf,
    StartsAttempt srv im name h0 2 hk ->
    StepFailure srv name hk wrap err hf ->
    Contains err "Not logged in" = true ->
    deleteMailbox srv im name h0
    = (Some "failed to delete mailbox after 3 attempts", hf ++ [CSleep 2])) /\
(forall k hk wrap err hf e1 h1 e2 h2,
    StartsAttempt srv im name h0 k hk -> k < 2 ->
    StepFailure srv name hk wrap err hf ->
    Contains err "Not logged in" = true ->
    reconnect srv im (hf ++ [CSleep 2]) = (Some e1, h1) ->
    (k = 0 -> reconnect srv im (h1 ++ [CSleep 2]) = (Some e2, h2)) ->
    deleteMailbox srv im name h0
    = (Some "failed to delete mailbox after 3 attempts",
       if Nat.eqb k 0 then h2 ++ [CSleep 2] else h1 ++ [CSleep 2])).
Proof.
repeat split.
- intros k hk r h' _ Hsteps. eapply deleteSteps_starts_with_select, Hsteps.
- intros k hk wrap err hf Hk Hlt Hfail Hclass.
  rewrite (deleteMailbox_at_attempt h0 k hk Hk Hlt). unfold stepsThen.
  rewrite (deleteSteps_failure hk wrap err hf Hfail).
  unfold onStepError. now rewrite Hclass.
- intros k hk wrap err hf h2 Hk Hfail Hclass Hrec.
  eapply StartsAfterRetry; [exact Hk| |exact Hrec].
  rewrite (deleteSteps_failure hk wrap err hf Hfail).
  unfold onStepError. now rewrite Hclass.
- intros k hk Hk Hpos.
  assert (Hprev : exists k' hk' h1,
             k' < k /\ StartsAttempt srv im name h0 k' hk' /\
             deleteSteps srv name hk' = (Retry, h1)).
  { destruct Hk as [|k hk h1 h2 Hk Hsteps _|k hk h1 e h2 h3 Hk Hsteps _ _].
    - lia.
    - exists k, hk, h1. auto.
    - exists k, hk, h1. auto. }
  destruct Hprev as (k' & hk' & h1 & Hlt & Hk' & Hsteps).
  destruct (deleteSteps_not_Done hk' Retry h1 Hsteps) as (wrap & err & hf & Hfail & Hon);
    [discriminate|].
  apply onStepError_Retry in Hon as [Hclass _].
  exists k', hk', wrap, err, hf. auto.
- intros k hk h' Hk Hlt Hsteps.
  rewrite (deleteMailbox_at_attempt h0 k hk Hk Hlt). unfold stepsThen.
  now rewrite Hsteps.
- intros hk wrap err hf Hk Hfail Hclass.
  rewrite (deleteMailbox_at_attempt h0 2 hk Hk) by lia. unfold stepsThen.
  rewrite (deleteSteps_failure hk wrap err hf Hfail).
  unfold onStepError. now rewrite Hclass.
- intros k hk wrap err hf e1 h1 e2 h2 Hk Hlt Hfail Hclass Hrec1 Hrec2.
  rewrite (deleteMailbox_at_attempt h0 k hk Hk) by lia. unfold stepsThen.
  rewrite (deleteSteps_failure hk wrap err hf Hfail).
  unfold onStepError. rewrite Hclass.
  destruct k as [|[|k]]; [| |lia]; simpl; rewrite Hrec1.
  + now rewrite (Hrec2 eq_refl).
  + reflexivity.
Qed.
End Retry.

(** The scenario of the specification: two attempts fail on a session
    that is not logged in, the third goes through. *)
Lemma deleteMailbox_retry_policy_witness :
  DeleteFolder.deleteMailbox DeleteFolder.staleServer DeleteFolder.someManager "Old" []
  = (None,
     [ DeleteFolder.CSelect "Old" false; DeleteFolder.CSleep 2;
       DeleteFolder.CLogout; DeleteFolder.CDialTLS "imap.example.com:993";
       DeleteFolder.CLogin "me" "secret";
       DeleteFolder.CSelect "Old" false; DeleteFolder.CStoreDeleted 1 3;
       DeleteFolder.CExpunge; DeleteFolder.CSleep 2;
       DeleteFolder.CLogout; DeleteFolder.CDialTLS "imap.example.com:993";
       DeleteFolder.CLogin "me" "secret";
       DeleteFolder.CSelect "Old" false; DeleteFolder.CStoreDeleted 1 3;
       DeleteFolder.CExpunge; DeleteFolder.CDelete "Old" ]).
Proof.
  eapply (proj1 (proj2 (proj2 (proj2 (proj2
            (deleteMailbox_retry_policy DeleteFolder.staleServer
               DeleteFolder.someManager "Old" [])))))) with (k := 2).
  - eapply DeleteFolder.StartsAfterRetry;
      [eapply DeleteFolder.StartsAfterRetry;
         [apply DeleteFolder.StartsFirst | reflexivity | reflexivity]
      | reflexivity | reflexivity].
  - lia.
  - reflexivity.
Defined.

(** ** The canonical fingerprint *)

Section Fingerprint.
Import Go MoveDuplicates.

Lemma append_assoc (s t u : string) : ((s ++ t) ++ u)%string = (s ++ t ++ u)%string.
Proof. induction s as [|c s IH]; [reflexivity|]. exact (f_equal (String c) IH). Qed.

Lemma append_nil_r (s : string) : (s ++ "")%string = s.
Proof. induction s as [|c s IH]; [reflexivity|]. exact (f_equal (String c) IH). Qed.

Lemma writePart_contribution (p : Part) (h : string) :
  writePart p h = (h ++ contribution selected (NextOk p))%string.
Proof.
  unfold writePart, contribution, selected.
  destruct (HasPrefix (ContentType p) "text/plain"); simpl.
  { destruct (Body p); [reflexivity | now rewrite append_nil_r]. }
  destruct (HasPrefix (ContentType p) "text/html"); simpl.
  { destruct (Body p); [reflexivity | now rewrite append_nil_r]. }
  destruct (HasPrefix (ContentType p) "application/"); simpl.
  { destruct (Body p); [reflexivity | now rewrite append_nil_r]. }
  now rewrite append_nil_r.
Qed.

Lemma hashParts_all_ok (ps : list NextPart) (h : string) :
  Forall (fun np => exists p, np = NextOk p) ps ->
  hashParts ps h
  = Ok (h ++ fold_right String.append EmptyString (map (contribution selected) ps))%string.
Proof.
  intros Hok. revert h. induction Hok as [|np ps [p ->] _ IH]; intros h; simpl.
  - now rewrite append_nil_r.
  - rewrite IH, writePart_contribution, append_assoc. reflexivity.
Qed.

Lemma hashParts_first_error (pre : list NextPart) (err : string) (post : list NextPart)
    (h : string) :
  Forall (fun np => exists p, np = NextOk p) pre ->
  hashParts (pre ++ NextErr err :: post) h = Err err.
Proof.
  intros Hok. revert h. induction Hok as [|np ps [p ->] _ IH]; intros h; simpl.
  - reflexivity.
  - apply IH.
Qed.

Lemma hashInput_headers (msg : MailReader) :
  hashInput msg = hashParts (NextParts msg) (HeaderSubject msg ++ HeaderDate msg)%string.
Proof.
  unfold hashInput.
  destruct (String.eqb_spec (HeaderSubject msg) "") as [->|_];
    destruct (String.eqb_spec (HeaderDate msg) "") as [->|_]; simpl;
    rewrite ?append_nil_r; reflexivity.
Qed.

Context `{H256 : Sha256}.

(** C6, as the code has it.  When every part can be obtained, the
    fingerprint is the hex form of the SHA-256 digest of the Subject
    value, the Date value and, in part order, the content of every part
    whose Content-Type value begins with text/plain, text/html or
    application/ and whose content could be read; a part of another
    type or with unreadable content adds nothing and does not make the
    fingerprint fail.  When a part cannot be obtained the fingerprint
    fails with that error. *)
Theorem computeEmailHash_canonical (msg : MailReader) :
  (Forall (fun np => exists p, np = NextOk p) (NextParts msg) ->
   computeEmailHash msg = Ok (EncodeToString (Sum256 (canonicalInput selected msg)))) /\
  (forall pre err post,
      NextParts msg = pre ++ NextErr err :: post ->
      Forall (fun np => exists p, np = NextOk p) pre ->
      computeEmailHash msg = Err err).
Proof.
  unfold computeEmailHash. rewrite hashInput_headers. split.
  - intros Hok. rewrite (hashParts_all_ok _ _ Hok).
    unfold canonicalInput. now rewrite append_assoc.
  - intros pre err post -> Hok. now rewrite hashParts_first_error.
Qed.
End Fingerprint.

Lemma computeEmailHash_canonical_witness :
  @MoveDuplicates.computeEmailHash Go.plainDigest MoveDuplicates.damagedMessage
  = Go.Ok (Go.EncodeToString
             (@Go.Sum256 Go.plainDigest
                "InvoiceMon, 01 Jan 2024 10:00:00 +0000Dear customer%PDF")).
Proof.
  apply (proj1 (@computeEmailHash_canonical Go.plainDigest MoveDuplicates.damagedMessage)).
  repeat constructor; eexists; reflexivity.
Defined.

(** The claim C6 as the specification words it does not hold: a part
    declared as text/plain-markdown is none of text/plain, text/html or
    application/..., and yet its content is hashed. *)
Lemma computeEmailHash_hashes_longer_type_names :
  ~ (forall msg : MoveDuplicates.MailReader,
        Forall (fun np => exists p, np = MoveDuplicates.NextOk p)
               (MoveDuplicates.NextParts msg) ->
        MoveDuplicates.hashInput msg
        = Go.Ok (MoveDuplicates.canonicalInput MoveDuplicates.declaredSelected msg)).
Proof.
  intros Hclaim.
  specialize (Hclaim MoveDuplicates.richTextMessage).
  vm_compute in Hclaim.
  assert (Hok : Forall (fun np => exists p, np = MoveDuplicates.NextOk p)
                  (MoveDuplicates.NextParts MoveDuplicates.richTextMessage)).
  { repeat constructor. eexists. reflexivity. }
  specialize (Hclaim Hok). discriminate Hclaim.
Qed.

(** ** The duplicate grouper *)

(** A [range] that visits the entries in the order of [map_to_list]. *)
Definition listedRange : Go.MapRange :=
  {| Go.range_map := fun V m => map_to_list m;
     Go.range_map_perm := fun V m => Permutation_refl (map_to_list m) |}.

Section Grouping.
Context {A G : Type} (key : A -> string) (keep : A -> bool) (mk : list A -> string -> G).

Definition addKept (m : gmap string (list A)) (e : A) : gmap string (list A) :=
  if keep e then <[key e := default [] (m !! key e) ++ [e]]> m else m.

Definition emitKept (groups : list G) (entry : string * list A) : list G :=
  let (hash, duplicates) := entry in
  if (1 <? length duplicates)%nat then groups ++ [mk duplicates hash] else groups.

Lemma fold_addKept_lookup (l : list A) (m : gmap string (list A)) (h : string) :
  fold_left addKept l m !! h =
  match List.filter (fun e => keep e && String.eqb (key e) h) l with
  | [] => m !! h
  | extra => Some (default [] (m !! h) ++ extra)
  end.
Proof.
  revert m. induction l as [|e l IH]; intros m; simpl; [reflexivity|].
  rewrite IH. unfold addKept.
  destruct (keep e) eqn:Hkeep; simpl.
  - destruct (String.eqb_spec (key e) h) as [->|Hne].
    + rewrite lookup_insert_eq. simpl.
      destruct (List.filter _ l); simpl; [reflexivity|].
      now rewrite <- app_assoc.
    + now rewrite lookup_insert_ne.
  - reflexivity.
Qed.

Lemma fold_emitKept (entries : list (string * list A)) (acc : list G) :
  fold_left emitKept entries acc =
  acc ++ map (fun entry => mk (snd entry) (fst entry))
           (List.filter (fun entry => (1 <? length (snd entry))%nat) entries).
Proof.
  revert acc. induction entries as [|[h d] entries IH]; intros acc; simpl.
  - now rewrite app_nil_r.
  - rewrite IH. destruct (1 <? length d)%nat; simpl; [|reflexivity].
    now rewrite <- app_assoc.
Qed.

Lemma NoDup_map_filter {B C : Type} (f : B -> C) (p : B -> bool) (l : list B) :
  NoDup (map f l) -> NoDup (map f (List.filter p l)).
Proof.
  induction l as [|x l IH]; simpl; intros Hnd; [constructor|].
  apply NoDup_cons in Hnd as [Hx Hnd].
  destruct (p x); simpl; [|auto].
  apply NoDup_cons. split; [|auto].
  intros Hin. apply Hx. apply list_elem_of_In in Hin. apply list_elem_of_In.
  apply in_map_iff in Hin as (y & <- & Hy). apply in_map.
  now apply filter_In in Hy.
Qed.

Context `{R : Go.MapRange}.

Lemma emitted_groups (m : gmap string (list A)) (g : G) :
  In g (fold_left emitKept (Go.range_map m) []) <->
  exists h d, m !! h = Some d /\ 1 < length d /\ g = mk d h.
Proof.
  rewrite fold_emitKept. simpl. rewrite in_map_iff. split.
  - intros ([h d] & <- & Hin). apply filter_In in Hin as [Hin Hlen].
    exists h, d. simpl in *. split; [|split; [now apply Nat.ltb_lt|reflexivity]].
    apply elem_of_map_to_list. rewrite <- (Go.range_map_perm _ m).
    now apply list_elem_of_In.
  - intros (h & d & Hm & Hlen & ->). exists (h, d). split; [reflexivity|].
    apply filter_In. split; [|now apply Nat.ltb_lt].
    apply list_elem_of_In. rewrite (Go.range_map_perm _ m).
    now apply elem_of_map_to_list.
Qed.

Lemma emitted_hashes_NoDup (m : gmap string (list A)) (hashOf : G -> string) :
  (forall d h, hashOf (mk d h) = h) ->
  NoDup (map hashOf (fold_left emitKept (Go.range_map m) [])).
Proof.
  intros Hmk. rewrite fold_emitKept. simpl. rewrite map_map.
  rewrite (map_ext _ fst) by (intros [h d]; apply Hmk).
  apply NoDup_map_filter.
  rewrite (Permutation_map fst (Go.range_map_perm _ m)).
  exact (NoDup_fst_map_to_list m).
Qed.
End Grouping.

Section Grouper.
Import Go.
Context `{R : MapRange}.

Lemma move_buckets_lookup (emails : list MoveDuplicates.EmailInfo) (h : string) :
  MoveDuplicates.buckets emails !! h =
  match MoveDuplicates.bucketOf h emails with [] => None | b => Some b end.
Proof.
  unfold MoveDuplicates.buckets.
  change (fold_left MoveDuplicates.addToBucket emails ∅)
    with (fold_left (addKept MoveDuplicates.Hash (fun _ => true)) emails ∅).
  rewrite fold_addKept_lookup, lookup_empty. reflexivity.
Qed.

Lemma delete_buckets_lookup (emails : list DeleteDuplicates.EmailInfo) (h : string) :
  DeleteDuplicates.buckets emails !! h =
  if String.eqb h "" then None
  else match DeleteDuplicates.bucketOf h emails with [] => None | b => Some b end.
Proof.
  unfold DeleteDuplicates.buckets.
  change (fold_left DeleteDuplicates.addToBucket emails ∅)
    with (fold_left (addKept DeleteDuplicates.Hash
                       (fun e => negb (String.eqb (DeleteDuplicates.Hash e) ""))) emails ∅).
  rewrite fold_addKept_lookup, lookup_empty. simpl.
  destruct (String.eqb_spec h "") as [->|Hne].
  - rewrite (filter_ext _ (fun _ => false)); [now rewrite filter_false|].
    intros e. now destruct (String.eqb (DeleteDuplicates.Hash e) "").
  - unfold DeleteDuplicates.bucketOf.
    rewrite (filter_ext _ (fun e => String.eqb (DeleteDuplicates.Hash e) h)); [reflexivity|].
    intros e. destruct (String.eqb_spec (DeleteDuplicates.Hash e) h) as [->|_].
    + apply String.eqb_neq in Hne. now rewrite Hne.
    + apply andb_false_r.
Qed.

Lemma move_findDuplicates_In (emails : list MoveDuplicates.EmailInfo)
    (g : MoveDuplicates.DuplicateGroup) :
  In g (MoveDuplicates.findDuplicates emails) <->
  MoveDuplicates.Emails g = MoveDuplicates.bucketOf (MoveDuplicates.GroupHash g) emails /\
  1 < length (MoveDuplicates.Emails g).
Proof.
  unfold MoveDuplicates.findDuplicates.
  change MoveDuplicates.emitGroup
    with (emitKept (fun d h => {| MoveDuplicates.Emails := d; MoveDuplicates.GroupHash := h |})).
  rewrite emitted_groups. split.
  - intros (h & d & Hm & Hlen & ->). simpl. rewrite move_buckets_lookup in Hm.
    destruct (MoveDuplicates.bucketOf h emails); [discriminate|].
    injection Hm as <-. auto.
  - intros [Hb Hlen]. destruct g as [d h]. simpl in *. exists h, d.
    rewrite move_buckets_lookup, <- Hb.
    destruct d; [simpl in Hlen; lia|auto].
Qed.

Lemma delete_findDuplicates_In (emails : list DeleteDuplicates.EmailInfo)
    (g : DeleteDuplicates.DuplicateGroup) :
  In g (DeleteDuplicates.findDuplicates emails) <->
  DeleteDuplicates.GroupHash g <> "" /\
  DeleteDuplicates.Emails g
  = DeleteDuplicates.bucketOf (DeleteDuplicates.GroupHash g) emails /\
  1 < length (DeleteDuplicates.Emails g).
Proof.
  unfold DeleteDuplicates.findDuplicates.
  change DeleteDuplicates.emitGroup
    with (emitKept (fun d h => {| DeleteDuplicates.Emails := d;
                                  DeleteDuplicates.GroupHash := h |})).
  rewrite emitted_groups. split.
  - intros (h & d & Hm & Hlen & ->). simpl. rewrite delete_buckets_lookup in Hm.
    destruct (String.eqb_spec h "") as [->|Hne]; [discriminate|].
    destruct (DeleteDuplicates.bucketOf h emails); [discriminate|].
    injection Hm as <-. auto.
  - intros (Hne & Hb & Hlen). destruct g as [d h]. simpl in *. exists h, d.
    rewrite delete_buckets_lookup, <- Hb.
    apply String.eqb_neq in Hne. rewrite Hne.
    destruct d; [simpl in Hlen; lia|auto].
Qed.

Context `{H256 : Sha256}.

(** The fingerprint of a scanned record of the delete variant is the
    hex form of a digest, two characters for each of its bytes. *)
Lemma EncodeToString_length (src : string) :
  String.length (EncodeToString src) = 2 * String.length src.
Proof.
  induction src as [|c src IH]; [reflexivity|].
  cbn [EncodeToString String.length]. rewrite IH. lia.
Qed.

Lemma scanMessage_hashed (name : string) (emails : list DeleteDuplicates.EmailInfo)
    (msg : option DeleteDuplicates.Message) :
  (forall data, String.length (Sum256 data) = 32) ->
  Forall (fun e => String.length (DeleteDuplicates.Hash e) = 64) emails ->
  Forall (fun e => String.length (DeleteDuplicates.Hash e) = 64)
    (DeleteDuplicates.scanMessage name emails msg).
Proof.
  intros Hdigest Hall. unfold DeleteDuplicates.scanMessage.
  destruct msg as [msg|]; [|exact Hall].
  destruct (_ =? _)%nat; [exact Hall|].
  apply Forall_app. split; [exact Hall|]. repeat constructor.
  cbn [DeleteDuplicates.Hash]. now rewrite EncodeToString_length, Hdigest.
Qed.

Lemma scanBatches_hashed (fuel : nat) (srv : DeleteDuplicates.Server) (name : string)
    (messages i : Z) (emails : list DeleteDuplicates.EmailInfo)
    (h : list DeleteDuplicates.Event) (found : list DeleteDuplicates.EmailInfo)
    (h' : list DeleteDuplicates.Event) :
  (forall data, String.length (Sum256 data) = 32) ->
  DeleteDuplicates.scanBatches fuel srv name messages i emails h = Some (Ok found, h') ->
  Forall (fun e => String.length (DeleteDuplicates.Hash e) = 64) emails ->
  Forall (fun e => String.length (DeleteDuplicates.Hash e) = 64) found.
Proof.
  intros Hdigest. revert i emails h.
  induction fuel as [|fuel IH]; intros i emails h Hrun Hall; [discriminate|].
  cbn [DeleteDuplicates.scanBatches] in Hrun.
  destruct (i <=? messages)%Z; [|injection Hrun as <- <-; exact Hall].
  match type of Hrun with
  | context [DeleteDuplicates.srv_fetch srv h ?f ?t] =>
      destruct (DeleteDuplicates.srv_fetch srv h f t) as [delivered [err|]] eqn:Hfetch
  end; [discriminate|].
  eapply IH; [exact Hrun|].
  clear Hrun Hfetch. revert emails Hall.
  induction delivered as [|msg delivered IHd]; intros emails Hall; [exact Hall|].
  cbn [fold_left]. apply IHd. now apply scanMessage_hashed.
Qed.

Lemma scanAll_hashed (fuel : nat) (srv : DeleteDuplicates.Server) (mailboxes : list string)
    (allEmails : list DeleteDuplicates.EmailInfo) (h : list DeleteDuplicates.Event)
    (all : list DeleteDuplicates.EmailInfo) (h' : list DeleteDuplicates.Event) :
  (forall data, String.length (Sum256 data) = 32) ->
  DeleteDuplicates.scanAll fuel srv mailboxes allEmails h = Some (all, h') ->
  Forall (fun e => String.length (DeleteDuplicates.Hash e) = 64) allEmails ->
  Forall (fun e => String.length (DeleteDuplicates.Hash e) = 64) all.
Proof.
  intros Hdigest. revert allEmails h.
  induction mailboxes as [|mailbox rest IH]; intros allEmails h Hrun Hall.
  { injection Hrun as <- <-. exact Hall. }
  cbn [DeleteDuplicates.scanAll] in Hrun.
  destruct (DeleteDuplicates.scanMailbox fuel srv mailbox h) as [[[emails|err] h1]|] eqn:Hscan;
    [| |discriminate].
  - eapply IH; [exact Hrun|]. apply Forall_app. split; [exact Hall|].
    unfold DeleteDuplicates.scanMailbox in Hscan.
    destruct (DeleteDuplicates.srv_select srv h mailbox true) as [messages|]; [|discriminate].
    destruct (messages =? 0)%Z; [injection Hscan as <- _; constructor|].
    eapply scanBatches_hashed; [exact Hdigest|exact Hscan|constructor].
  - eapply IH; [exact Hrun|exact Hall].
Qed.

(** C4.  Both groupers put every record into the bucket of its own
    fingerprint, after the records of that fingerprint that came before
    it, and emit one group for each bucket with more than one member and
    for no other; the members of a group all carry its fingerprint, and
    no two groups share one.  The grouper of the delete variant skips a
    record whose fingerprint is empty, and the scan never makes one: the
    fingerprint of every scanned record is the hex form of a SHA-256
    digest of 32 bytes, 64 characters long.  So the property holds of
    the delete variant on every list of records without an empty
    fingerprint, which are all the lists [main] hands to it. *)
Theorem findDuplicates_groups_by_fingerprint :
  (forall emails : list MoveDuplicates.EmailInfo,
      (forall e, In e emails ->
                 exists b, MoveDuplicates.buckets emails !! MoveDuplicates.Hash e = Some b
                           /\ In e b) /\
      (forall h b, MoveDuplicates.buckets emails !! h = Some b ->
                   b = MoveDuplicates.bucketOf h emails /\
                   forall e, In e b -> MoveDuplicates.Hash e = h) /\
      (forall g, In g (MoveDuplicates.findDuplicates emails) <->
                 MoveDuplicates.Emails g
                 = MoveDuplicates.bucketOf (MoveDuplicates.GroupHash g) emails /\
                 1 < length (MoveDuplicates.Emails g)) /\
      NoDup (map MoveDuplicates.GroupHash (MoveDuplicates.findDuplicates emails))) /\
  (forall emails : list DeleteDuplicates.EmailInfo,
      (forall e, In e emails -> DeleteDuplicates.Hash e <> "") ->
      (forall e, In e emails ->
                 exists b, DeleteDuplicates.buckets emails !! DeleteDuplicates.Hash e = Some b
                           /\ In e b) /\
      (forall h b, DeleteDuplicates.buckets emails !! h = Some b ->
                   b = DeleteDuplicates.bucketOf h emails /\
                   forall e, In e b -> DeleteDuplicates.Hash e = h) /\
      (forall g, In g (DeleteDuplicates.findDuplicates emails) <->
                 DeleteDuplicates.Emails g
                 = DeleteDuplicates.bucketOf (DeleteDuplicates.GroupHash g) emails /\
                 1 < length (DeleteDuplicates.Emails g)) /\
      NoDup (map DeleteDuplicates.GroupHash (DeleteDuplicates.findDuplicates emails))) /\
  (forall fuel srv mailboxes h allEmails h',
      (forall data, String.length (Sum256 data) = 32) ->
      DeleteDuplicates.scanAll fuel srv mailboxes [] h = Some (allEmails, h') ->
      forall e, In e allEmails ->
                String.length (DeleteDuplicates.Hash e) = 64 /\ DeleteDuplicates.Hash e <> "").
Proof.
  split; [|split].
  - intros emails. split; [|split; [|split]].
    + intros e He. rewrite move_buckets_lookup.
      assert (Hin : In e (MoveDuplicates.bucketOf (MoveDuplicates.Hash e) emails)).
      { apply filter_In. split; [exact He|apply String.eqb_refl]. }
      destruct (MoveDuplicates.bucketOf _ emails) as [|x b]; [contradiction|eauto].
    + intros h b Hb. rewrite move_buckets_lookup in Hb.
      assert (b = MoveDuplicates.bucketOf h emails) as ->.
      { destruct (MoveDuplicates.bucketOf h emails); [discriminate|congruence]. }
      split; [reflexivity|]. intros e He. apply filter_In in He as [_ He].
      now apply String.eqb_eq.
    + apply move_findDuplicates_In.
    + unfold MoveDuplicates.findDuplicates.
      apply (emitted_hashes_NoDup
               (fun d h => {| MoveDuplicates.Emails := d; MoveDuplicates.GroupHash := h |})).
      reflexivity.
  - intros emails Hhashed. split; [|split; [|split]].
    + intros e He. rewrite delete_buckets_lookup.
      pose proof (Hhashed e He) as Hne. apply String.eqb_neq in Hne. rewrite Hne.
      assert (Hin : In e (DeleteDuplicates.bucketOf (DeleteDuplicates.Hash e) emails)).
      { apply filter_In. split; [exact He|apply String.eqb_refl]. }
      destruct (DeleteDuplicates.bucketOf _ emails) as [|x b]; [contradiction|eauto].
    + intros h b Hb. rewrite delete_buckets_lookup in Hb.
      destruct (String.eqb h ""); [discriminate|].
      assert (b = DeleteDuplicates.bucketOf h emails) as ->.
      { destruct (DeleteDuplicates.bucketOf h emails); [discriminate|congruence]. }
      split; [reflexivity|]. intros e He. apply filter_In in He as [_ He].
      now apply String.eqb_eq.
    + intros g. rewrite delete_findDuplicates_In. split; [tauto|].
      intros [Hb Hlen]. split; [|auto]. intros Hempty.
      destruct (DeleteDuplicates.Emails g) as [|e es] eqn:Hes; [simpl in Hlen; lia|].
      assert (He : In e (DeleteDuplicates.bucketOf (DeleteDuplicates.GroupHash g) emails))
        by (rewrite <- Hb; now left).
      apply filter_In in He as [He Hh]. apply String.eqb_eq in Hh.
      apply (Hhashed e He). congruence.
    + unfold DeleteDuplicates.findDuplicates.
      apply (emitted_hashes_NoDup
               (fun d h => {| DeleteDuplicates.Emails := d;
                              DeleteDuplicates.GroupHash := h |})).
      reflexivity.
  - intros fuel srv mailboxes h allEmails h' Hdigest Hscan e He.
    pose proof (scanAll_hashed _ _ _ _ _ _ _ Hdigest Hscan (List.Forall_nil _)) as Hall.
    rewrite Forall_forall in Hall. apply list_elem_of_In, Hall in He.
    split; [exact He|]. intros Hempty. rewrite Hempty in He. discriminate.
Qed.
End Grouper.

(** Of three records without an empty fingerprint the first and the
    last share theirs: they make the one group. *)
Lemma findDuplicates_groups_by_fingerprint_witness :
  In {| DeleteDuplicates.Emails := [DeleteDuplicates.emailOf "INBOX" 1 "aa11";
                                    DeleteDuplicates.emailOf "Archive" 7 "aa11"];
        DeleteDuplicates.GroupHash := "aa11" |}
     (@DeleteDuplicates.findDuplicates listedRange DeleteDuplicates.threeEmails).
Proof.
  refine (proj2 (proj1 (proj2 (proj2 (proj1 (proj2 (@findDuplicates_groups_by_fingerprint
                                                      listedRange Go.plainDigest))
                                        DeleteDuplicates.threeEmails _))) _) _).
  - intros e He. simpl in He. destruct He as [<-|[<-|[<-|[]]]]; discriminate.
  - split; [reflexivity|simpl; lia].
Defined.

(** ** The mailbox enumerator *)

Section Enumerator.
Import Go DeleteDuplicates.
Context `{U : Unicode}.

Lemma containsAny_forallb (nameLower : string) (excluded : list string) :
  containsAny nameLower excluded
  = negb (forallb (fun e => negb (Contains nameLower e)) excluded).
Proof.
  induction excluded as [|e rest IH]; simpl; [reflexivity|].
  destruct (Contains nameLower e); simpl; [reflexivity|exact IH].
Qed.

Lemma listStep_filter (im : IMAPManager) (boxes : list string) (name : string) :
  listStep im boxes name = if passesFilters im name then boxes ++ [name] else boxes.
Proof.
  unfold listStep, passesFilters, isExcludedFolder. rewrite containsAny_forallb.
  destruct (forallb _ (excludedFolders im)); simpl; [|reflexivity].
  destruct (String.eqb (targetFolder im) ""); reflexivity.
Qed.

Lemma fold_listStep (im : IMAPManager) (names boxes : list string) :
  fold_left (listStep im) names boxes = boxes ++ List.filter (passesFilters im) names.
Proof.
  revert boxes. induction names as [|name names IH]; intros boxes; simpl.
  - now rewrite app_nil_r.
  - rewrite IH, listStep_filter.
    destruct (passesFilters im name); [now rewrite <- app_assoc|reflexivity].
Qed.

(** C7.  A folder name passes when no entry of the exclusion list
    occurs in its lowered form and, if a target folder is set, it
    starts with it.  When the listing ends without error,
    [listMailboxes] returns the listed names that pass, in the order
    listed; only when a target folder is set and no name passes does it
    return the error that no mailbox matches.  An error of the listing
    is returned as it is. *)
Theorem listMailboxes_filters (srv : Server) (im : IMAPManager) (h : list Event) :
  (forall name,
      passesFilters im name = true <->
      (forall excluded, In excluded (excludedFolders im) ->
                        Contains (ToLower name) excluded = false) /\
      (targetFolder im = "" \/ HasPrefix name (targetFolder im) = true)) /\
  (forall names,
      srv_list srv h = (names, None) ->
      targetFolder im = "" \/ List.filter (passesFilters im) names <> [] ->
      listMailboxes srv im h = (Ok (List.filter (passesFilters im) names), h ++ [EList])) /\
  (forall names,
      srv_list srv h = (names, None) ->
      targetFolder im <> "" ->
      List.filter (passesFilters im) names = [] ->
      listMailboxes srv im h
      = (Err ("no mailboxes found matching target folder: " ++ targetFolder im)%string,
         h ++ [EList])) /\
  (forall names err,
      srv_list srv h = (names, Some err) ->
      listMailboxes srv im h = (Err err, h ++ [EList])).
Proof.
  split; [|split; [|split]].
  - intros name. unfold passesFilters.
    rewrite andb_true_iff, forallb_forall, orb_true_iff, String.eqb_eq.
    split; intros [Hex Hpre]; (split; [|exact Hpre]); intros e He.
    + apply negb_true_iff. auto.
    + apply negb_true_iff. auto.
  - intros names Hlist Hsome. unfold listMailboxes.
    rewrite Hlist, fold_listStep. simpl.
    destruct Hsome as [->|Hne]; [reflexivity|].
    destruct (List.filter (passesFilters im) names); [contradiction|].
    simpl. now rewrite andb_false_r.
  - intros names Hlist Htarget Hnone. unfold listMailboxes.
    rewrite Hlist, fold_listStep, Hnone. simpl.
    apply String.eqb_neq in Htarget. now rewrite Htarget.
  - intros names err Hlist. unfold listMailboxes. now rewrite Hlist.
Qed.
End Enumerator.

Lemma listMailboxes_filters_witness :
  @DeleteDuplicates.listMailboxes Go.asciiUnicode DeleteDuplicates.fiveFolders
    DeleteDuplicates.projectManager []
  = (Go.Ok ["Work/Project"; "Work/Project/2024"], [DeleteDuplicates.EList]).
Proof.
  apply (proj1 (proj2 (@listMailboxes_filters Go.asciiUnicode DeleteDuplicates.fiveFolders
                         DeleteDuplicates.projectManager []))
           ["INBOX"; "Trash"; "Work/Project"; "[Gmail]/Spam"; "Work/Project/2024"]).
  - reflexivity.
  - right. discriminate.
Defined.

(** ** The resolution planner *)

Section Planner.
Import Go DeleteDuplicates.

Lemma planGroup_spec (choice j : Z) (emails plannedDeletes : list EmailInfo) :
  planGroup choice j emails plannedDeletes =
  plannedDeletes ++
    (if ((j <=? choice) && (choice <? j + Z.of_nat (length emails)))%Z
     then take (Z.to_nat (choice - j)) emails ++ drop (S (Z.to_nat (choice - j))) emails
     else emails).
Proof.
  revert j plannedDeletes.
  induction emails as [|email rest IH]; intros j plannedDeletes.
  - simpl. rewrite ?take_nil, ?drop_nil. destruct (_ && _); now rewrite app_nil_r.
  - cbn [planGroup]. rewrite IH. cbn [length].
    destruct (Z.eqb_spec j choice) as [->|Hne]; simpl negb; cbv iota.
    + replace (choice + 1 <=? choice)%Z with false by (symmetry; apply Z.leb_gt; lia).
      replace (choice <=? choice)%Z with true by (symmetry; apply Z.leb_le; lia).
      replace (choice <? choice + Z.of_nat (S (length rest)))%Z with true
        by (symmetry; apply Z.ltb_lt; lia).
      rewrite Z.sub_diag. reflexivity.
    + rewrite <- app_assoc. f_equal. simpl app.
      destruct ((j + 1 <=? choice) && (choice <? j + 1 + Z.of_nat (length rest)))%Z eqn:Hin.
      * apply andb_true_iff in Hin as [Hlo Hhi].
        apply Z.leb_le in Hlo. apply Z.ltb_lt in Hhi.
        replace (j <=? choice)%Z with true by (symmetry; apply Z.leb_le; lia).
        replace (choice <? j + Z.of_nat (S (length rest)))%Z with true
          by (symmetry; apply Z.ltb_lt; lia).
        replace (Z.to_nat (choice - j)) with (S (Z.to_nat (choice - (j + 1)))) by lia.
        reflexivity.
      * replace ((j <=? choice) && (choice <? j + Z.of_nat (S (length rest))))%Z with false;
          [reflexivity|].
        symmetry. apply andb_false_iff. apply andb_false_iff in Hin as [Hlo|Hhi].
        -- left. apply Z.leb_gt. apply Z.leb_gt in Hlo. lia.
        -- right. apply Z.ltb_ge. apply Z.ltb_ge in Hhi. lia.
Qed.

Context `{U : Unicode}.

Lemma promptForChoice_range (group : DuplicateGroup) (currentGroup totalGroups : Z)
    (dryRun autoMode : bool) (stdin : list Line) (choice : Z) (quit : bool)
    (stdin' : list Line) :
  promptForChoice group currentGroup totalGroups dryRun autoMode stdin
  = Some (choice, quit, stdin') ->
  Emails group <> [] ->
  (choice = -1 \/ 0 <= choice < Z.of_nat (length (Emails group)))%Z /\
  (quit = true -> choice = (-1)%Z) /\
  (autoMode = true -> choice = 0%Z /\ quit = false).
Proof.
  unfold promptForChoice. intros Hrun Hne.
  assert (Hpos : (0 < Z.of_nat (length (Emails group)))%Z).
  { destruct (Emails group); [contradiction|simpl; lia]. }
  destruct autoMode.
  { injection Hrun as <- <- _. repeat split; auto; lia. }
  destruct (Emails group) as [|e0 es] eqn:Hes; [discriminate|].
  destruct dryRun.
  { injection Hrun as <- <- _. repeat split; auto; try discriminate; lia. }
  destruct (readLine stdin) as [line rest].
  destruct (failed line).
  { injection Hrun as <- <- _. repeat split; auto; discriminate. }
  destruct (_ || _).
  { injection Hrun as <- <- _. repeat split; auto; discriminate. }
  destruct (_ || _).
  { injection Hrun as <- <- _. repeat split; auto; discriminate. }
  destruct (Atoi _) as [n|].
  2:{ injection Hrun as <- <- _. repeat split; auto; discriminate. }
  destruct ((n <? 1) || (n >? Z.of_nat (length (e0 :: es))))%Z eqn:Hn.
  { injection Hrun as <- <- _. repeat split; auto; discriminate. }
  apply orb_false_iff in Hn as [Hlo Hhi].
  apply Z.ltb_ge in Hlo. rewrite Z.gtb_ltb in Hhi. apply Z.ltb_ge in Hhi.
  injection Hrun as <- <- _. repeat split; try discriminate. right. lia.
Qed.

(** C1.  Whatever the policy, the answer for a group with members is
    either the skip or an index into the group, and a quit is a skip;
    the automatic policy always answers index 0.  For an answer that
    is an index, the plan grows by all members of the group but the
    one at that index, each once and in the order of the group, and
    the loop goes on to the next group.  For a skip the plan does not
    grow.  Under the automatic policy the plan is, group after group,
    all members but the first; one group of three members gives the
    two members at indices 1 and 2. *)
Theorem planLoop_one_survivor_per_group :
  (forall group currentGroup totalGroups dryRun autoMode stdin choice quit stdin',
      promptForChoice group currentGroup totalGroups dryRun autoMode stdin
      = Some (choice, quit, stdin') ->
      Emails group <> [] ->
      (choice = -1 \/ 0 <= choice < Z.of_nat (length (Emails group)))%Z /\
      (quit = true -> choice = (-1)%Z) /\
      (autoMode = true -> choice = 0%Z /\ quit = false)) /\
  (forall group rest i totalGroups dryRun autoMode stdin plannedDeletes choice quit stdin',
      promptForChoice group (i + 1) totalGroups dryRun autoMode stdin
      = Some (choice, quit, stdin') ->
      Emails group <> [] ->
      choice <> (-1)%Z ->
      exists before kept after,
        Emails group = before ++ kept :: after /\
        length before = Z.to_nat choice /\
        planLoop (group :: rest) i totalGroups dryRun autoMode stdin plannedDeletes
        = planLoop rest (i + 1) totalGroups dryRun autoMode stdin'
            (plannedDeletes ++ before ++ after)) /\
  (forall group rest i totalGroups dryRun autoMode stdin plannedDeletes quit stdin',
      promptForChoice group (i + 1) totalGroups dryRun autoMode stdin
      = Some ((-1)%Z, quit, stdin') ->
      planLoop (group :: rest) i totalGroups dryRun autoMode stdin plannedDeletes
      = if quit && negb autoMode then Some (plannedDeletes, stdin')
        else planLoop rest (i + 1) totalGroups dryRun autoMode stdin' plannedDeletes) /\
  (forall groups i totalGroups dryRun stdin plannedDeletes,
      planLoop groups i totalGroups dryRun true stdin plannedDeletes
      = Some (plannedDeletes ++ List.concat (map (fun group => tail (Emails group)) groups),
              stdin)) /\
  (forall e0 e1 e2 hash dryRun stdin,
      planLoop [ {| Emails := [e0; e1; e2]; GroupHash := hash |} ] 0 1 dryRun true stdin []
      = Some ([e1; e2], stdin)).
Proof.
  split; [|split; [|split; [|split]]].
  - intros. eapply promptForChoice_range; eauto.
  - intros group rest i totalGroups dryRun autoMode stdin plannedDeletes choice quit stdin'
      Hrun Hne Hchoice.
    destruct (promptForChoice_range _ _ _ _ _ _ _ _ _ Hrun Hne) as ([Hskip|Hidx] & Hquit & _);
      [contradiction|].
    assert (Hq : quit = false) by (destruct quit; [now specialize (Hquit eq_refl)|reflexivity]).
    subst quit.
    assert (Hlt : Z.to_nat choice < length (Emails group)) by lia.
    destruct (lookup_lt_is_Some_2 _ _ Hlt) as [kept Hkept].
    exists (take (Z.to_nat choice) (Emails group)), kept,
           (drop (S (Z.to_nat choice)) (Emails group)).
    split; [now rewrite take_drop_middle|].
    split; [rewrite length_take; lia|].
    cbn [planLoop]. rewrite Hrun.
    apply Z.eqb_neq in Hchoice. rewrite Hchoice. cbn [negb andb].
    rewrite planGroup_spec.
    replace ((0 <=? choice) && (choice <? 0 + Z.of_nat (length (Emails group))))%Z with true.
    + now rewrite Z.sub_0_r.
    + symmetry. apply andb_true_iff. split; [apply Z.leb_le|apply Z.ltb_lt]; lia.
  - intros group rest i totalGroups dryRun autoMode stdin plannedDeletes quit stdin' Hrun.
    cbn [planLoop]. rewrite Hrun. reflexivity.
  - intros groups. induction groups as [|group rest IH];
      intros i totalGroups dryRun stdin plannedDeletes.
    + simpl. now rewrite app_nil_r.
    + cbn [planLoop promptForChoice]. cbn [negb andb Z.eqb]. rewrite IH.
      rewrite planGroup_spec. cbn [map List.concat].
      rewrite <- app_assoc. do 2 f_equal. f_equal.
      destruct (Emails group) as [|e es]; reflexivity.
  - intros. reflexivity.
Qed.
End Planner.

(** Manual policy: the user answers 2 for a group of three copies. *)
Lemma planLoop_one_survivor_per_group_witness :
  exists before kept after,
    DeleteDuplicates.Emails DeleteDuplicates.threeCopies = before ++ kept :: after /\
    length before = Z.to_nat 1 /\
    @DeleteDuplicates.planLoop Go.asciiUnicode [DeleteDuplicates.threeCopies] 0 1 false false
      [DeleteDuplicates.typed "2"] []
    = @DeleteDuplicates.planLoop Go.asciiUnicode [] (0 + 1) 1 false false []
        ([] ++ before ++ after).
Proof.
  apply (proj1 (proj2 (@planLoop_one_survivor_per_group Go.asciiUnicode))
           DeleteDuplicates.threeCopies [] 0%Z 1%Z false false
           [DeleteDuplicates.typed "2"] [] 1%Z false []).
  - reflexivity.
  - discriminate.
  - discriminate.
Defined.

(** ** The batched scanner *)

Section Scanner.
Context `{H256 : Go.Sha256}.

Lemma move_scanBatches_shape (fuel : nat) (srv : MoveDuplicates.Server) (name : string)
    (messages i : Z) (emails : list MoveDuplicates.EmailInfo) (h : list MoveDuplicates.Event)
    (res : Go.result (list MoveDuplicates.EmailInfo)) (h' : list MoveDuplicates.Event) :
  MoveDuplicates.scanBatches fuel srv name messages i emails h = Some (res, h') ->
  exists status,
    MoveDuplicates.Batches srv h h' status /\
    match status with
    | Some err => res = Go.Err ("error fetching messages: " ++ err)%string
    | None => exists emails', res = Go.Ok emails'
    end.
Proof.
  revert i emails h. induction fuel as [|fuel IH]; intros i emails h Hrun; [discriminate|].
  cbn [MoveDuplicates.scanBatches] in Hrun.
  destruct (i <=? messages)%Z.
  2:{ injection Hrun as <- <-. exists None. split; [constructor|eauto]. }
  match type of Hrun with
  | context [MoveDuplicates.srv_fetch srv h ?f ?t] =>
      destruct (MoveDuplicates.srv_fetch srv h f t) as [delivered [err|]] eqn:Hfetch
  end.
  - injection Hrun as <- <-. exists (Some err). split; [|reflexivity].
    now apply MoveDuplicates.BatchesError.
  - apply IH in Hrun as (status & Hb & Hres). exists status. split; [|exact Hres].
    eapply MoveDuplicates.BatchesNext; eauto.
Qed.

Lemma move_scanBatches_returns (fuel : nat) (srv : MoveDuplicates.Server) (name : string)
    (messages i : Z) (emails : list MoveDuplicates.EmailInfo) (h : list MoveDuplicates.Event) :
  (1 <= i)%Z -> (messages + MoveDuplicates.batchSize < 4294967296)%Z ->
  Z.to_nat (messages + 1 - i) < fuel ->
  exists r, MoveDuplicates.scanBatches fuel srv name messages i emails h = Some r.
Proof.
  revert i emails h. induction fuel as [|fuel IH]; intros i emails h Hi Hbound Hfuel; [lia|].
  cbn [MoveDuplicates.scanBatches].
  destruct (Z.leb_spec i messages) as [Hle|Hgt]; [|eauto].
  match goal with
  | |- context [MoveDuplicates.srv_fetch srv h ?f ?t] =>
      destruct (MoveDuplicates.srv_fetch srv h f t) as [delivered [err|]]
  end; [eauto|].
  unfold MoveDuplicates.batchSize in *.
  apply IH; unfold Go.u32; try rewrite Z.mod_small by lia; lia.
Qed.

Lemma move_scanMailbox_returns (fuel : nat) (srv : MoveDuplicates.Server) (name : string)
    (h : list MoveDuplicates.Event) (messages : Z) :
  MoveDuplicates.srv_select srv h name true = Go.Ok messages ->
  (0 <= messages)%Z -> (messages + MoveDuplicates.batchSize < 4294967296)%Z ->
  Z.to_nat messages < fuel ->
  exists r, MoveDuplicates.scanMailbox fuel srv name h = Some r.
Proof.
  intros Hsel Hpos Hbound Hfuel. unfold MoveDuplicates.scanMailbox. rewrite Hsel.
  destruct (messages =? 0)%Z; [eauto|].
  apply move_scanBatches_returns; lia.
Qed.

Lemma move_scanMailbox_shape (fuel : nat) (srv : MoveDuplicates.Server) (name : string)
    (h : list MoveDuplicates.Event) (res : Go.result (list MoveDuplicates.EmailInfo)) (h' : list MoveDuplicates.Event) :
  MoveDuplicates.scanMailbox fuel srv name h = Some (res, h') ->
  (exists err,
      MoveDuplicates.srv_select srv h name true = Go.Err err /\
      res = Go.Err ("error selecting mailbox: " ++ err)%string /\
      h' = h ++ [MoveDuplicates.ESelect name true]) \/
  (exists messages status,
      MoveDuplicates.srv_select srv h name true = Go.Ok messages /\
      MoveDuplicates.Batches srv (h ++ [MoveDuplicates.ESelect name true]) h' status /\
      match status with
      | Some err => res = Go.Err ("error fetching messages: " ++ err)%string
      | None => exists emails, res = Go.Ok emails
      end).
Proof.
  unfold MoveDuplicates.scanMailbox. intros Hrun.
  destruct (MoveDuplicates.srv_select srv h name true) as [messages|err].
  - right. exists messages. destruct (messages =? 0)%Z.
    + injection Hrun as <- <-. exists None. split; [reflexivity|].
      split; [constructor|eauto].
    + apply move_scanBatches_shape in Hrun as (status & Hb & Hres). eauto.
  - left. injection Hrun as <- <-. eauto.
Qed.

Lemma delete_scanBatches_shape (fuel : nat) (srv : DeleteDuplicates.Server) (name : string)
    (messages i : Z) (emails : list DeleteDuplicates.EmailInfo) (h : list DeleteDuplicates.Event)
    (res : Go.result (list DeleteDuplicates.EmailInfo)) (h' : list DeleteDuplicates.Event) :
  DeleteDuplicates.scanBatches fuel srv name messages i emails h = Some (res, h') ->
  exists status,
    DeleteDuplicates.Batches srv h h' status /\
    match status with
    | Some err => res = Go.Err ("error fetching messages: " ++ err)%string
    | None => exists emails', res = Go.Ok emails'
    end.
Proof.
  revert i emails h. induction fuel as [|fuel IH]; intros i emails h Hrun; [discriminate|].
  cbn [DeleteDuplicates.scanBatches] in Hrun.
  destruct (i <=? messages)%Z.
  2:{ injection Hrun as <- <-. exists None. split; [constructor|eauto]. }
  match type of Hrun with
  | context [DeleteDuplicates.srv_fetch srv h ?f ?t] =>
      destruct (DeleteDuplicates.srv_fetch srv h f t) as [delivered [err|]] eqn:Hfetch
  end.
  - injection Hrun as <- <-. exists (Some err). split; [|reflexivity].
    now apply DeleteDuplicates.BatchesError.
  - apply IH in Hrun as (status & Hb & Hres). exists status. split; [|exact Hres].
    eapply DeleteDuplicates.BatchesNext; eauto.
Qed.

Lemma delete_scanBatches_returns (fuel : nat) (srv : DeleteDuplicates.Server) (name : string)
    (messages i : Z) (emails : list DeleteDuplicates.EmailInfo) (h : list DeleteDuplicates.Event) :
  (1 <= i)%Z -> (messages + DeleteDuplicates.batchSize < 4294967296)%Z ->
  Z.to_nat (messages + 1 - i) < fuel ->
  exists r, DeleteDuplicates.scanBatches fuel srv name messages i emails h = Some r.
Proof.
  revert i emails h. induction fuel as [|fuel IH]; intros i emails h Hi Hbound Hfuel; [lia|].
  cbn [DeleteDuplicates.scanBatches].
  destruct (Z.leb_spec i messages) as [Hle|Hgt]; [|eauto].
  match goal with
  | |- context [DeleteDuplicates.srv_fetch srv h ?f ?t] =>
      destruct (DeleteDuplicates.srv_fetch srv h f t) as [delivered [err|]]
  end; [eauto|].
  unfold DeleteDuplicates.batchSize in *.
  apply IH; unfold Go.u32; try rewrite Z.mod_small by lia; lia.
Qed.

Lemma delete_scanMailbox_returns (fuel : nat) (srv : DeleteDuplicates.Server) (name : string)
    (h : list DeleteDuplicates.Event) (messages : Z) :
  DeleteDuplicates.srv_select srv h name true = Go.Ok messages ->
  (0 <= messages)%Z -> (messages + DeleteDuplicates.batchSize < 4294967296)%Z ->
  Z.to_nat messages < fuel ->
  exists r, DeleteDuplicates.scanMailbox fuel srv name h = Some r.
Proof.
  intros Hsel Hpos Hbound Hfuel. unfold DeleteDuplicates.scanMailbox. rewrite Hsel.
  destruct (messages =? 0)%Z; [eauto|].
  apply delete_scanBatches_returns; lia.
Qed.

Lemma delete_scanMailbox_shape (fuel : nat) (srv : DeleteDuplicates.Server) (name : string)
    (h : list DeleteDuplicates.Event) (res : Go.result (list DeleteDuplicates.EmailInfo)) (h' : list DeleteDuplicates.Event) :
  DeleteDuplicates.scanMailbox fuel srv name h = Some (res, h') ->
  (exists err,
      DeleteDuplicates.srv_select srv h name true = Go.Err err /\
      res = Go.Err ("error selecting mailbox: " ++ err)%string /\
      h' = h ++ [DeleteDuplicates.ESelect name true]) \/
  (exists messages status,
      DeleteDuplicates.srv_select srv h name true = Go.Ok messages /\
      DeleteDuplicates.Batches srv (h ++ [DeleteDuplicates.ESelect name true]) h' status /\
      match status with
      | Some err => res = Go.Err ("error fetching messages: " ++ err)%string
      | None => exists emails, res = Go.Ok emails
      end).
Proof.
  unfold DeleteDuplicates.scanMailbox. intros Hrun.
  destruct (DeleteDuplicates.srv_select srv h name true) as [messages|err].
  - right. exists messages. destruct (messages =? 0)%Z.
    + injection Hrun as <- <-. exists None. split; [reflexivity|].
      split; [constructor|eauto].
    + apply delete_scanBatches_shape in Hrun as (status & Hb & Hres). eauto.
  - left. injection Hrun as <- <-. eauto.
Qed.

(** C8.  In both variants a scan that returns has, after its select,
    this record of events: every retrieval is followed by each record
    it delivered and only then by its status; when that status is an
    error, however many records came before it, the scan ends there
    and returns the error and no records.  A scan of a mailbox whose
    size leaves room for one more batch below 2^32 does return, given
    fuel above the number of messages. *)
Theorem scanMailbox_drains_then_checks_status :
  (forall fuel srv name h res h',
      MoveDuplicates.scanMailbox fuel srv name h = Some (res, h') ->
      (exists err,
          MoveDuplicates.srv_select srv h name true = Go.Err err /\
          res = Go.Err ("error selecting mailbox: " ++ err)%string /\
          h' = h ++ [MoveDuplicates.ESelect name true]) \/
      (exists messages status,
          MoveDuplicates.srv_select srv h name true = Go.Ok messages /\
          MoveDuplicates.Batches srv (h ++ [MoveDuplicates.ESelect name true]) h' status /\
          match status with
          | Some err => res = Go.Err ("error fetching messages: " ++ err)%string
          | None => exists emails, res = Go.Ok emails
          end)) /\
  (forall fuel srv name h messages,
      MoveDuplicates.srv_select srv h name true = Go.Ok messages ->
      (0 <= messages)%Z -> (messages + MoveDuplicates.batchSize < 4294967296)%Z ->
      Z.to_nat messages < fuel ->
      exists r, MoveDuplicates.scanMailbox fuel srv name h = Some r) /\
  (forall fuel srv name h res h',
      DeleteDuplicates.scanMailbox fuel srv name h = Some (res, h') ->
      (exists err,
          DeleteDuplicates.srv_select srv h name true = Go.Err err /\
          res = Go.Err ("error selecting mailbox: " ++ err)%string /\
          h' = h ++ [DeleteDuplicates.ESelect name true]) \/
      (exists messages status,
          DeleteDuplicates.srv_select srv h name true = Go.Ok messages /\
          DeleteDuplicates.Batches srv (h ++ [DeleteDuplicates.ESelect name true]) h' status /\
          match status with
          | Some err => res = Go.Err ("error fetching messages: " ++ err)%string
          | None => exists emails, res = Go.Ok emails
          end)) /\
  (forall fuel srv name h messages,
      DeleteDuplicates.srv_select srv h name true = Go.Ok messages ->
      (0 <= messages)%Z -> (messages + DeleteDuplicates.batchSize < 4294967296)%Z ->
      Z.to_nat messages < fuel ->
      exists r, DeleteDuplicates.scanMailbox fuel srv name h = Some r).
Proof.
  split; [|split; [|split]].
  - intros fuel srv name h res h'. apply move_scanMailbox_shape.
  - intros fuel srv name h messages. apply move_scanMailbox_returns.
  - intros fuel srv name h res h'. apply delete_scanMailbox_shape.
  - intros fuel srv name h messages. apply delete_scanMailbox_returns.
Qed.
End Scanner.

(** Both records arrive, then the error: the scan returns the error. *)
Lemma scanMailbox_drains_then_checks_status_witness :
  (exists err,
      DeleteDuplicates.srv_select DeleteDuplicates.lossyServer [] "INBOX" true = Go.Err err /\
      @Go.Err (list DeleteDuplicates.EmailInfo) "error fetching messages: connection reset by peer"
      = Go.Err ("error selecting mailbox: " ++ err)%string /\
      [ DeleteDuplicates.ESelect "INBOX" true; DeleteDuplicates.EFetch 1 2;
        DeleteDuplicates.ERecv (Some 11%Z); DeleteDuplicates.ERecv (Some 12%Z);
        DeleteDuplicates.EDone (Some "connection reset by peer") ]
      = [] ++ [DeleteDuplicates.ESelect "INBOX" true]) \/
  (exists messages status,
      DeleteDuplicates.srv_select DeleteDuplicates.lossyServer [] "INBOX" true
      = Go.Ok messages /\
      DeleteDuplicates.Batches DeleteDuplicates.lossyServer
        ([] ++ [DeleteDuplicates.ESelect "INBOX" true])
        [ DeleteDuplicates.ESelect "INBOX" true; DeleteDuplicates.EFetch 1 2;
          DeleteDuplicates.ERecv (Some 11%Z); DeleteDuplicates.ERecv (Some 12%Z);
          DeleteDuplicates.EDone (Some "connection reset by peer") ]
        status /\
      match status with
      | Some err =>
          @Go.Err (list DeleteDuplicates.EmailInfo) "error fetching messages: connection reset by peer"
          = Go.Err ("error fetching messages: " ++ err)%string
      | None =>
          exists emails : list DeleteDuplicates.EmailInfo,
            @Go.Err (list DeleteDuplicates.EmailInfo) "error fetching messages: connection reset by peer" = Go.Ok emails
      end).
Proof.
  apply (proj1 (proj2 (proj2 (@scanMailbox_drains_then_checks_status Go.plainDigest)))
           3 DeleteDuplicates.lossyServer "INBOX" []).
  reflexivity.
Defined.

(** ** The run of the delete variant *)

Section Run.
Import Go DeleteDuplicates.
Context `{H256 : Sha256} `{R : MapRange} `{U : Unicode}.

Lemma scanAll_shape (fuel : nat) (srv : Server) (mailboxes : list string)
    (allEmails : list EmailInfo) (h : list Event) (all : list EmailInfo) (h' : list Event) :
  scanAll fuel srv mailboxes allEmails h = Some (all, h') ->
  exists more, Scans fuel srv mailboxes h more h' /\ all = allEmails ++ more.
Proof.
  revert allEmails h. induction mailboxes as [|mailbox rest IH]; intros allEmails h Hrun.
  - injection Hrun as <- <-. exists []. split; [constructor|now rewrite app_nil_r].
  - cbn [scanAll] in Hrun.
    destruct (scanMailbox fuel srv mailbox h) as [[[emails|err] h1]|] eqn:Hscan;
      [| |discriminate].
    + apply IH in Hrun as (more & Hs & ->). exists (emails ++ more).
      split; [eapply ScansKept; eauto|now rewrite app_assoc].
    + apply IH in Hrun as (more & Hs & ->). exists more.
      split; [eapply ScansDropped; eauto|reflexivity].
Qed.

Lemma scanAll_returns (fuel : nat) (srv : Server) (mailboxes : list string)
    (allEmails : list EmailInfo) (h : list Event) :
  (forall h name messages,
      srv_select srv h name true = Ok messages ->
      (0 <= messages)%Z /\ (messages + batchSize < 4294967296)%Z /\
      Z.to_nat messages < fuel) ->
  exists r, scanAll fuel srv mailboxes allEmails h = Some r.
Proof.
  intros Hbound. revert allEmails h.
  induction mailboxes as [|mailbox rest IH]; intros allEmails h; cbn [scanAll]; [eauto|].
  assert (Hret : exists r, scanMailbox fuel srv mailbox h = Some r).
  { destruct (srv_select srv h mailbox true) as [messages|err] eqn:Hsel.
    - destruct (Hbound _ _ _ Hsel) as (Hpos & Hroom & Hfuel).
      eapply delete_scanMailbox_returns; eauto.
    - unfold scanMailbox. rewrite Hsel. eauto. }
  destruct Hret as [[[emails|err] h1] ->]; apply IH.
Qed.

Lemma executeAll_shape (srv : Server) (plannedDeletes : list EmailInfo) (h : list Event) :
  Executes srv plannedDeletes h
    (fst (executeAll srv plannedDeletes h)) (snd (executeAll srv plannedDeletes h)).
Proof.
  revert h. induction plannedDeletes as [|email rest IH]; intros h; cbn [executeAll].
  - constructor.
  - destruct (deleteEmail srv email h) as [[err|] h1] eqn:Hdel.
    + specialize (IH h1). destruct (executeAll srv rest h1) as [errs h2].
      eapply ExecutesFailed; eauto.
    + eapply ExecutesDone; eauto.
Qed.

Lemma planLoop_returns (groups : list DuplicateGroup) (i totalGroups : Z)
    (dryRun autoMode : bool) (stdin : list Line) (plannedDeletes : list EmailInfo) :
  (forall group, In group groups -> Emails group <> []) ->
  exists r, planLoop groups i totalGroups dryRun autoMode stdin plannedDeletes = Some r.
Proof.
  revert i stdin plannedDeletes.
  induction groups as [|group rest IH]; intros i stdin plannedDeletes Hne;
    cbn [planLoop]; [eauto|].
  assert (Hsome : exists r, promptForChoice group (i + 1) totalGroups dryRun autoMode stdin
                            = Some r).
  { unfold promptForChoice. destruct autoMode; [eauto|].
    destruct (Emails group) eqn:Hes; [now destruct (Hne group (or_introl eq_refl))|].
    destruct dryRun; [eauto|].
    destruct (readLine stdin) as [line stdin'].
    destruct (failed line); [eauto|].
    destruct (_ || _); [eauto|]. destruct (_ || _); [eauto|].
    destruct (Atoi _); [|eauto]. destruct (_ || _)%bool; eauto. }
  destruct Hsome as [[[choice quit] stdin'] ->].
  destruct (quit && negb autoMode); [eauto|].
  apply IH. intros g Hg. apply Hne. now right.
Qed.

Lemma setup_done_not_failed (env : Env) (srv : Server) (imap : IMAPManager)
    (h0 : list Event) (mailboxes : list string) (h1 : list Event) :
  dotenv env = None ->
  connectIMAP srv env [] = (Ok imap, h0) ->
  listMailboxes srv imap h0 = (Ok mailboxes, h1) ->
  ~ SetupFails env srv.
Proof.
  intros Henv Hconn Hlist [Hd|[(e & h2 & Hc)|(imap' & h2 & e & h3 & Hc & Hl)]].
  - now apply Hd.
  - rewrite Hconn in Hc. discriminate.
  - rewrite Hconn in Hc. injection Hc as <- <-. rewrite Hlist in Hl. discriminate.
Qed.

Lemma main_after_setup (fuel : nat) (dryRun autoMode : bool) (env : Env) (srv : Server)
    (stdin : list Line) (imap : IMAPManager) (h0 : list Event) (mailboxes : list string)
    (h1 : list Event) :
  (forall h name messages,
      srv_select srv h name true = Ok messages ->
      (0 <= messages)%Z /\ (messages + batchSize < 4294967296)%Z /\
      Z.to_nat messages < fuel) ->
  dotenv env = None ->
  connectIMAP srv env [] = (Ok imap, h0) ->
  listMailboxes srv imap h0 = (Ok mailboxes, h1) ->
  exists exit h,
    main fuel dryRun autoMode env srv stdin = Some (exit, h) /\
    exit <> Panicked /\ forall msg, exit <> Fatal msg.
Proof.
  intros Hbound Henv Hconn Hlist. unfold main. rewrite Henv, Hconn, Hlist.
  destruct (scanAll_returns fuel srv mailboxes [] h1 Hbound) as [[allEmails h2] ->].
  destruct (planLoop_returns (findDuplicates allEmails) 0
              (Z.of_nat (length (findDuplicates allEmails))) dryRun autoMode stdin [])
    as [[plannedDeletes stdin'] ->].
  { intros group Hg. apply delete_findDuplicates_In in Hg as (_ & _ & Hlen).
    intros Hnil. rewrite Hnil in Hlen. simpl in Hlen. lia. }
  destruct (length plannedDeletes =? 0)%nat.
  { do 2 eexists. split; [reflexivity|]. split; [|intros msg]; discriminate. }
  destruct dryRun.
  { do 2 eexists. split; [reflexivity|]. split; [|intros msg]; discriminate. }
  destruct (confirmActions stdin') as [yes stdin''].
  destruct yes; cbn [negb].
  - destruct (executeAll srv plannedDeletes h2) as [errs h3].
    do 2 eexists. split; [reflexivity|]. split; [|intros msg]; discriminate.
  - do 2 eexists. split; [reflexivity|]. split; [|intros msg]; discriminate.
Qed.

(** C5.  The scan loop visits every mailbox: a scan that fails adds no
    records and the loop goes on.  The deletion loop tries every planned
    deletion: one that fails is reported and the loop goes on.  With
    mailbox sizes that leave room for one more batch below 2^32 and
    fuel above them, [main] ends, never in a panic, and it ends in
    [log.Fatal] when and only when the setup failed: the environment
    file, the connection, the login or the listing. *)
Theorem main_aborts_only_in_setup :
  (forall fuel srv mailboxes allEmails h all h',
      scanAll fuel srv mailboxes allEmails h = Some (all, h') ->
      exists more, Scans fuel srv mailboxes h more h' /\ all = allEmails ++ more) /\
  (forall srv plannedDeletes h,
      Executes srv plannedDeletes h
        (fst (executeAll srv plannedDeletes h)) (snd (executeAll srv plannedDeletes h))) /\
  (forall fuel dryRun autoMode env srv stdin,
      (forall h name messages,
          srv_select srv h name true = Ok messages ->
          (0 <= messages)%Z /\ (messages + batchSize < 4294967296)%Z /\
          Z.to_nat messages < fuel) ->
      exists exit h,
        main fuel dryRun autoMode env srv stdin = Some (exit, h) /\
        exit <> Panicked /\
        (forall msg, exit = Fatal msg -> SetupFails env srv) /\
        (SetupFails env srv -> exists msg, exit = Fatal msg)).
Proof.
  split; [|split].
  - apply scanAll_shape.
  - apply executeAll_shape.
  - intros fuel dryRun autoMode env srv stdin Hbound.
    destruct (dotenv env) as [e|] eqn:Henv.
    { exists (Fatal "Error loading .env file"), [].
      unfold main. rewrite Henv. split; [reflexivity|].
      split; [discriminate|]. split; [|eauto].
      intros _ _. left. rewrite Henv. discriminate. }
    destruct (connectIMAP srv env []) as [[imap|err] h0] eqn:Hconn.
    2:{ exists (Fatal ("Failed to connect to IMAP: " ++ err)%string), h0.
        unfold main. rewrite Henv, Hconn. split; [reflexivity|].
        split; [discriminate|]. split; [|eauto].
        intros _ _. right. left. eauto. }
    destruct (listMailboxes srv imap h0) as [[mailboxes|err] h1] eqn:Hlist.
    2:{ exists (Fatal ("Error listing mailboxes: " ++ err)%string), h1.
        unfold main. rewrite Henv, Hconn, Hlist. split; [reflexivity|].
        split; [discriminate|]. split; [|eauto].
        intros _ _. right. right. exists imap, h0, err, h1. auto. }
    destruct (main_after_setup fuel dryRun autoMode env srv stdin imap h0 mailboxes h1
                Hbound Henv Hconn Hlist) as (exit & h & Hmain & Hpanic & Hfatal).
    exists exit, h. split; [exact Hmain|]. split; [exact Hpanic|]. split.
    + intros msg Hmsg. now destruct (Hfatal msg).
    + intros Hfails.
      now destruct (setup_done_not_failed env srv imap h0 mailboxes h1 Henv Hconn Hlist).
Qed.
End Run.

(** One mailbox cannot be scanned and one deletion fails: the run goes
    through all the same. *)
Lemma main_aborts_only_in_setup_witness :
  exists exit h,
    @DeleteDuplicates.main Go.plainDigest listedRange Go.asciiUnicode 5 false true
      DeleteDuplicates.someEnv DeleteDuplicates.patchyServer [DeleteDuplicates.typed "yes"]
    = Some (exit, h) /\
    exit <> DeleteDuplicates.Panicked /\
    (forall msg, exit = DeleteDuplicates.Fatal msg ->
                 @DeleteDuplicates.SetupFails Go.asciiUnicode DeleteDuplicates.someEnv
                   DeleteDuplicates.patchyServer) /\
    (@DeleteDuplicates.SetupFails Go.asciiUnicode DeleteDuplicates.someEnv
       DeleteDuplicates.patchyServer ->
     exists msg, exit = DeleteDuplicates.Fatal msg).
Proof.
  apply (proj2 (proj2 (@main_aborts_only_in_setup Go.plainDigest listedRange Go.asciiUnicode))
           5 false true DeleteDuplicates.someEnv DeleteDuplicates.patchyServer
           [DeleteDuplicates.typed "yes"]).
  intros h name messages Hsel. simpl in Hsel.
  destruct (String.eqb name "Broken"); [discriminate|].
  injection Hsel as <-. vm_compute. repeat split; try lia; discriminate.
Defined.

(** * Further properties of the tools *)

(** ** The plan of the delete variant leaves a copy of every message *)


Section PlanSurvivors.
Import Go DeleteDuplicates PlanFacts.
Context `{R : MapRange} `{U : Unicode}.

Lemma bucketOf_app (h : string) (l1 l2 : list EmailInfo) :
  bucketOf h (l1 ++ l2) = bucketOf h l1 ++ bucketOf h l2.
Proof. apply List.filter_app. Qed.

Lemma bucketOf_length_le (h : string) (l : list EmailInfo) :
  length (bucketOf h l) <= length l.
Proof. apply List.filter_length_le. Qed.

Lemma bucketOf_other (h : string) (l : list EmailInfo) (h' : string) :
  Forall (fun e => Hash e = h') l -> h' <> h -> bucketOf h l = [].
Proof.
  intros Hall Hne. induction Hall as [|e l He _ IH]; [reflexivity|].
  cbn [bucketOf List.filter]. fold (bucketOf h l). rewrite IH.
  rewrite He. apply String.eqb_neq in Hne. now rewrite Hne.
Qed.

(** What one group adds to the plan. *)
Lemma planLoop_step (group : DuplicateGroup) (rest : list DuplicateGroup)
    (i totalGroups : Z) (dryRun autoMode : bool) (stdin : list Line)
    (plannedDeletes plan : list EmailInfo) (stdin' : list Line) :
  Emails group <> [] ->
  planLoop (group :: rest) i totalGroups dryRun autoMode stdin plannedDeletes
  = Some (plan, stdin') ->
  exists added stdin1,
    (added = [] \/
     exists before kept after,
       Emails group = before ++ kept :: after /\ added = before ++ after) /\
    (plan = plannedDeletes ++ added \/
     planLoop rest (i + 1) totalGroups dryRun autoMode stdin1 (plannedDeletes ++ added)
     = Some (plan, stdin')).
Proof.
  intros Hne Hrun. cbn [planLoop] in Hrun.
  destruct (promptForChoice group (i + 1) totalGroups dryRun autoMode stdin)
    as [[[choice quit] stdin1]|] eqn:Hprompt; [|discriminate].
  destruct (promptForChoice_range _ _ _ _ _ _ _ _ _ Hprompt Hne) as (Hrange & _ & _).
  destruct (Z.eqb_spec choice (-1)) as [->|Hchoice]; cbn [negb] in Hrun.
  - exists [], stdin1. split; [now left|]. rewrite app_nil_r.
    destruct (quit && negb autoMode); [left; congruence|now right].
  - destruct Hrange as [Hskip|Hidx]; [contradiction|].
    assert (Hlt : Z.to_nat choice < length (Emails group)) by lia.
    destruct (lookup_lt_is_Some_2 _ _ Hlt) as [kept Hkept].
    rewrite planGroup_spec in Hrun.
    replace ((0 <=? choice) && (choice <? 0 + Z.of_nat (length (Emails group))))%Z
      with true in Hrun
      by (symmetry; apply andb_true_iff; split; [apply Z.leb_le|apply Z.ltb_lt]; lia).
    rewrite Z.sub_0_r in Hrun.
    exists (take (Z.to_nat choice) (Emails group)
            ++ drop (S (Z.to_nat choice)) (Emails group)), stdin1.
    split.
    + right. exists (take (Z.to_nat choice) (Emails group)), kept,
        (drop (S (Z.to_nat choice)) (Emails group)).
      split; [now rewrite take_drop_middle|reflexivity].
    + destruct (quit && negb autoMode); [left; congruence|now right].
Qed.

Lemma planLoop_within_allowance (groups : list DuplicateGroup) (i totalGroups : Z)
    (dryRun autoMode : bool) (stdin : list Line)
    (plannedDeletes plan : list EmailInfo) (stdin' : list Line) :
  (forall group, In group groups -> wellFormed group) ->
  planLoop groups i totalGroups dryRun autoMode stdin plannedDeletes = Some (plan, stdin') ->
  (forall e, In e plan ->
             In e plannedDeletes \/ exists group, In group groups /\ In e (Emails group)) /\
  (forall h, length (bucketOf h plan)
             <= length (bucketOf h plannedDeletes) + allowance h groups).
Proof.
  revert i stdin plannedDeletes.
  induction groups as [|group rest IH]; intros i stdin plannedDeletes Hwf Hrun.
  - injection Hrun as <- _. split; [auto|]. intros h. simpl. lia.
  - destruct (Hwf group (or_introl eq_refl)) as [Hne Hcarry].
    destruct (planLoop_step _ _ _ _ _ _ _ _ _ _ Hne Hrun)
      as (added & stdin1 & Hadded & Hnext).
    assert (Hsub : forall e, In e added -> In e (Emails group)).
    { destruct Hadded as [->|(before & kept & after & Heq & ->)]; [contradiction|].
      intros e He. rewrite Heq. apply in_app_iff. apply in_app_iff in He.
      destruct He; [now left|right; now right]. }
    assert (Hcount : forall h,
               length (bucketOf h added)
               <= if String.eqb (GroupHash group) h then length (Emails group) - 1 else 0).
    { intros h. destruct (String.eqb_spec (GroupHash group) h) as [Heq|Hneq].
      - etransitivity; [apply bucketOf_length_le|].
        destruct Hadded as [->|(before & kept & after & Hg & ->)]; [simpl; lia|].
        rewrite Hg, !length_app. simpl. lia.
      - rewrite (bucketOf_other h added (GroupHash group)); [simpl; lia| |exact Hneq].
        rewrite Forall_forall in Hcarry. apply Forall_forall. intros e He.
        apply Hcarry. apply list_elem_of_In. apply Hsub. now apply list_elem_of_In. }
    assert (Hhere : (forall e, In e (plannedDeletes ++ added) ->
                       In e plannedDeletes \/
                       exists g, In g (group :: rest) /\ In e (Emails g)) /\
                    forall h, length (bucketOf h (plannedDeletes ++ added))
                              <= length (bucketOf h plannedDeletes)
                                 + allowance h (group :: rest)).
    { split.
      - intros e He. apply in_app_iff in He as [He|He]; [now left|].
        right. exists group. split; [now left|auto].
      - intros h. rewrite bucketOf_app, length_app. cbn [allowance].
        specialize (Hcount h). lia. }
    destruct Hnext as [->|Hnext]; [exact Hhere|].
    apply IH in Hnext as [Hin Hlen]; [|intros g Hg; apply Hwf; now right].
    destruct Hhere as [Hin0 Hlen0]. split.
    + intros e He. destruct (Hin e He) as [Hp|(g & Hg & Hge)].
      * apply Hin0, Hp.
      * right. exists g. split; [now right|exact Hge].
    + intros h. specialize (Hlen h). rewrite bucketOf_app, length_app in Hlen.
      cbn [allowance]. specialize (Hcount h). lia.
Qed.

Lemma allowance_NoDup (h : string) (groups : list DuplicateGroup) (n : nat) :
  NoDup (map GroupHash groups) ->
  (forall group, In group groups -> GroupHash group = h -> length (Emails group) <= n) ->
  allowance h groups <= n - 1.
Proof.
  induction groups as [|group rest IH]; intros Hnd Hlen; cbn [allowance]; [lia|].
  cbn [map] in Hnd. apply NoDup_cons in Hnd as [Hfresh Hnd].
  destruct (String.eqb_spec (GroupHash group) h) as [Heq|Hneq].
  - assert (Hzero : allowance h rest = 0).
    { clear IH Hlen Hnd. induction rest as [|g rest IH]; [reflexivity|].
      cbn [allowance]. cbn [map] in Hfresh.
      destruct (String.eqb_spec (GroupHash g) h) as [Hg|_].
      - exfalso. apply Hfresh. rewrite Heq, <- Hg. now left.
      - apply IH. intros Hin. apply Hfresh. now right. }
    rewrite Hzero. specialize (Hlen group (or_introl eq_refl) Heq). lia.
  - simpl. apply IH; [exact Hnd|]. intros g Hg. apply Hlen. now right.
Qed.

(** X1.  Whatever the answers at the prompt, every record the delete
    variant plans to delete is one of the scanned records, and of the
    scanned records that share a fingerprint at least one is left out of
    the plan. *)
Theorem planLoop_leaves_a_copy (allEmails : list EmailInfo) (dryRun autoMode : bool)
    (stdin : list Line) (plan : list EmailInfo) (stdin' : list Line) :
  planLoop (findDuplicates allEmails) 0
    (Z.of_nat (length (findDuplicates allEmails))) dryRun autoMode stdin []
  = Some (plan, stdin') ->
  (forall e, In e plan -> In e allEmails) /\
  (forall h, bucketOf h allEmails <> [] ->
             length (bucketOf h plan) < length (bucketOf h allEmails)).
Proof.
  intros Hrun.
  assert (Hwf : forall group, In group (findDuplicates allEmails) ->
                  wellFormed group /\
                  Emails group = bucketOf (GroupHash group) allEmails).
  { intros group Hg. apply delete_findDuplicates_In in Hg as (_ & Hb & Hlen).
    split; [split|exact Hb].
    - intros Hnil. rewrite Hnil in Hlen. simpl in Hlen. lia.
    - rewrite Hb. apply Forall_forall. intros e He. apply list_elem_of_In in He.
      apply filter_In in He as [_ He]. now apply String.eqb_eq. }
  destruct (planLoop_within_allowance _ _ _ _ _ _ _ _ _
              (fun g Hg => proj1 (Hwf g Hg)) Hrun) as [Hin Hlen].
  split.
  - intros e He. destruct (Hin e He) as [[]|(group & Hg & Hge)].
    rewrite (proj2 (Hwf group Hg)) in Hge. now apply filter_In in Hge.
  - intros h Hne. specialize (Hlen h). simpl in Hlen.
    assert (Hallow : allowance h (findDuplicates allEmails)
                     <= length (bucketOf h allEmails) - 1).
    { apply allowance_NoDup.
      - unfold findDuplicates.
        apply (emitted_hashes_NoDup
                 (fun d h => {| Emails := d; GroupHash := h |})). reflexivity.
      - intros group Hg Hh. rewrite (proj2 (Hwf group Hg)), Hh. lia. }
    destruct (bucketOf h allEmails); [contradiction|]. simpl in *. lia.
Qed.
End PlanSurvivors.

(** The user keeps the second of the two copies with fingerprint aa11. *)
Lemma planLoop_leaves_a_copy_witness :
  (forall e, In e [DeleteDuplicates.emailOf "INBOX" 1 "aa11"] ->
             In e DeleteDuplicates.threeEmails) /\
  (forall h, DeleteDuplicates.bucketOf h DeleteDuplicates.threeEmails <> [] ->
             length (DeleteDuplicates.bucketOf h [DeleteDuplicates.emailOf "INBOX" 1 "aa11"])
             < length (DeleteDuplicates.bucketOf h DeleteDuplicates.threeEmails)).
Proof.
  apply (@planLoop_leaves_a_copy listedRange Go.asciiUnicode DeleteDuplicates.threeEmails
           false false [DeleteDuplicates.typed "2"]
           [DeleteDuplicates.emailOf "INBOX" 1 "aa11"] []).
  vm_compute. reflexivity.
Defined.

(** ** What a run of the delete variant sends to the server *)

Section RunEvents.
Import Go DeleteDuplicates Traces.
Context `{H256 : Sha256} `{R : MapRange} `{U : Unicode}.

(** The events of the set-up and of the scan are session events and
    selects for reading of the mailboxes scanned. *)
Section EventsOf.
Variable P : Event -> Prop.
Hypothesis Psession : forall e, session e = true -> P e.

Lemma connectIMAP_events (srv : Server) (env : Env) (h : list Event)
    (res : result IMAPManager) (h' : list Event) :
  connectIMAP srv env h = (res, h') -> Forall P h -> Forall P h'.
Proof.
  unfold connectIMAP. intros Hrun Hh.
  destruct (srv_dial srv h _).
  - injection Hrun as <- <-. apply Forall_app. split; [exact Hh|].
    repeat constructor. now apply Psession.
  - destruct (srv_login srv _ _ _); injection Hrun as <- <-;
      repeat (apply Forall_app; split); try exact Hh;
      repeat constructor; now apply Psession.
Qed.

Lemma listMailboxes_events (srv : Server) (im : IMAPManager) (h : list Event)
    (res : result (list string)) (h' : list Event) :
  listMailboxes srv im h = (res, h') -> Forall P h -> Forall P h'.
Proof.
  unfold listMailboxes. intros Hrun Hh.
  destruct (srv_list srv h) as [names [err|]].
  - injection Hrun as <- <-. apply Forall_app. split; [exact Hh|].
    repeat constructor. now apply Psession.
  - destruct (_ && _); injection Hrun as <- <-;
      (apply Forall_app; split; [exact Hh|]); repeat constructor; now apply Psession.
Qed.

Lemma scanBatches_events (fuel : nat) (srv : Server) (name : string) (messages i : Z)
    (emails : list EmailInfo) (h : list Event) (res : result (list EmailInfo))
    (h' : list Event) :
  scanBatches fuel srv name messages i emails h = Some (res, h') ->
  Forall P h -> Forall P h'.
Proof.
  revert i emails h. induction fuel as [|fuel IH]; intros i emails h Hrun Hh; [discriminate|].
  cbn [scanBatches] in Hrun.
  destruct (i <=? messages)%Z; [|injection Hrun as <- <-; exact Hh].
  match type of Hrun with
  | context [srv_fetch srv h ?f ?t] =>
      destruct (srv_fetch srv h f t) as [delivered status] eqn:Hfetch
  end.
  match type of Hrun with
  | context [EDone status] =>
      match type of Hrun with
      | context [?a ++ [EDone status]] => assert (Hh' : Forall P (a ++ [EDone status]))
      end
  end.
  { repeat (apply Forall_app; split); try exact Hh.
    - repeat constructor. now apply Psession.
    - apply Forall_map. apply Forall_forall. intros msg _. now apply Psession.
    - repeat constructor. now apply Psession. }
  destruct status as [err|].
  - injection Hrun as <- <-. exact Hh'.
  - eapply IH; [exact Hrun|exact Hh'].
Qed.

Lemma scanMailbox_events (fuel : nat) (srv : Server) (name : string) (h : list Event)
    (res : result (list EmailInfo)) (h' : list Event) :
  P (ESelect name true) ->
  scanMailbox fuel srv name h = Some (res, h') ->
  Forall P h -> Forall P h'.
Proof.
  intros Hsel Hrun Hh. unfold scanMailbox in Hrun.
  assert (Hh' : Forall P (h ++ [ESelect name true])).
  { apply Forall_app. split; [exact Hh|]. now repeat constructor. }
  destruct (srv_select srv h name true) as [messages|err].
  - destruct (messages =? 0)%Z.
    + injection Hrun as <- <-. exact Hh'.
    + eapply scanBatches_events; eauto.
  - injection Hrun as <- <-. exact Hh'.
Qed.

Lemma scanAll_events (fuel : nat) (srv : Server) (mailboxes : list string)
    (allEmails : list EmailInfo) (h : list Event) (all : list EmailInfo) (h' : list Event) :
  (forall name, In name mailboxes -> P (ESelect name true)) ->
  scanAll fuel srv mailboxes allEmails h = Some (all, h') ->
  Forall P h -> Forall P h'.
Proof.
  revert allEmails h. induction mailboxes as [|mailbox rest IH];
    intros allEmails h Hsel Hrun Hh.
  - injection Hrun as <- <-. exact Hh.
  - cbn [scanAll] in Hrun.
    destruct (scanMailbox fuel srv mailbox h) as [[[emails|err] h1]|] eqn:Hscan;
      [| |discriminate].
    all: eapply IH; [intros name Hn; apply Hsel; now right|exact Hrun|].
    all: eapply scanMailbox_events; [apply Hsel; now left|exact Hscan|exact Hh].
Qed.
End EventsOf.

(** The records of a scan carry the name of the mailbox scanned. *)
Lemma scanMessage_mailbox (name : string) (emails : list EmailInfo) (msg : option Message) :
  Forall (fun e => Mailbox e = name) emails ->
  Forall (fun e => Mailbox e = name) (scanMessage name emails msg).
Proof.
  intros Hall. unfold scanMessage. destruct msg as [msg|]; [|exact Hall].
  destruct (_ =? _)%nat; [exact Hall|].
  apply Forall_app. split; [exact Hall|]. now repeat constructor.
Qed.

Lemma scanBatches_mailbox (fuel : nat) (srv : Server) (name : string) (messages i : Z)
    (emails : list EmailInfo) (h : list Event) (found : list EmailInfo) (h' : list Event) :
  scanBatches fuel srv name messages i emails h = Some (Ok found, h') ->
  Forall (fun e => Mailbox e = name) emails ->
  Forall (fun e => Mailbox e = name) found.
Proof.
  revert i emails h. induction fuel as [|fuel IH]; intros i emails h Hrun Hall; [discriminate|].
  cbn [scanBatches] in Hrun.
  destruct (i <=? messages)%Z; [|injection Hrun as <- <-; exact Hall].
  match type of Hrun with
  | context [srv_fetch srv h ?f ?t] =>
      destruct (srv_fetch srv h f t) as [delivered [err|]] eqn:Hfetch
  end; [discriminate|].
  eapply IH; [exact Hrun|].
  clear Hrun Hfetch. revert emails Hall.
  induction delivered as [|msg delivered IHd]; intros emails Hall; [exact Hall|].
  cbn [fold_left]. apply IHd. now apply scanMessage_mailbox.
Qed.

Lemma scanMailbox_mailbox (fuel : nat) (srv : Server) (name : string) (h : list Event)
    (found : list EmailInfo) (h' : list Event) :
  scanMailbox fuel srv name h = Some (Ok found, h') ->
  Forall (fun e => Mailbox e = name) found.
Proof.
  unfold scanMailbox. intros Hscan.
  destruct (srv_select srv h name true) as [messages|]; [|discriminate].
  destruct (messages =? 0)%Z; [injection Hscan as <- <-; constructor|].
  eapply scanBatches_mailbox; [exact Hscan|constructor].
Qed.

Lemma scanAll_mailboxes (fuel : nat) (srv : Server) (mailboxes : list string)
    (allEmails : list EmailInfo) (h : list Event) (all : list EmailInfo) (h' : list Event) :
  scanAll fuel srv mailboxes allEmails h = Some (all, h') ->
  exists more, all = allEmails ++ more /\
               Forall (fun e => In (Mailbox e) mailboxes) more.
Proof.
  revert allEmails h. induction mailboxes as [|mailbox rest IH]; intros allEmails h Hrun.
  - injection Hrun as <- <-. exists []. split; [now rewrite app_nil_r|constructor].
  - cbn [scanAll] in Hrun.
    destruct (scanMailbox fuel srv mailbox h) as [[[emails|err] h1]|] eqn:Hscan;
      [| |discriminate].
    + apply scanMailbox_mailbox in Hscan.
      apply IH in Hrun as (more & -> & Hmore).
      exists (emails ++ more). split; [now rewrite app_assoc|].
      apply Forall_app. split.
      * eapply Forall_impl; [exact Hscan|]. intros e He. now left.
      * eapply Forall_impl; [exact Hmore|]. intros e He. now right.
    + apply IH in Hrun as (more & -> & Hmore). exists more. split; [reflexivity|].
      eapply Forall_impl; [exact Hmore|]. intros e He. now right.
Qed.

(** The events of the deletion loop. *)
Lemma deleteEmail_attempt (srv : Server) (email : EmailInfo) (h : list Event) :
  exists n, 1 <= n <= 3 /\
            snd (deleteEmail srv email h) = h ++ take n (attemptOf email).
Proof.
  unfold deleteEmail, attemptOf.
  destruct (srv_select srv h (Mailbox email) false).
  - destruct (srv_uidstore srv _ (Uid email)).
    + exists 2. split; [lia|]. cbn. now rewrite <- app_assoc.
    + destruct (srv_expunge srv _); exists 3; (split; [lia|]); cbn;
        now rewrite <- !app_assoc.
  - exists 1. split; [lia|reflexivity].
Qed.

Lemma executeAll_attempts (srv : Server) (plannedDeletes : list EmailInfo) (h : list Event) :
  exists new, snd (executeAll srv plannedDeletes h) = h ++ new /\
              AttemptsOf plannedDeletes new.
Proof.
  revert h. induction plannedDeletes as [|email rest IH]; intros h; cbn [executeAll].
  - exists []. split; [now rewrite app_nil_r|constructor].
  - destruct (deleteEmail_attempt srv email h) as (n & Hn & Hh).
    destruct (deleteEmail srv email h) as [status h1]. cbn [snd] in Hh. subst h1.
    destruct (IH (h ++ take n (attemptOf email))) as (new & Hnew & Hatt).
    exists (take n (attemptOf email) ++ new).
    split; [|now constructor].
    rewrite app_assoc, <- Hnew.
    destruct status; [|reflexivity].
    now destruct (executeAll srv rest (h ++ take n (attemptOf email))).
Qed.

Lemma AttemptsOf_events (P : Event -> Prop) (plannedDeletes : list EmailInfo)
    (new : list Event) :
  AttemptsOf plannedDeletes new ->
  (forall email, In email plannedDeletes -> Forall P (attemptOf email)) ->
  Forall P new.
Proof.
  induction 1 as [|email rest n events Hn Hatt IH]; intros HP; [constructor|].
  apply Forall_app. split.
  - apply Forall_take. apply HP. now left.
  - apply IH. intros e He. apply HP. now right.
Qed.

(** The ways out of [main] but the last. *)
Lemma main_cases (fuel : nat) (dryRun autoMode : bool) (env : Env) (srv : Server)
    (stdin : list Line) (exit : Exit) (h : list Event) :
  main fuel dryRun autoMode env srv stdin = Some (exit, h) ->
  (* before the scan *)
  ((exists msg, exit = Fatal msg) /\ Forall (fun e => session e = true) h) \/
  exists imap h0 mailboxes h1 allEmails h2 plan,
    connectIMAP srv env [] = (Ok imap, h0) /\
    listMailboxes srv imap h0 = (Ok mailboxes, h1) /\
    scanAll fuel srv mailboxes [] h1 = Some (allEmails, h2) /\
    (forall e, In e plan -> In e allEmails) /\
    ((h = h2 ++ [ELogout] /\ (forall errs, exit <> Completed errs)) \/
     (dryRun = false /\ plan <> [] /\
      h = snd (executeAll srv plan h2) ++ [ELogout] /\
      exit = Completed (fst (executeAll srv plan h2)))).
Proof.
  unfold main. intros Hmain.
  destruct (dotenv env); [injection Hmain as <- <-; left; split; [eauto|constructor]|].
  destruct (connectIMAP srv env []) as [[imap|err] h0] eqn:Hconn.
  2:{ injection Hmain as <- <-. left. split; [eauto|].
      eapply (connectIMAP_events (fun e => session e = true)); [auto|exact Hconn|constructor]. }
  destruct (listMailboxes srv imap h0) as [[mailboxes|err] h1] eqn:Hlist.
  2:{ injection Hmain as <- <-. left. split; [eauto|].
      eapply (listMailboxes_events (fun e => session e = true)); [auto|exact Hlist|].
      eapply (connectIMAP_events (fun e => session e = true)); [auto|exact Hconn|constructor]. }
  destruct (scanAll fuel srv mailboxes [] h1) as [[allEmails h2]|] eqn:Hscan; [|discriminate].
  right. exists imap, h0, mailboxes, h1, allEmails, h2.
  destruct (planLoop (findDuplicates allEmails) 0 _ dryRun autoMode stdin [])
    as [[plan stdin1]|] eqn:Hplan.
  2:{ injection Hmain as <- <-. exists [].
      do 3 (split; [first [assumption|reflexivity]|]). split; [intros e []|].
      left. split; [reflexivity|discriminate]. }
  exists plan. do 3 (split; [first [assumption|reflexivity]|]).
  split.
  { assert (Hwf : forall group, In group (findDuplicates allEmails) ->
                    PlanFacts.wellFormed group /\
                    Emails group = bucketOf (GroupHash group) allEmails).
    { intros group Hg. apply delete_findDuplicates_In in Hg as (_ & Hb & Hlen).
      split; [split|exact Hb].
      - intros Hnil. rewrite Hnil in Hlen. simpl in Hlen. lia.
      - rewrite Hb. apply Forall_forall. intros e He. apply list_elem_of_In in He.
        apply filter_In in He as [_ He]. now apply String.eqb_eq. }
    destruct (planLoop_within_allowance _ _ _ _ _ _ _ _ _
                (fun g Hg => proj1 (Hwf g Hg)) Hplan) as [Hin _].
    intros e He. destruct (Hin e He) as [[]|(group & Hg & Hge)].
    rewrite (proj2 (Hwf group Hg)) in Hge. now apply filter_In in Hge. }
  destruct (length plan =? 0)%nat eqn:Hlen.
  { injection Hmain as <- <-. left. split; [reflexivity|discriminate]. }
  destruct dryRun.
  { injection Hmain as <- <-. left. split; [reflexivity|discriminate]. }
  destruct (confirmActions stdin1) as [yes stdin2].
  destruct yes; cbn [negb] in Hmain.
  - destruct (executeAll srv plan h2) as [errs h3]. injection Hmain as <- <-.
    right. repeat split. intros ->. discriminate.
  - injection Hmain as <- <-. left. split; [reflexivity|discriminate].
Qed.
End RunEvents.

Section RunSafety.
Import Go DeleteDuplicates Traces.
Context `{H256 : Sha256} `{R : MapRange} `{U : Unicode}.

Lemma session_reads (e : Event) : session e = true -> writes e = false.
Proof. now destruct e. Qed.

(** X2.  In a run of the delete variant that ends in any way other than
    after the deletion loop, no mailbox is selected for writing, no
    message is flagged as deleted and nothing is expunged; and a dry
    run never reaches the deletion loop. *)
Theorem main_writes_only_after_confirmation (fuel : nat) (dryRun autoMode : bool)
    (env : Env) (srv : Server) (stdin : list Line) (exit : Exit) (h : list Event) :
  main fuel dryRun autoMode env srv stdin = Some (exit, h) ->
  (dryRun = true -> forall errs, exit <> Completed errs) /\
  ((forall errs, exit <> Completed errs) -> Forall (fun e => writes e = false) h).
Proof.
  intros Hmain.
  destruct (main_cases _ _ _ _ _ _ _ _ Hmain)
    as [[[msg ->] Hh]|(imap & h0 & mailboxes & h1 & allEmails & h2 & plan
                        & Hconn & Hlist & Hscan & _ & Hend)].
  - split; [discriminate|]. intros _. eapply Forall_impl; [exact Hh|].
    apply session_reads.
  - assert (Hquiet : Forall (fun e => writes e = false) (h2 ++ [ELogout])).
    { apply Forall_app. split; [|now repeat constructor].
      eapply (scanAll_events _ session_reads); [|exact Hscan|]; [reflexivity|].
      eapply (listMailboxes_events _ session_reads); [exact Hlist|].
      eapply (connectIMAP_events _ session_reads); [exact Hconn|constructor]. }
    destruct Hend as [[-> Hexit]|(Hdry & _ & _ & ->)].
    + split; [intros _; exact Hexit|intros _; exact Hquiet].
    + split; [intros ->; discriminate|]. intros Hne. now destruct (Hne (fst (executeAll srv plan h2))).
Qed.

Lemma deleteEmail_attempted (srv : Server) (email : EmailInfo) (h : list Event) :
  Attempted srv email h (fst (deleteEmail srv email h)) (snd (deleteEmail srv email h)).
Proof.
  unfold deleteEmail.
  destruct (srv_select srv h (Mailbox email) false) as [messages|err] eqn:Hsel;
    [|now apply SelectRefused].
  destruct (srv_uidstore srv _ (Uid email)) as [err|] eqn:Hstore;
    [eapply StoreRefused; eauto|].
  destruct (srv_expunge srv _) as [err|] eqn:Hexp;
    [eapply ExpungeRefused; eauto|eapply AllAccepted; eauto].
Qed.

(** X3.  The deletion loop makes one attempt for every planned record,
    in the order of the plan, whatever the outcome of the attempts
    before.  An attempt sends the select for writing of the record's
    mailbox, then the store of the deleted flag on the record's UID,
    then the expunge, and stops at the first of them that the server
    refuses, with the error of that command; when the server accepts
    all three the record adds no error.  The loop sends nothing else,
    and reports the errors in the order of the plan, at most one for
    each record. *)
Theorem executeAll_one_attempt_per_record (srv : Server) (plannedDeletes : list EmailInfo)
    (h : list Event) :
  AllAttempted srv plannedDeletes h
    (fst (executeAll srv plannedDeletes h)) (snd (executeAll srv plannedDeletes h)) /\
  (exists new,
      snd (executeAll srv plannedDeletes h) = h ++ new /\
      AttemptsOf plannedDeletes new) /\
  length (fst (executeAll srv plannedDeletes h)) <= length plannedDeletes.
Proof.
  split; [|split; [apply executeAll_attempts|]].
  - revert h. induction plannedDeletes as [|email rest IH]; intros h; cbn [executeAll].
    { constructor. }
    pose proof (deleteEmail_attempted srv email h) as Hone.
    destruct (deleteEmail srv email h) as [[err|] h1]; cbn [fst snd] in Hone.
    + specialize (IH h1). destruct (executeAll srv rest h1) as [errs h2].
      cbn [fst snd] in *.
      exact (AllAttemptedNext srv email rest h (Some err) h1 errs h2 Hone IH).
    + exact (AllAttemptedNext srv email rest h None h1 _ _ Hone (IH h1)).
  - revert h. induction plannedDeletes as [|email rest IH]; intros h; cbn [executeAll].
    { simpl. lia. }
    destruct (deleteEmail srv email h) as [[err|] h1].
    + specialize (IH h1). destruct (executeAll srv rest h1) as [errs h2].
      simpl in *. lia.
    + specialize (IH h1). simpl. lia.
Qed.

(** X4.  Every mailbox a run of the delete variant selects, for reading
    or for writing, is a folder that is not on the exclusion list and,
    when a target folder is set, has a name that starts with it. *)
Theorem main_selects_only_admitted_folders (fuel : nat) (dryRun autoMode : bool)
    (env : Env) (srv : Server) (stdin : list Line) (exit : Exit) (h : list Event)
    (name : string) (readOnly : bool) :
  main fuel dryRun autoMode env srv stdin = Some (exit, h) ->
  In (ESelect name readOnly) h ->
  isExcludedFolder {| targetFolder := TARGET_FOLDER env;
                      excludedFolders := defaultExcludedFolders |} name = false /\
  (TARGET_FOLDER env = "" \/ HasPrefix name (TARGET_FOLDER env) = true).
Proof.
  intros Hmain Hin.
  destruct (main_cases _ _ _ _ _ _ _ _ Hmain)
    as [[_ Hh]|(imap & h0 & mailboxes & h1 & allEmails & h2 & plan
                 & Hconn & Hlist & Hscan & Hplan & Hend)].
  { rewrite Forall_forall in Hh. apply list_elem_of_In, Hh in Hin. discriminate. }
  set (P := fun e => match e with ESelect n _ => In n mailboxes | _ => True end).
  assert (Psession : forall e, session e = true -> P e) by (now intros []).
  assert (Hh2 : Forall P h2).
  { eapply (scanAll_events _ Psession); [|exact Hscan|]; [intros n Hn; exact Hn|].
    eapply (listMailboxes_events _ Psession); [exact Hlist|].
    eapply (connectIMAP_events _ Psession); [exact Hconn|constructor]. }
  assert (Hh : Forall P h).
  { destruct Hend as [[-> _]|(_ & _ & -> & _)].
    - apply Forall_app. split; [exact Hh2|now repeat constructor].
    - destruct (executeAll_attempts srv plan h2) as (new & -> & Hatt).
      repeat (apply Forall_app; split); [exact Hh2| |now repeat constructor].
      eapply AttemptsOf_events; [exact Hatt|]. intros email He.
      destruct (scanAll_mailboxes _ _ _ _ _ _ _ Hscan) as (more & -> & Hmore).
      rewrite Forall_forall in Hmore.
      repeat constructor. apply Hmore, list_elem_of_In, Hplan, He. }
  rewrite Forall_forall in Hh. apply list_elem_of_In, Hh in Hin. cbn in Hin.
  assert (Himap : imap = {| targetFolder := TARGET_FOLDER env;
                            excludedFolders := defaultExcludedFolders |}).
  { unfold connectIMAP in Hconn. destruct (srv_dial srv [] _); [discriminate|].
    destruct (srv_login srv _ _ _); [discriminate|]. now injection Hconn as <- _. }
  assert (Hpass : passesFilters imap name = true).
  { unfold listMailboxes in Hlist. destruct (srv_list srv h0) as [names [err|]];
      [discriminate|]. rewrite fold_listStep in Hlist. cbn [app] in Hlist.
    destruct (_ && _); [discriminate|]. injection Hlist as <- _.
    now apply filter_In in Hin. }
  rewrite Himap in Hpass. unfold passesFilters in Hpass.
  apply andb_true_iff in Hpass as [Hex Htarget]. split.
  - unfold isExcludedFolder. rewrite containsAny_forallb. cbn [excludedFolders] in *.
    now rewrite Hex.
  - cbn [targetFolder] in Htarget. apply orb_true_iff in Htarget as [Ht|Ht];
      [left; now apply String.eqb_eq|now right].
Qed.
End RunSafety.

(** A dry run on the server with three folders ends with the summary of
    the plan and has written nothing. *)
Lemma main_writes_only_after_confirmation_witness :
  exists exit h,
    @DeleteDuplicates.main Go.plainDigest listedRange Go.asciiUnicode 5 true true
      DeleteDuplicates.someEnv DeleteDuplicates.patchyServer []
    = Some (exit, h) /\
    (true = true -> forall errs, exit <> DeleteDuplicates.Completed errs) /\
    ((forall errs, exit <> DeleteDuplicates.Completed errs) ->
     Forall (fun e => Traces.writes e = false) h).
Proof.
  eexists _, _. split; [vm_compute; reflexivity|].
  apply (@main_writes_only_after_confirmation Go.plainDigest listedRange Go.asciiUnicode
           5 true true DeleteDuplicates.someEnv DeleteDuplicates.patchyServer []).
  vm_compute. reflexivity.
Defined.

(** The run selects INBOX, which passes both tests. *)
Lemma main_selects_only_admitted_folders_witness :
  @DeleteDuplicates.isExcludedFolder Go.asciiUnicode
    {| DeleteDuplicates.targetFolder := DeleteDuplicates.TARGET_FOLDER DeleteDuplicates.someEnv;
       DeleteDuplicates.excludedFolders := DeleteDuplicates.defaultExcludedFolders |}
    "INBOX" = false /\
  (DeleteDuplicates.TARGET_FOLDER DeleteDuplicates.someEnv = "" \/
   Go.HasPrefix "INBOX" (DeleteDuplicates.TARGET_FOLDER DeleteDuplicates.someEnv) = true).
Proof.
  eapply (@main_selects_only_admitted_folders Go.plainDigest listedRange Go.asciiUnicode
            5 false true DeleteDuplicates.someEnv DeleteDuplicates.patchyServer
            [DeleteDuplicates.typed "yes"] _ _ "INBOX" false).
  - vm_compute. reflexivity.
  - repeat (try (left; reflexivity); right).
Defined.

(** ** The windows of a scan *)

Section Windows.
Import Go Ranges.

Lemma map_seq_from {A : Type} (f : nat -> A) (m n : nat) :
  map f (seq n m) = map (fun k => f (k + n)) (seq 0 m).
Proof.
  revert n f. induction m as [|m IH]; intros n f; [reflexivity|].
  cbn [seq map]. f_equal. rewrite (IH (S n)), (IH 1).
  apply map_ext. intros k. f_equal. lia.
Qed.

Lemma numbers_nil (from to : Z) : (to < from)%Z -> numbers from to = [].
Proof.
  intros Hlt. unfold numbers. now replace (Z.to_nat (to - from + 1)) with 0 by lia.
Qed.

Lemma numbers_split (from mid to : Z) :
  (from <= mid + 1)%Z -> (mid <= to)%Z ->
  numbers from mid ++ numbers (mid + 1) to = numbers from to.
Proof.
  intros Hlo Hhi. unfold numbers.
  replace (Z.to_nat (to - from + 1))
    with (Z.to_nat (mid - from + 1) + Z.to_nat (to - (mid + 1) + 1)) by lia.
  rewrite seq_app, map_app. f_equal. cbn [Nat.add].
  rewrite (map_seq_from _ _ (Z.to_nat (mid - from + 1))).
  apply map_ext. intros k. lia.
Qed.

Lemma numbers_windows (i size messages : Z) (rest : list Z) :
  (0 < size)%Z -> (i <= messages)%Z ->
  rest = numbers (i + size) messages ->
  numbers i (if (i + size - 1 >? messages)%Z then messages else i + size - 1)%Z ++ rest
  = numbers i messages.
Proof.
  intros Hsize Hle ->. rewrite Z.gtb_ltb.
  destruct (Z.ltb_spec messages (i + size - 1)) as [Hlast|Hmore].
  - rewrite (numbers_nil (i + size) messages) by lia. apply app_nil_r.
  - rewrite <- (numbers_split i (i + size - 1) messages) by lia.
    do 2 f_equal. lia.
Qed.
End Windows.

Section DeleteWindows.
Import Go Ranges DeleteDuplicates Traces.
Context `{H256 : Sha256}.

Lemma delete_fetchRanges_app (h1 h2 : list Event) :
  fetchRanges (h1 ++ h2) = fetchRanges h1 ++ fetchRanges h2.
Proof. apply omap_app. Qed.

Lemma delete_fetchRanges_recv (delivered : list (option Message)) :
  fetchRanges (map (fun msg => ERecv (option_map MsgUid msg)) delivered) = [].
Proof. induction delivered as [|msg l IH]; [reflexivity|exact IH]. Qed.

Lemma delete_deliveredTo_recv (srv : Server) (delivered : list (option Message))
    (h rest : list Event) :
  deliveredTo srv h (map (fun msg => ERecv (option_map MsgUid msg)) delivered ++ rest)
  = deliveredTo srv (h ++ map (fun msg => ERecv (option_map MsgUid msg)) delivered) rest.
Proof.
  revert h. induction delivered as [|msg l IH]; intros h; cbn [map app deliveredTo].
  - now rewrite app_nil_r.
  - rewrite IH. now rewrite <- app_assoc.
Qed.

Lemma delete_fetchRanges_batch (from to : Z) (delivered : list (option Message))
    (status : option string) (new : list Event) :
  fetchRanges (EFetch from to :: map (fun msg => ERecv (option_map MsgUid msg)) delivered
                 ++ [EDone status] ++ new)
  = (from, to) :: fetchRanges new.
Proof.
  transitivity (fetchRanges ([EFetch from to]
                             ++ map (fun msg => ERecv (option_map MsgUid msg)) delivered
                             ++ [EDone status] ++ new)); [reflexivity|].
  rewrite !delete_fetchRanges_app, delete_fetchRanges_recv. reflexivity.
Qed.

(** One turn of the batch loop that goes on, and what it appends. *)
Lemma delete_scanBatches_turn (fuel : nat) (srv : Server) (name : string)
    (messages i : Z) (emails : list EmailInfo) (h : list Event)
    (found : list EmailInfo) (h' : list Event) :
  scanBatches (S fuel) srv name messages i emails h = Some (Ok found, h') ->
  ((i <=? messages)%Z = false /\ found = emails /\ h' = h) \/
  exists to delivered,
    (i <=? messages)%Z = true /\
    to = (if (u32 (i + batchSize - 1) >? messages)%Z
          then messages else u32 (i + batchSize - 1)) /\
    srv_fetch srv h i to = (delivered, None) /\
    scanBatches fuel srv name messages (u32 (i + batchSize))
      (fold_left (scanMessage name) delivered emails)
      (h ++ EFetch i to :: map (fun msg => ERecv (option_map MsgUid msg)) delivered
         ++ [EDone None])
    = Some (Ok found, h').
Proof.
  cbn [scanBatches]. intros Hrun.
  destruct (i <=? messages)%Z; [right|left; now injection Hrun as <- <-].
  match type of Hrun with
  | context [srv_fetch srv h ?f ?t] =>
      destruct (srv_fetch srv h f t) as [delivered [err|]] eqn:Hfetch
  end; [discriminate|].
  eexists _, delivered. split; [reflexivity|]. split; [reflexivity|].
  split; [exact Hfetch|]. rewrite <- Hrun. f_equal.
  rewrite <- !app_assoc. reflexivity.
Qed.

Lemma delete_scanBatches_windows (fuel : nat) (srv : Server) (name : string)
    (messages i : Z) (emails : list EmailInfo) (h : list Event)
    (found : list EmailInfo) (h' : list Event) :
  (0 < i)%Z -> (messages + batchSize < 4294967296)%Z ->
  scanBatches fuel srv name messages i emails h = Some (Ok found, h') ->
  exists new,
    h' = h ++ new /\
    concat (map numbersOf (fetchRanges new)) = numbers i messages /\
    Forall (fun range => (fst range <= snd range < fst range + batchSize)%Z)
      (fetchRanges new).
Proof.
  intros Hi Hroom. revert i emails h Hi.
  induction fuel as [|fuel IH]; intros i emails h Hi Hrun; [discriminate|].
  apply delete_scanBatches_turn in Hrun
    as [(Hle & _ & ->)|(to & delivered & Hle & Hto & _ & Hrun)].
  - exists []. rewrite app_nil_r. split; [reflexivity|].
    split; [|constructor]. apply Z.leb_gt in Hle. now rewrite numbers_nil.
  - apply Z.leb_le in Hle. unfold batchSize in *.
    assert (Hu1 : u32 (i + 50 - 1) = (i + 50 - 1)%Z) by (apply Z.mod_small; lia).
    assert (Hu2 : u32 (i + 50) = (i + 50)%Z) by (apply Z.mod_small; lia).
    rewrite Hu1 in Hto. rewrite Hu2 in Hrun.
    apply IH in Hrun as (new & -> & Hcover & Hwidth); [|lia].
    exists (EFetch i to :: map (fun msg => ERecv (option_map MsgUid msg)) delivered
              ++ [EDone None] ++ new).
    split; [rewrite <- app_assoc; cbn [app]; now rewrite <- app_assoc|].
    rewrite delete_fetchRanges_batch. split.
    + cbn [map concat numbersOf fst snd]. rewrite Hto.
      apply numbers_windows; [lia|exact Hle|now symmetry].
    + constructor; [|exact Hwidth]. cbn [fst snd]. rewrite Hto, Z.gtb_ltb.
      destruct (Z.ltb_spec messages (i + 50 - 1)); lia.
Qed.

Lemma delete_scanBatches_delivered (fuel : nat) (srv : Server) (name : string)
    (messages i : Z) (emails : list EmailInfo) (h : list Event)
    (found : list EmailInfo) (h' : list Event) :
  scanBatches fuel srv name messages i emails h = Some (Ok found, h') ->
  exists new,
    h' = h ++ new /\
    found = fold_left (scanMessage name) (deliveredTo srv h new) emails.
Proof.
  revert i emails h.
  induction fuel as [|fuel IH]; intros i emails h Hrun; [discriminate|].
  apply delete_scanBatches_turn in Hrun
    as [(_ & -> & ->)|(to & delivered & _ & _ & Hfetch & Hrun)].
  - exists []. now rewrite app_nil_r.
  - apply IH in Hrun as (new & -> & ->).
    exists (EFetch i to :: map (fun msg => ERecv (option_map MsgUid msg)) delivered
              ++ [EDone None] ++ new).
    split; [rewrite <- app_assoc; cbn [app]; now rewrite <- app_assoc|].
    cbn [deliveredTo]. rewrite Hfetch. cbn [fst].
    rewrite delete_deliveredTo_recv. cbn [app deliveredTo].
    rewrite fold_left_app. do 2 f_equal.
    now rewrite <- !app_assoc.
Qed.

Lemma delete_scanBatches_endless (fuel : nat) (srv : Server) (name : string)
    (i : Z) (emails : list EmailInfo) (h : list Event) :
  (forall h0 from to, snd (srv_fetch srv h0 from to) = None) ->
  (0 <= i < 4294967296)%Z ->
  scanBatches fuel srv name 4294967295 i emails h = None.
Proof.
  intros Hfetch. revert i emails h.
  induction fuel as [|fuel IH]; intros i emails h Hi; [reflexivity|].
  cbn [scanBatches].
  replace (i <=? 4294967295)%Z with true by (symmetry; apply Z.leb_le; lia).
  match goal with
  | |- context [srv_fetch srv h ?f ?t] =>
      pose proof (Hfetch h f t) as Hnone;
      destruct (srv_fetch srv h f t) as [delivered status]
  end.
  cbn [snd] in Hnone. subst status. apply IH.
  unfold u32. apply Z.mod_pos_bound. lia.
Qed.
End DeleteWindows.

Section MoveWindows.
Import Go Ranges MoveDuplicates.
Context `{H256 : Sha256}.

Lemma move_fetchRanges_app (h1 h2 : list Event) :
  moveFetchRanges (h1 ++ h2) = moveFetchRanges h1 ++ moveFetchRanges h2.
Proof. apply omap_app. Qed.

Lemma move_fetchRanges_recv (delivered : list Message) :
  moveFetchRanges (map (fun msg => ERecv (MsgUid msg)) delivered) = [].
Proof. induction delivered as [|msg l IH]; [reflexivity|exact IH]. Qed.

Lemma move_deliveredTo_recv (srv : Server) (delivered : list Message)
    (h rest : list Event) :
  moveDeliveredTo srv h (map (fun msg => ERecv (MsgUid msg)) delivered ++ rest)
  = moveDeliveredTo srv (h ++ map (fun msg => ERecv (MsgUid msg)) delivered) rest.
Proof.
  revert h. induction delivered as [|msg l IH]; intros h; cbn [map app moveDeliveredTo].
  - now rewrite app_nil_r.
  - rewrite IH. now rewrite <- app_assoc.
Qed.

Lemma move_fetchRanges_batch (from to : Z) (delivered : list Message)
    (status : option string) (new : list Event) :
  moveFetchRanges (EFetch from to :: map (fun msg => ERecv (MsgUid msg)) delivered
                 ++ [EDone status] ++ new)
  = (from, to) :: moveFetchRanges new.
Proof.
  transitivity (moveFetchRanges ([EFetch from to]
                             ++ map (fun msg => ERecv (MsgUid msg)) delivered
                             ++ [EDone status] ++ new)); [reflexivity|].
  rewrite !move_fetchRanges_app, move_fetchRanges_recv. reflexivity.
Qed.

(** One turn of the batch loop that goes on, and what it appends. *)
Lemma move_scanBatches_turn (fuel : nat) (srv : Server) (name : string)
    (messages i : Z) (emails : list EmailInfo) (h : list Event)
    (found : list EmailInfo) (h' : list Event) :
  scanBatches (S fuel) srv name messages i emails h = Some (Ok found, h') ->
  ((i <=? messages)%Z = false /\ found = emails /\ h' = h) \/
  exists to delivered,
    (i <=? messages)%Z = true /\
    to = (if (u32 (i + batchSize - 1) >? messages)%Z
          then messages else u32 (i + batchSize - 1)) /\
    srv_fetch srv h i to = (delivered, None) /\
    scanBatches fuel srv name messages (u32 (i + batchSize))
      (fold_left (scanMessage name) delivered emails)
      (h ++ EFetch i to :: map (fun msg => ERecv (MsgUid msg)) delivered
         ++ [EDone None])
    = Some (Ok found, h').
Proof.
  cbn [scanBatches]. intros Hrun.
  destruct (i <=? messages)%Z; [right|left; now injection Hrun as <- <-].
  match type of Hrun with
  | context [srv_fetch srv h ?f ?t] =>
      destruct (srv_fetch srv h f t) as [delivered [err|]] eqn:Hfetch
  end; [discriminate|].
  eexists _, delivered. split; [reflexivity|]. split; [reflexivity|].
  split; [exact Hfetch|]. rewrite <- Hrun. f_equal.
  rewrite <- !app_assoc. reflexivity.
Qed.

Lemma move_scanBatches_windows (fuel : nat) (srv : Server) (name : string)
    (messages i : Z) (emails : list EmailInfo) (h : list Event)
    (found : list EmailInfo) (h' : list Event) :
  (0 < i)%Z -> (messages + batchSize < 4294967296)%Z ->
  scanBatches fuel srv name messages i emails h = Some (Ok found, h') ->
  exists new,
    h' = h ++ new /\
    concat (map numbersOf (moveFetchRanges new)) = numbers i messages /\
    Forall (fun range => (fst range <= snd range < fst range + batchSize)%Z)
      (moveFetchRanges new).
Proof.
  intros Hi Hroom. revert i emails h Hi.
  induction fuel as [|fuel IH]; intros i emails h Hi Hrun; [discriminate|].
  apply move_scanBatches_turn in Hrun
    as [(Hle & _ & ->)|(to & delivered & Hle & Hto & _ & Hrun)].
  - exists []. rewrite app_nil_r. split; [reflexivity|].
    split; [|constructor]. apply Z.leb_gt in Hle. now rewrite numbers_nil.
  - apply Z.leb_le in Hle. unfold batchSize in *.
    assert (Hu1 : u32 (i + 100 - 1) = (i + 100 - 1)%Z) by (apply Z.mod_small; lia).
    assert (Hu2 : u32 (i + 100) = (i + 100)%Z) by (apply Z.mod_small; lia).
    rewrite Hu1 in Hto. rewrite Hu2 in Hrun.
    apply IH in Hrun as (new & -> & Hcover & Hwidth); [|lia].
    exists (EFetch i to :: map (fun msg => ERecv (MsgUid msg)) delivered
              ++ [EDone None] ++ new).
    split; [rewrite <- app_assoc; cbn [app]; now rewrite <- app_assoc|].
    rewrite move_fetchRanges_batch. split.
    + cbn [map concat numbersOf fst snd]. rewrite Hto.
      apply numbers_windows; [lia|exact Hle|now symmetry].
    + constructor; [|exact Hwidth]. cbn [fst snd]. rewrite Hto, Z.gtb_ltb.
      destruct (Z.ltb_spec messages (i + 100 - 1)); lia.
Qed.

Lemma move_scanBatches_delivered (fuel : nat) (srv : Server) (name : string)
    (messages i : Z) (emails : list EmailInfo) (h : list Event)
    (found : list EmailInfo) (h' : list Event) :
  scanBatches fuel srv name messages i emails h = Some (Ok found, h') ->
  exists new,
    h' = h ++ new /\
    found = fold_left (scanMessage name) (moveDeliveredTo srv h new) emails.
Proof.
  revert i emails h.
  induction fuel as [|fuel IH]; intros i emails h Hrun; [discriminate|].
  apply move_scanBatches_turn in Hrun
    as [(_ & -> & ->)|(to & delivered & _ & _ & Hfetch & Hrun)].
  - exists []. now rewrite app_nil_r.
  - apply IH in Hrun as (new & -> & ->).
    exists (EFetch i to :: map (fun msg => ERecv (MsgUid msg)) delivered
              ++ [EDone None] ++ new).
    split; [rewrite <- app_assoc; cbn [app]; now rewrite <- app_assoc|].
    cbn [moveDeliveredTo]. rewrite Hfetch. cbn [fst].
    rewrite move_deliveredTo_recv. cbn [app moveDeliveredTo].
    rewrite fold_left_app. do 2 f_equal.
    now rewrite <- !app_assoc.
Qed.

Lemma move_scanBatches_endless (fuel : nat) (srv : Server) (name : string)
    (i : Z) (emails : list EmailInfo) (h : list Event) :
  (forall h0 from to, snd (srv_fetch srv h0 from to) = None) ->
  (0 <= i < 4294967296)%Z ->
  scanBatches fuel srv name 4294967295 i emails h = None.
Proof.
  intros Hfetch. revert i emails h.
  induction fuel as [|fuel IH]; intros i emails h Hi; [reflexivity|].
  cbn [scanBatches].
  replace (i <=? 4294967295)%Z with true by (symmetry; apply Z.leb_le; lia).
  match goal with
  | |- context [srv_fetch srv h ?f ?t] =>
      pose proof (Hfetch h f t) as Hnone;
      destruct (srv_fetch srv h f t) as [delivered status]
  end.
  cbn [snd] in Hnone. subst status. apply IH.
  unfold u32. apply Z.mod_pos_bound. lia.
Qed.
End MoveWindows.

Section Scans.
Import Go Ranges.
Context `{H256 : Sha256}.

(** X5.  In both variants, when the select reports a number of messages
    that leaves room for one more batch below 2^32 and the scan returns
    records, the ranges it asked for, laid end to end, are the sequence
    numbers 1, 2, ... up to the number of messages, each once and in
    ascending order, and no range holds more numbers than the batch
    size (50 in the delete variant, 100 in the move variant). *)
Theorem scanMailbox_windows_cover_mailbox :
  (forall fuel srv name h messages found h',
      DeleteDuplicates.srv_select srv h name true = Ok messages ->
      (0 <= messages)%Z -> (messages + DeleteDuplicates.batchSize < 4294967296)%Z ->
      DeleteDuplicates.scanMailbox fuel srv name h = Some (Ok found, h') ->
      exists new,
        h' = h ++ DeleteDuplicates.ESelect name true :: new /\
        concat (map numbersOf (Traces.fetchRanges new)) = numbers 1 messages /\
        Forall (fun range =>
                  (fst range <= snd range < fst range + DeleteDuplicates.batchSize)%Z)
          (Traces.fetchRanges new)) /\
  (forall fuel srv name h messages found h',
      MoveDuplicates.srv_select srv h name true = Ok messages ->
      (0 <= messages)%Z -> (messages + MoveDuplicates.batchSize < 4294967296)%Z ->
      MoveDuplicates.scanMailbox fuel srv name h = Some (Ok found, h') ->
      exists new,
        h' = h ++ MoveDuplicates.ESelect name true :: new /\
        concat (map numbersOf (moveFetchRanges new)) = numbers 1 messages /\
        Forall (fun range =>
                  (fst range <= snd range < fst range + MoveDuplicates.batchSize)%Z)
          (moveFetchRanges new)).
Proof.
  split; intros fuel srv name h messages found h' Hsel Hpos Hroom Hrun.
  - unfold DeleteDuplicates.scanMailbox in Hrun. rewrite Hsel in Hrun.
    destruct (Z.eqb_spec messages 0) as [->|Hne].
    + injection Hrun as <- <-. exists []. repeat split; constructor.
    + apply delete_scanBatches_windows in Hrun as (new & -> & Hcover & Hwidth);
        [|lia|exact Hroom].
      exists new. rewrite <- app_assoc. auto.
  - unfold MoveDuplicates.scanMailbox in Hrun. rewrite Hsel in Hrun.
    destruct (Z.eqb_spec messages 0) as [->|Hne].
    + injection Hrun as <- <-. exists []. repeat split; constructor.
    + apply move_scanBatches_windows in Hrun as (new & -> & Hcover & Hwidth);
        [|lia|exact Hroom].
      exists new. rewrite <- app_assoc. auto.
Qed.

(** X6.  In both variants the records a scan returns are those its
    loop body makes, starting from none, of all the messages the
    retrievals delivered, taken in the order of delivery: no delivered
    message is looked at twice or out of order, and none is left out
    but by the loop body itself. *)
Theorem scanMailbox_records_follow_delivery :
  (forall fuel srv name h found h',
      DeleteDuplicates.scanMailbox fuel srv name h = Some (Ok found, h') ->
      exists new,
        h' = h ++ DeleteDuplicates.ESelect name true :: new /\
        found = fold_left (DeleteDuplicates.scanMessage name)
                  (Traces.deliveredTo srv (h ++ [DeleteDuplicates.ESelect name true]) new)
                  []) /\
  (forall fuel srv name h found h',
      MoveDuplicates.scanMailbox fuel srv name h = Some (Ok found, h') ->
      exists new,
        h' = h ++ MoveDuplicates.ESelect name true :: new /\
        found = fold_left (MoveDuplicates.scanMessage name)
                  (moveDeliveredTo srv (h ++ [MoveDuplicates.ESelect name true]) new)
                  []).
Proof.
  split; intros fuel srv name h found h' Hrun.
  - unfold DeleteDuplicates.scanMailbox in Hrun.
    destruct (DeleteDuplicates.srv_select srv h name true) as [messages|]; [|discriminate].
    destruct (messages =? 0)%Z.
    + injection Hrun as <- <-. now exists [].
    + apply delete_scanBatches_delivered in Hrun as (new & -> & ->).
      exists new. now rewrite <- app_assoc.
  - unfold MoveDuplicates.scanMailbox in Hrun.
    destruct (MoveDuplicates.srv_select srv h name true) as [messages|]; [|discriminate].
    destruct (messages =? 0)%Z.
    + injection Hrun as <- <-. now exists [].
    + apply move_scanBatches_delivered in Hrun as (new & -> & ->).
      exists new. now rewrite <- app_assoc.
Qed.

(** X7.  In both variants the batch counter is a [uint32] that wraps:
    on a mailbox that reports 4294967295 messages, and as long as no
    retrieval ends with an error, the scan does not return, however
    many turns of the loop it is given. *)
Theorem scanMailbox_wraps_at_uint32_max :
  (forall fuel srv name h,
      DeleteDuplicates.srv_select srv h name true = Ok 4294967295%Z ->
      (forall h0 from to, snd (DeleteDuplicates.srv_fetch srv h0 from to) = None) ->
      DeleteDuplicates.scanMailbox fuel srv name h = None) /\
  (forall fuel srv name h,
      MoveDuplicates.srv_select srv h name true = Ok 4294967295%Z ->
      (forall h0 from to, snd (MoveDuplicates.srv_fetch srv h0 from to) = None) ->
      MoveDuplicates.scanMailbox fuel srv name h = None).
Proof.
  split; intros fuel srv name h Hsel Hfetch.
  - unfold DeleteDuplicates.scanMailbox. rewrite Hsel. cbn [Z.eqb].
    apply delete_scanBatches_endless; [exact Hfetch|lia].
  - unfold MoveDuplicates.scanMailbox. rewrite Hsel. cbn [Z.eqb].
    apply move_scanBatches_endless; [exact Hfetch|lia].
Qed.
End Scans.

(** A mailbox of 120 messages is asked for in the ranges 1:50, 51:100
    and 101:120. *)
Lemma scanMailbox_windows_cover_mailbox_witness :
  exists found h',
    @DeleteDuplicates.scanMailbox Go.plainDigest 5 Ranges.largeMailbox "INBOX" []
    = Some (Go.Ok found, h') /\
    exists new,
      h' = [] ++ DeleteDuplicates.ESelect "INBOX" true :: new /\
      concat (map Ranges.numbersOf (Traces.fetchRanges new)) = Ranges.numbers 1 120 /\
      Forall (fun range =>
                (fst range <= snd range < fst range + DeleteDuplicates.batchSize)%Z)
        (Traces.fetchRanges new).
Proof.
  eexists _, _. split; [vm_compute; reflexivity|].
  eapply (proj1 (@scanMailbox_windows_cover_mailbox Go.plainDigest)
            5 Ranges.largeMailbox "INBOX" [] 120%Z).
  - reflexivity.
  - lia.
  - vm_compute. reflexivity.
  - vm_compute. reflexivity.
Defined.

Lemma scanMailbox_records_follow_delivery_witness :
  exists found h',
    @DeleteDuplicates.scanMailbox Go.plainDigest 5 Ranges.largeMailbox "INBOX" []
    = Some (Go.Ok found, h') /\
    exists new,
      h' = [] ++ DeleteDuplicates.ESelect "INBOX" true :: new /\
      found = fold_left (@DeleteDuplicates.scanMessage Go.plainDigest "INBOX")
                (Traces.deliveredTo Ranges.largeMailbox
                   ([] ++ [DeleteDuplicates.ESelect "INBOX" true]) new)
                [].
Proof.
  eexists _, _. split; [vm_compute; reflexivity|].
  apply (proj1 (@scanMailbox_records_follow_delivery Go.plainDigest)
           5 Ranges.largeMailbox "INBOX" []).
  vm_compute. reflexivity.
Defined.

(** A thousand turns are not enough. *)
Lemma scanMailbox_wraps_at_uint32_max_witness :
  @DeleteDuplicates.scanMailbox Go.plainDigest 1000 Ranges.endlessDelete "INBOX" [] = None.
Proof.
  apply (proj1 (@scanMailbox_wraps_at_uint32_max Go.plainDigest)
           1000 Ranges.endlessDelete "INBOX" []).
  - reflexivity.
  - intros h0 from to. reflexivity.
Defined.

(** ** What a deletion of a mailbox sends, and when it reports success *)

Section DeletionFacts.
Import Go DeleteFolder Deletion.
Variables (srv : Server) (im : IMAPManager) (name : string).

Lemma deleteSteps_Done (h h' : list Call) :
  deleteSteps srv name h = (Done, h') -> StepsSucceed srv name h h'.
Proof.
  unfold deleteSteps, onStepError. intros Hrun.
  destruct (srv_select srv h name false) as [n|err] eqn:Hs.
  2:{ destruct (Contains err _); discriminate. }
  destruct (0 <? n)%Z eqn:Hn.
  - apply Z.ltb_lt in Hn.
    destruct (srv_store srv _ 1 n) as [err|] eqn:Hst.
    { destruct (Contains err _); discriminate. }
    destruct (srv_expunge srv _) as [err|] eqn:Hex.
    { destruct (Contains err _); discriminate. }
    destruct (srv_delete srv _ name) as [err|] eqn:Hd.
    { destruct (Contains err _); discriminate. }
    injection Hrun as <-. eapply SucceedEmptied; eauto.
  - apply Z.ltb_ge in Hn.
    destruct (srv_delete srv _ name) as [err|] eqn:Hd.
    { destruct (Contains err _); discriminate. }
    injection Hrun as <-. eapply SucceedEmpty; eauto.
Qed.

(** X8.  [deleteMailbox] returns nil only when, in one of its three
    attempts, every step went through: the server accepted the select
    for writing, then, if the mailbox reported messages, the store of
    the deleted flag on all of them and the expunge, and last the
    deletion of the mailbox, which is the last call made. *)
Theorem deleteMailbox_nil_only_after_delete (h0 h' : list Call) :
  deleteMailbox srv im name h0 = (None, h') ->
  exists k hk,
    k < 3 /\ StartsAttempt srv im name h0 k hk /\ StepsSucceed srv name hk h'.
Proof.
  unfold deleteMailbox. cbn [seq deleteMailbox_from Nat.ltb Nat.leb]. intros Hrun.
  destruct (deleteSteps srv name h0) as [[| |e0] h1] eqn:S0; [| |discriminate].
  { injection Hrun as <-. exists 0, h0. split; [lia|].
    split; [constructor|now apply deleteSteps_Done]. }
  destruct (reconnect srv im h1) as [[e1|] h2] eqn:R1.
  - destruct (reconnect srv im (h2 ++ [CSleep 2])) as [[e2|] h3] eqn:R2; [discriminate|].
    destruct (deleteSteps srv name h3) as [[| |e3] h4] eqn:S2; [|discriminate..].
    injection Hrun as <-. exists 2, h3. split; [lia|].
    split; [|now apply deleteSteps_Done].
    eapply StartsAfterLostAttempt; [constructor|exact S0|exact R1|exact R2].
  - destruct (deleteSteps srv name h2) as [[| |e2] h3] eqn:S1; [| |discriminate].
    { injection Hrun as <-. exists 1, h2. split; [lia|].
      split; [|now apply deleteSteps_Done].
      eapply StartsAfterRetry; [constructor|exact S0|exact R1]. }
    destruct (reconnect srv im h3) as [[e3|] h4] eqn:R2; [discriminate|].
    destruct (deleteSteps srv name h4) as [[| |e4] h5] eqn:S2; [|discriminate..].
    injection Hrun as <-. exists 2, h4. split; [lia|].
    split; [|now apply deleteSteps_Done].
    eapply StartsAfterRetry; [|exact S1|exact R2].
    eapply StartsAfterRetry; [constructor|exact S0|exact R1].
Qed.
End DeletionFacts.

(** On the server whose sessions go stale the third attempt goes
    through. *)
Lemma deleteMailbox_nil_only_after_delete_witness :
  exists k hk,
    k < 3 /\
    DeleteFolder.StartsAttempt DeleteFolder.staleServer DeleteFolder.someManager "Old" [] k hk /\
    Deletion.StepsSucceed DeleteFolder.staleServer "Old" hk
      (snd (DeleteFolder.deleteMailbox DeleteFolder.staleServer DeleteFolder.someManager
              "Old" [])).
Proof.
  apply (deleteMailbox_nil_only_after_delete DeleteFolder.staleServer
           DeleteFolder.someManager "Old" []).
  vm_compute. reflexivity.
Defined.

Section DeletionFootprint.
Import Go DeleteFolder Deletion.
Variables (srv : Server) (im : IMAPManager) (name : string).

Lemma Adds_refl (h : list Call) : Adds im name h h 0 0 0.
Proof. exists []. rewrite app_nil_r. repeat split; auto. Qed.

Lemma Adds_trans (h1 h2 h3 : list Call) (s1 d1 x1 s2 d2 x2 : nat) :
  Adds im name h1 h2 s1 d1 x1 -> Adds im name h2 h3 s2 d2 x2 -> Adds im name h1 h3 (s1 + s2) (d1 + d2) (x1 + x2).
Proof.
  intros (n1 & -> & Ha1 & Hs1 & Hd1 & Hx1) (n2 & -> & Ha2 & Hs2 & Hd2 & Hx2).
  exists (n1 ++ n2). rewrite app_assoc. split; [reflexivity|].
  split; [now apply Forall_app|].
  unfold countSelects, countDials, countDeletes in *.
  rewrite !List.filter_app, !length_app. lia.
Qed.

Lemma Adds_weaken (h h' : list Call) (s d x s' d' x' : nat) :
  Adds im name h h' s d x -> s <= s' -> d <= d' -> x <= x' -> Adds im name h h' s' d' x'.
Proof.
  intros (new & -> & Ha & Hs & Hd & Hx) ? ? ?. exists new. repeat split; auto; lia.
Qed.

Lemma Adds_one (h : list Call) (c : Call) :
  allowed im name c ->
  Adds im name h (h ++ [c])
    (match c with CSelect _ _ => 1 | _ => 0 end)
    (match c with CDialTLS _ => 1 | _ => 0 end)
    (match c with CDelete _ => 1 | _ => 0 end).
Proof.
  intros Hc. exists [c]. split; [reflexivity|]. split; [now repeat constructor|].
  destruct c; cbn; lia.
Qed.

Lemma onStepError_adds (wrap err : string) (h : list Call) :
  Adds im name h (snd (onStepError wrap err h)) 0 0 0.
Proof.
  unfold onStepError. destruct (Contains err _); cbn [snd]; [|apply Adds_refl].
  now apply (Adds_one h (CSleep 2)).
Qed.

Lemma deleteSteps_adds (h : list Call) : Adds im name h (snd (deleteSteps srv name h)) 1 0 1.
Proof.
  assert (Hselect : Adds im name h (h ++ [CSelect name false]) 1 0 0)
    by now apply (Adds_one h (CSelect name false)).
  assert (Hdelete : forall h1, Adds im name h1 (h1 ++ [CDelete name]) 0 0 1)
    by (intros h1; now apply (Adds_one h1 (CDelete name))).
  assert (Hlast : forall h1,
             Adds im name h1 (snd match srv_delete srv h1 name with
                          | Some err => onStepError "error deleting mailbox: " err
                                          (h1 ++ [CDelete name])
                          | None => (Done, h1 ++ [CDelete name])
                          end) 0 0 1).
  { intros h1. destruct (srv_delete srv h1 name) as [err|]; cbn [snd]; [|apply Hdelete].
    eapply (Adds_trans _ _ _ 0 0 1 0 0 0); [apply Hdelete|apply onStepError_adds]. }
  unfold deleteSteps.
  destruct (srv_select srv h name false) as [n|err].
  2:{ eapply (Adds_trans _ _ _ 1 0 0 0 0 1); [exact Hselect|].
      eapply Adds_weaken; [apply onStepError_adds|lia..]. }
  destruct (0 <? n)%Z.
  2:{ eapply (Adds_trans _ _ _ 1 0 0 0 0 1); [exact Hselect|apply Hlast]. }
  eapply (Adds_trans _ _ _ 1 0 0 0 0 1); [exact Hselect|].
  destruct (srv_store srv _ 1 n) as [err|].
  { eapply (Adds_trans _ _ _ 0 0 0 0 0 1);
      [now apply (Adds_one _ (CStoreDeleted 1 n))|].
    eapply Adds_weaken; [apply onStepError_adds|lia..]. }
  eapply (Adds_trans _ _ _ 0 0 0 0 0 1); [now apply (Adds_one _ (CStoreDeleted 1 n))|].
  destruct (srv_expunge srv _) as [err|].
  { eapply (Adds_trans _ _ _ 0 0 0 0 0 1); [now apply (Adds_one _ CExpunge)|].
    eapply Adds_weaken; [apply onStepError_adds|lia..]. }
  eapply (Adds_trans _ _ _ 0 0 0 0 0 1); [now apply (Adds_one _ CExpunge)|apply Hlast].
Qed.

Lemma reconnect_adds (h : list Call) : Adds im name h (snd (reconnect srv im h)) 0 1 0.
Proof.
  unfold reconnect.
  eapply (Adds_trans _ _ _ 0 0 0 0 1 0); [now apply (Adds_one h CLogout)|].
  destruct (srv_dial srv _ _); cbn [snd].
  { now apply (Adds_one _ (CDialTLS (host im ++ ":" ++ port im))). }
  eapply (Adds_trans _ _ _ 0 1 0 0 0 0);
    [now apply (Adds_one _ (CDialTLS (host im ++ ":" ++ port im)))|].
  destruct (srv_login srv _ _ _); cbn [snd];
    now apply (Adds_one _ (CLogin (user im) (password im))).
Qed.

Lemma deleteMailbox_from_adds (todo : list nat) (h : list Call) :
  Adds im name h (snd (deleteMailbox_from todo srv im name h))
    (length todo) (length (List.filter (Nat.ltb 0) todo)) (length todo).
Proof.
  revert h. induction todo as [|attempts todo IH]; intros h; cbn [deleteMailbox_from].
  { apply Adds_refl. }
  assert (Hsteps : forall h1,
             Adds im name h1 (snd match deleteSteps srv name h1 with
                          | (Done, h2) => (None, h2)
                          | (Retry, h2) => deleteMailbox_from todo srv im name h2
                          | (Abandon err, h2) => (Some err, h2)
                          end)
               (S (length todo)) (length (List.filter (Nat.ltb 0) todo)) (S (length todo))).
  { intros h1. pose proof (deleteSteps_adds h1) as Hone.
    destruct (deleteSteps srv name h1) as [[| |err] h2]; cbn [snd] in *.
    - eapply Adds_weaken; [exact Hone|lia..].
    - eapply Adds_weaken; [eapply Adds_trans; [exact Hone|apply IH]|lia..].
    - eapply Adds_weaken; [exact Hone|lia..]. }
  cbn [List.filter length]. destruct (0 <? attempts)%nat eqn:Hpos.
  - replace (Nat.ltb 0 attempts) with true. cbn [length].
    pose proof (reconnect_adds h) as Hrec.
    destruct (reconnect srv im h) as [[err|] h1]; cbn [snd] in Hrec.
    + eapply Adds_weaken;
        [eapply Adds_trans;
         [exact Hrec|eapply Adds_trans; [now apply (Adds_one h1 (CSleep 2))|apply IH]]
        |lia..].
    + eapply Adds_weaken; [eapply Adds_trans; [exact Hrec|apply Hsteps]|lia..].
  - replace (Nat.ltb 0 attempts) with false.
    eapply Adds_weaken; [apply Hsteps|lia..].
Qed.

(** X9.  Whatever the server answers, one call of [deleteMailbox] adds
    to the calls made before it at most three selects, at most two
    reconnections and at most three deletions; it selects (for writing)
    and deletes no mailbox but the one it was given, and dials and logs
    in with nothing but the address and the credentials kept in the
    manager. *)
Theorem deleteMailbox_footprint (h : list Call) :
  exists new,
    snd (deleteMailbox srv im name h) = h ++ new /\
    Forall (allowed im name) new /\
    countSelects new <= 3 /\ countDials new <= 2 /\ countDeletes new <= 3.
Proof.
  destruct (deleteMailbox_from_adds (seq 0 3) h) as (new & Hnew & Hall & Hs & Hd & Hx).
  exists new. split; [exact Hnew|]. split; [exact Hall|].
  cbn in Hs, Hd, Hx. auto.
Qed.
End DeletionFootprint.

(** ** What the canonical fingerprint cannot tell apart *)

Section FingerprintBlindSpots.
Import Go MoveDuplicates.
Context `{H256 : Sha256}.

Lemma hashParts_app (pre post : list NextPart) (h : string) :
  hashParts (pre ++ post) h
  = match hashParts pre h with
    | Ok h' => hashParts post h'
    | Err err => Err err
    end.
Proof.
  revert h. induction pre as [|[p|err] pre IH]; intros h; cbn [app hashParts];
    [reflexivity|apply IH|reflexivity].
Qed.

Lemma hashParts_same_writes (pre mid1 mid2 post : list NextPart) (h : string) :
  (forall h0, hashParts (mid1 ++ post) h0 = hashParts (mid2 ++ post) h0) ->
  hashParts (pre ++ mid1 ++ post) h = hashParts (pre ++ mid2 ++ post) h.
Proof.
  intros Hmid. rewrite !hashParts_app with (pre := pre).
  destruct (hashParts pre h); [apply Hmid|reflexivity].
Qed.

(** X10.  The fingerprint of the move variant is taken of the bare
    concatenation of what it hashes, with nothing written between the
    pieces, so it is the same for messages that differ only in where
    the pieces end: text moved from the end of the Subject to the front
    of the Date, the content of a hashed part cut into two hashed
    parts, or a part added whose type is not hashed or whose content
    cannot be read. *)
Theorem computeEmailHash_blind_to_boundaries :
  (forall s t d ps,
      computeEmailHash {| HeaderSubject := s ++ t; HeaderDate := d; NextParts := ps |}
      = computeEmailHash {| HeaderSubject := s; HeaderDate := t ++ d; NextParts := ps |}) /\
  (forall s d pre ct1 ct2 c1 c2 post,
      selected ct1 = true -> selected ct2 = true ->
      computeEmailHash
        {| HeaderSubject := s; HeaderDate := d;
           NextParts := pre ++ [NextOk {| ContentType := ct1; Body := ReadOk (c1 ++ c2) |}]
                            ++ post |}
      = computeEmailHash
          {| HeaderSubject := s; HeaderDate := d;
             NextParts := pre ++ [NextOk {| ContentType := ct1; Body := ReadOk c1 |};
                                  NextOk {| ContentType := ct2; Body := ReadOk c2 |}]
                              ++ post |}) /\
  (forall s d pre p post,
      selected (ContentType p) = false \/ (exists err, Body p = ReadErr err) ->
      computeEmailHash
        {| HeaderSubject := s; HeaderDate := d; NextParts := pre ++ [NextOk p] ++ post |}
      = computeEmailHash
          {| HeaderSubject := s; HeaderDate := d; NextParts := pre ++ [] ++ post |}).
Proof.
  unfold computeEmailHash. repeat split.
  - intros s t d ps. rewrite !hashInput_headers. cbn [HeaderSubject HeaderDate NextParts].
    now rewrite append_assoc.
  - intros s d pre ct1 ct2 c1 c2 post Hct1 Hct2.
    rewrite !hashInput_headers. cbn [HeaderSubject HeaderDate NextParts].
    rewrite (hashParts_same_writes pre _
               [NextOk {| ContentType := ct1; Body := ReadOk c1 |};
                NextOk {| ContentType := ct2; Body := ReadOk c2 |}]); [reflexivity|].
    intros h0. cbn [app hashParts]. rewrite !writePart_contribution.
    cbn [contribution ContentType Body]. rewrite Hct1, Hct2.
    now rewrite !append_assoc.
  - intros s d pre p post Hp.
    rewrite !hashInput_headers. cbn [HeaderSubject HeaderDate NextParts].
    rewrite (hashParts_same_writes pre _ []); [reflexivity|].
    intros h0. cbn [app hashParts]. rewrite writePart_contribution.
    cbn [contribution]. destruct Hp as [->|[err ->]].
    + now rewrite append_nil_r.
    + destruct (selected _); now rewrite append_nil_r.
Qed.
End FingerprintBlindSpots.

(** A picture added to a message leaves its fingerprint as it was. *)
Lemma computeEmailHash_blind_to_boundaries_witness :
  @MoveDuplicates.computeEmailHash Go.plainDigest
    {| MoveDuplicates.HeaderSubject := "Invoice";
       MoveDuplicates.HeaderDate := "Mon, 01 Jan 2024 10:00:00 +0000";
       MoveDuplicates.NextParts :=
         [MoveDuplicates.NextOk {| MoveDuplicates.ContentType := "text/plain";
                                   MoveDuplicates.Body := MoveDuplicates.ReadOk "Dear customer" |}]
         ++ [MoveDuplicates.NextOk {| MoveDuplicates.ContentType := "image/png";
                                      MoveDuplicates.Body := MoveDuplicates.ReadOk "PNG" |}]
         ++ [] |}
  = @MoveDuplicates.computeEmailHash Go.plainDigest
      {| MoveDuplicates.HeaderSubject := "Invoice";
         MoveDuplicates.HeaderDate := "Mon, 01 Jan 2024 10:00:00 +0000";
         MoveDuplicates.NextParts :=
           [MoveDuplicates.NextOk {| MoveDuplicates.ContentType := "text/plain";
                                     MoveDuplicates.Body := MoveDuplicates.ReadOk "Dear customer" |}]
           ++ [] ++ [] |}.
Proof.
  apply (proj2 (proj2 (@computeEmailHash_blind_to_boundaries Go.plainDigest))).
  left. reflexivity.
Defined.

(** ** The names of the backup directories *)

Section Sanitizer.
Import Go Backup.

Lemma ReplaceAllByte_mapBytes (s : string) (old new : ascii) :
  ReplaceAllByte s old (String new EmptyString)
  = mapBytes (fun c => if Ascii.eqb c old then new else c) s.
Proof.
  induction s as [|c s IH]; [reflexivity|]. cbn [ReplaceAllByte mapBytes].
  destruct (Ascii.eqb c old); [|now rewrite IH].
  exact (f_equal (String new) IH).
Qed.

Lemma mapBytes_mapBytes (f g : ascii -> ascii) (s : string) :
  mapBytes g (mapBytes f s) = mapBytes (fun c => g (f c)) s.
Proof. induction s as [|c s IH]; [reflexivity|]. cbn [mapBytes]. now rewrite IH. Qed.

Lemma mapBytes_ext (f g : ascii -> ascii) (s : string) :
  (forall c, f c = g c) -> mapBytes f s = mapBytes g s.
Proof.
  intros Hfg. induction s as [|c s IH]; [reflexivity|]. cbn [mapBytes]. now rewrite Hfg, IH.
Qed.

Lemma mapBytes_length (f : ascii -> ascii) (s : string) :
  String.length (mapBytes f s) = String.length s.
Proof. induction s as [|c s IH]; [reflexivity|]. cbn [mapBytes String.length]. now rewrite IH. Qed.

Lemma mapBytes_CountByte (f : ascii -> ascii) (s : string) (sep : ascii) :
  (forall c, f c <> sep) -> CountByte (mapBytes f s) sep = 0.
Proof.
  intros Hf. induction s as [|c s IH]; [reflexivity|]. cbn [mapBytes CountByte].
  destruct (Ascii.eqb_spec (f c) sep) as [Heq|_]; [now destruct (Hf c)|exact IH].
Qed.

(** The replacements of a list of bytes by one byte, one after the
    other, come to one pass over the string. *)
Lemma fold_ReplaceAllByte (olds : list ascii) (new : ascii) (s : string) :
  fold_left (fun result char => ReplaceAllByte result char (String new EmptyString)) olds s
  = mapBytes (fun c => if existsb (Ascii.eqb c) olds then new else c) s.
Proof.
  revert s. induction olds as [|old olds IH]; intros s; cbn [fold_left existsb].
  - induction s as [|c s IHs]; [reflexivity|]. cbn [mapBytes]. now rewrite <- IHs.
  - rewrite IH, ReplaceAllByte_mapBytes, mapBytes_mapBytes. apply mapBytes_ext.
    intros c. destruct (Ascii.eqb c old); cbn [orb]; [|reflexivity].
    now destruct (existsb (Ascii.eqb new) olds).
Qed.

Lemma safeByte_valid (c : ascii) : existsb (Ascii.eqb (safeByte c)) invalid = false.
Proof.
  unfold safeByte. destruct (existsb (Ascii.eqb c) invalid) eqn:Hc; [reflexivity|exact Hc].
Qed.

(** X11.  [sanitizePath] replaces every byte that is one of the nine
    invalid ones by an underscore and leaves every other byte as it is:
    its nine replacements come to one pass.  So the result is as long
    as the path, holds none of the nine bytes, and is left unchanged
    when sanitized again. *)
Theorem sanitizePath_replaces_bytewise (path : string) :
  sanitizePath path = mapBytes safeByte path /\
  String.length (sanitizePath path) = String.length path /\
  Forall (fun c => CountByte (sanitizePath path) c = 0) invalid /\
  sanitizePath (sanitizePath path) = sanitizePath path.
Proof.
  assert (Hall : forall s, sanitizePath s = mapBytes safeByte s)
    by (intros s; apply (fold_ReplaceAllByte invalid "_")).
  split; [apply Hall|]. rewrite !Hall. split; [apply mapBytes_length|]. split.
  - apply Forall_forall. intros sep Hsep. apply mapBytes_CountByte. intros c Heq.
    pose proof (safeByte_valid c) as Hvalid. rewrite Heq in Hvalid.
    apply list_elem_of_In in Hsep.
    assert (Hin : existsb (Ascii.eqb sep) invalid = true)
      by (apply existsb_exists; exists sep; split; [exact Hsep|apply Ascii.eqb_refl]).
    congruence.
  - rewrite mapBytes_mapBytes. apply mapBytes_ext. intros c.
    unfold safeByte at 1. now rewrite safeByte_valid.
Qed.
End Sanitizer.

(** ** delete-folder: which mailboxes are found, and which are touched *)

Section Finder.
Import Go DeleteFolder DeleteFolderRun.
Variables (cat : Catalog) (prefix : string) (withMessages : bool).

Lemma findStep_fold (names : list string) (toDelete : list MailboxInfo) (h : list Probe) :
  exists more,
    fst (fold_left (findStep cat prefix withMessages) names (toDelete, h))
    = toDelete ++ more /\
    sublist (map Name more) (List.filter (fun n => HasPrefix n prefix) names) /\
    Forall (fun m => withMessages = false -> MessagesList m = []) more /\
    ((forall h0 n, exists k, cat_select cat h0 n = Ok k) ->
     map Name more = List.filter (fun n => HasPrefix n prefix) names).
Proof.
  revert toDelete h. induction names as [|name names IH]; intros toDelete h.
  { exists []. rewrite app_nil_r. repeat split; constructor. }
  cbn [fold_left List.filter]. unfold findStep at 2.
  destruct (HasPrefix name prefix); [|apply IH].
  destruct (cat_select cat h name) as [messages|err] eqn:Hsel.
  - assert (Hnext : forall m h1,
               Name m = name -> (withMessages = false -> MessagesList m = []) ->
               exists more,
                 fst (fold_left (findStep cat prefix withMessages) names
                        (toDelete ++ [m], h1)) = toDelete ++ more /\
                 sublist (map Name more)
                   (name :: List.filter (fun n => HasPrefix n prefix) names) /\
                 Forall (fun m => withMessages = false -> MessagesList m = []) more /\
                 ((forall h0 n, exists k, cat_select cat h0 n = Ok k) ->
                  map Name more = name :: List.filter (fun n => HasPrefix n prefix) names)).
    { intros m h1 Hname Hlist.
      destruct (IH (toDelete ++ [m]) h1) as (more & Hfold & Hsub & Hall & Hevery).
      exists (m :: more). rewrite Hfold, <- app_assoc. split; [reflexivity|].
      cbn [map]. rewrite Hname. split; [now apply sublist_skip|].
      split; [now constructor|]. intros Hok. now rewrite Hevery. }
    destruct (withMessages && (0 <? messages)%Z) eqn:Hwith.
    + apply andb_true_iff in Hwith as [-> _].
      destruct (getMailboxMessages cat name _) as [[messagesList|err] h1];
        apply Hnext; try reflexivity; discriminate.
    + apply Hnext; reflexivity.
  - destruct (IH toDelete (h ++ [PSelect name])) as (more & Hfold & Hsub & Hall & Hevery).
    exists more. split; [exact Hfold|]. split; [now apply sublist_cons|].
    split; [exact Hall|]. intros Hok. destruct (Hok h name) as [k Hk]. congruence.
Qed.

Lemma findMailboxesForDeletion_found (h : list Probe) (names : list string)
    (toDelete : list MailboxInfo) :
  cat_list cat h = (names, None) ->
  fst (findMailboxesForDeletion cat prefix withMessages h) = Ok toDelete ->
  sublist (map Name toDelete) (List.filter (fun n => HasPrefix n prefix) names) /\
  toDelete <> [] /\
  Forall (fun m => withMessages = false -> MessagesList m = []) toDelete.
Proof.
  intros Hlist. unfold findMailboxesForDeletion, listAllMailboxes. rewrite Hlist.
  destruct (findStep_fold names [] (h ++ [PList])) as (more & Hfold & Hsub & Hall & _).
  destruct (fold_left _ names ([], h ++ [PList])) as [found h1].
  cbn [fst app] in Hfold. subst found. intros Hres.
  destruct more as [|m more]; [discriminate|].
  cbn in Hres. injection Hres as <-. split; [exact Hsub|]. split; [discriminate|exact Hall].
Qed.

Lemma findStep_Finds (names : list string) (toDelete : list MailboxInfo) (h : list Probe) :
  exists found h',
    Finds cat prefix withMessages names h found h' /\
    fold_left (findStep cat prefix withMessages) names (toDelete, h)
    = (toDelete ++ found, h').
Proof.
  revert toDelete h. induction names as [|name names IH]; intros toDelete h.
  { exists [], h. split; [constructor|]. now rewrite app_nil_r. }
  cbn [fold_left]. unfold findStep at 2.
  destruct (HasPrefix name prefix) eqn:Hpre.
  2:{ destruct (IH toDelete h) as (found & h' & Hf & Hfold).
      exists found, h'. split; [now apply FindsOther|exact Hfold]. }
  destruct (cat_select cat h name) as [messages|err] eqn:Hsel.
  2:{ destruct (IH toDelete (h ++ [PSelect name])) as (found & h' & Hf & Hfold).
      exists found, h'. split; [eapply FindsUnselectable; eauto|exact Hfold]. }
  destruct (withMessages && (0 <? messages)%Z) eqn:Hwith.
  - apply andb_true_iff in Hwith as [-> Hpos]. apply Z.ltb_lt in Hpos.
    destruct (getMailboxMessages cat name (h ++ [PSelect name])) as [res h1] eqn:Hget.
    assert (Hstep : (let (r, h0) := (res, h1) in
                     match r with
                     | Ok messagesList =>
                         (toDelete ++ [{| Name := name; Messages := messages;
                                          MessagesList := messagesList |}], h0)
                     | Err _ =>
                         (toDelete ++ [{| Name := name; Messages := messages;
                                          MessagesList := [] |}], h0)
                     end)
                    = (toDelete ++ [{| Name := name; Messages := messages;
                                       MessagesList := match res with
                                                       | Ok messagesList => messagesList
                                                       | Err _ => []
                                                       end |}], h1))
      by now destruct res.
    destruct (IH (toDelete ++ [{| Name := name; Messages := messages;
                                  MessagesList := match res with
                                                  | Ok messagesList => messagesList
                                                  | Err _ => []
                                                  end |}]) h1)
      as (found & h' & Hf & Hfold).
    eexists (_ :: found), h'. split; [eapply FindsDetailed; eauto|].
    destruct res; cbn in Hstep |- *; rewrite Hfold, <- app_assoc; reflexivity.
  - destruct (IH (toDelete ++ [{| Name := name; Messages := messages;
                                  MessagesList := [] |}]) (h ++ [PSelect name]))
      as (found & h' & Hf & Hfold).
    eexists (_ :: found), h'. split.
    + eapply FindsPlain; eauto. apply andb_false_iff in Hwith as [Hw|Hm]; [now left|].
      right. now apply Z.ltb_ge.
    + rewrite Hfold, <- app_assoc. reflexivity.
Qed.

Lemma Finds_names (names : list string) (h : list Probe) (found : list MailboxInfo)
    (h' : list Probe) :
  (forall h1 h2 name, cat_select cat h1 name = cat_select cat h2 name) ->
  Finds cat prefix withMessages names h found h' ->
  map Name found
  = List.filter (fun name => HasPrefix name prefix && selectable cat name) names.
Proof.
  intros Hsame.
  induction 1 as [h|name rest h found h' Hpre _ IH|name rest h err found h' Hpre Hsel _ IH
                  |name rest h messages found h' Hpre Hsel _ _ IH
                  |name rest h messages res h1 found h' Hpre Hsel _ _ _ _ IH];
    cbn [List.filter map]; rewrite ?Hpre; cbn [andb]; [reflexivity|exact IH|..];
    unfold selectable at 1; rewrite (Hsame [] h name), Hsel; cbn [Name]; congruence.
Qed.

(** X12.  An error of the listing is returned as it is wrapped, after
    the one probe.  When the listing ends without error,
    [findMailboxesForDeletion] goes through the listed names in order:
    it passes over a name that does not start with the prefix (compared
    as a plain string, so a folder that merely begins like the one
    named is taken as well), selects for reading each name that does,
    leaves out a mailbox whose select fails and finds every other, with
    the message count reported and a message list only when one is
    asked for; it returns the mailboxes found, or, when there is none,
    the error that no mailbox matches.  On a server that answers a
    select the same at all times the names found are the listed names
    with the prefix whose select goes through, in the order listed. *)
Theorem findMailboxesForDeletion_matches_prefix (h : list Probe) (names : list string) :
  (forall err,
      cat_list cat h = (names, Some err) ->
      findMailboxesForDeletion cat prefix withMessages h
      = (Err ("error listing mailboxes: " ++ err)%string, h ++ [PList])) /\
  (cat_list cat h = (names, None) ->
   exists found h',
     Finds cat prefix withMessages names (h ++ [PList]) found h' /\
     findMailboxesForDeletion cat prefix withMessages h
     = (match found with
        | [] => Err ("no mailboxes found matching: " ++ prefix)%string
        | _ :: _ => Ok found
        end, h')) /\
  (cat_list cat h = (names, None) ->
   (forall h1 h2 name, cat_select cat h1 name = cat_select cat h2 name) ->
   match fst (findMailboxesForDeletion cat prefix withMessages h) with
   | Ok toDelete =>
       toDelete <> [] /\
       map Name toDelete
       = List.filter (fun name => HasPrefix name prefix && selectable cat name) names
   | Err err =>
       err = ("no mailboxes found matching: " ++ prefix)%string /\
       List.filter (fun name => HasPrefix name prefix && selectable cat name) names = []
   end).
Proof.
  assert (Hfound : cat_list cat h = (names, None) ->
                   exists found h',
                     Finds cat prefix withMessages names (h ++ [PList]) found h' /\
                     findMailboxesForDeletion cat prefix withMessages h
                     = (match found with
                        | [] => Err ("no mailboxes found matching: " ++ prefix)%string
                        | _ :: _ => Ok found
                        end, h')).
  { intros Hlist. unfold findMailboxesForDeletion, listAllMailboxes. rewrite Hlist.
    destruct (findStep_Finds names [] (h ++ [PList])) as (found & h' & Hf & Hfold).
    exists found, h'. split; [exact Hf|]. rewrite Hfold. cbn [app].
    now destruct found. }
  split; [|split; [exact Hfound|]].
  - intros err Hlist. unfold findMailboxesForDeletion, listAllMailboxes. now rewrite Hlist.
  - intros Hlist Hsame. destruct (Hfound Hlist) as (found & h' & Hf & ->).
    pose proof (Finds_names _ _ _ _ Hsame Hf) as Hnames.
    destruct found as [|m found]; cbn [fst].
    + split; [reflexivity|]. now rewrite <- Hnames.
    + split; [discriminate|exact Hnames].
Qed.
End Finder.

(** The server with the archive: of the four folders that begin with
    Old, the one that cannot be selected is left out. *)
Lemma findMailboxesForDeletion_matches_prefix_witness :
  match fst (DeleteFolderRun.findMailboxesForDeletion DeleteFolderRun.archive "Old" false [])
  with
  | Go.Ok toDelete =>
      toDelete <> [] /\
      map DeleteFolder.Name toDelete
      = List.filter (fun name => Go.HasPrefix name "Old"
                                 && DeleteFolderRun.selectable DeleteFolderRun.archive name)
          ["INBOX"; "Old"; "Old/2023"; "Old/2024"; "Older"]
  | Go.Err err =>
      err = ("no mailboxes found matching: " ++ "Old")%string /\
      List.filter (fun name => Go.HasPrefix name "Old"
                               && DeleteFolderRun.selectable DeleteFolderRun.archive name)
        ["INBOX"; "Old"; "Old/2023"; "Old/2024"; "Older"] = []
  end.
Proof.
  apply (proj2 (proj2 (findMailboxesForDeletion_matches_prefix DeleteFolderRun.archive
                         "Old" false [] ["INBOX"; "Old"; "Old/2023"; "Old/2024"; "Older"]))).
  - reflexivity.
  - intros h1 h2 name. reflexivity.
Defined.

Section DeleteFolderMain.
Import Go DeleteFolder Deletion DeleteFolderRun.
Context `{S : SliceSorter} `{U : Unicode}.

Lemma allowed_concerns (im : IMAPManager) (name : string) (names : list string) (c : Call) :
  In name names -> allowed im name c -> concerns names c.
Proof. intros Hin. destruct c; cbn; try tauto; intuition congruence. Qed.

Lemma deleteAll_calls (srv : Server) (im : IMAPManager) (sortedMailboxes : list MailboxInfo)
    (h : list Call) :
  exists new,
    snd (deleteAll srv im sortedMailboxes h) = h ++ new /\
    Forall (concerns (map Name sortedMailboxes)) new.
Proof.
  revert h. induction sortedMailboxes as [|m rest IH]; intros h; cbn [deleteAll].
  { exists []. now rewrite app_nil_r. }
  destruct (deleteMailbox_from_adds srv im (Name m) (seq 0 3) h)
    as (new1 & Hnew1 & Hall1 & _).
  fold (deleteMailbox srv im (Name m) h) in Hnew1.
  destruct (deleteMailbox srv im (Name m) h) as [status h1]. cbn [snd] in Hnew1. subst h1.
  destruct (IH (h ++ new1)) as (new2 & Hnew2 & Hall2).
  exists (new1 ++ new2). split.
  - rewrite app_assoc, <- Hnew2.
    destruct status; [|reflexivity]. now destruct (deleteAll srv im rest (h ++ new1)).
  - apply Forall_app. split.
    + eapply Forall_impl; [exact Hall1|]. intros c. apply allowed_concerns. now left.
    + eapply Forall_impl; [exact Hall2|]. intros [] Hc; cbn in *; auto.
Qed.

(** X13.  Whatever the server and the user answer, a run of
    delete-folder selects for writing or deletes a mailbox only when it
    was not started with -dry-run, the user answered yes, and the name
    of the mailbox was listed by the server and starts with the folder
    name given on the command line. *)
Theorem main_touches_only_matching_mailboxes (args : list string) (dryRun : bool)
    (env : Env) (cat : Catalog) (srv : list Probe -> Server)
    (stdin : list DeleteDuplicates.Line) (exit : Exit) (probes : list Probe)
    (calls : list Call) (n : string) :
  main args dryRun env cat srv stdin = (exit, probes, calls) ->
  In (CDelete n) calls \/ (exists readOnly, In (CSelect n readOnly) calls) ->
  dryRun = false /\
  fst (confirmDeletion stdin) = true /\
  exists folderName h names,
    args = [folderName] /\ HasPrefix n folderName = true /\
    cat_list cat h = (names, None) /\ In n names.
Proof.
  unfold main. intros Hmain Hin.
  assert (Hnone : calls = [] -> False).
  { intros ->. destruct Hin as [[]|[ro []]]. }
  destruct args as [|folderName [|]]; try (injection Hmain as _ _ <-; now destruct Hnone).
  destruct (dotenv env); [injection Hmain as _ _ <-; now destruct Hnone|].
  destruct (connectIMAP cat env []) as [[imap|err] h0] eqn:Hconn;
    [|injection Hmain as _ _ <-; now destruct Hnone].
  destruct (findMailboxesForDeletion cat folderName dryRun h0) as [[found|err] h1] eqn:Hfind;
    [|injection Hmain as _ _ <-; now destruct Hnone].
  destruct dryRun.
  { destruct (askShowDetails stdin). injection Hmain as _ _ <-. now destruct Hnone. }
  destruct (confirmDeletion stdin) as [yes stdin1]. destruct yes; cbn [negb] in Hmain;
    [|injection Hmain as _ _ <-; now destruct Hnone].
  split; [reflexivity|]. split; [reflexivity|].
  destruct (deleteAll_calls (srv h1) imap (sortMailboxesByDepth found) [])
    as (new & Hnew & Hall).
  destruct (deleteAll (srv h1) imap (sortMailboxesByDepth found) []) as [errs calls1].
  injection Hmain as _ _ <-. cbn [snd app] in Hnew. subst calls1.
  assert (Hname : In n (map Name (sortMailboxesByDepth found))).
  { rewrite Forall_forall in Hall.
    destruct Hin as [Hin|[ro Hin]]; apply in_app_iff in Hin as [Hin|[Hin|[]]];
      try discriminate; apply list_elem_of_In, Hall in Hin; exact Hin. }
  apply (Permutation_in _ (Permutation_map Name (sortMailboxesByDepth_perm found))) in Hname.
  pose proof Hfind as Hres. unfold findMailboxesForDeletion, listAllMailboxes in Hres.
  destruct (cat_list cat h0) as [names [err|]] eqn:Hlist; [discriminate|].
  destruct (findMailboxesForDeletion_found cat folderName false h0 names found Hlist)
    as [Hsub _]; [now rewrite Hfind|].
  exists folderName, h0, names. split; [reflexivity|].
  apply list_elem_of_In in Hname. eapply elem_of_sublist in Hname; [|exact Hsub].
  apply list_elem_of_In, filter_In in Hname as [Hlisted Hprefix]. auto.
Qed.
End DeleteFolderMain.

(** A confirmed run on the server with the archive deletes Old/2024,
    which was listed and begins with Old. *)
Lemma main_touches_only_matching_mailboxes_witness :
  false = false /\
  fst (@DeleteFolderRun.confirmDeletion Go.asciiUnicode [DeleteDuplicates.typed "yes"]) = true /\
  exists folderName h names,
    ["Old"] = [folderName] /\ Go.HasPrefix "Old/2024" folderName = true /\
    DeleteFolderRun.cat_list DeleteFolderRun.archive h = (names, None) /\
    In "Old/2024" names.
Proof.
  eapply (@main_touches_only_matching_mailboxes insertionSorter Go.asciiUnicode
            ["Old"] false DeleteFolderRun.archiveEnv DeleteFolderRun.archive
            (fun _ => DeleteFolderRun.willing) [DeleteDuplicates.typed "yes"]
            _ _ _ "Old/2024").
  - vm_compute. reflexivity.
  - left. repeat (try (left; reflexivity); right).
Defined.

Section DeleteFolderLoop.
Import Go DeleteFolder Deletion DeleteFolderRun.
Variables (srv : Server) (im : IMAPManager).


End DeleteFolderLoop.

(** ** Plans that keep one member of every group *)

Section KeepOneFacts.
Import KeepOne.
Context {A G : Type} (hashOf : A -> string) (members : G -> list A)
  (groupHash : G -> string).




Lemma TakesFrom_members (groups : list G) (plan : list A) :
  TakesFrom members groups plan ->
  forall e, In e plan -> exists group, In group groups /\ In e (members group).
Proof.
  induction 1 as [|group rest plan _ IH|group rest before kept after plan Hg _ IH];
    intros e He.
  - destruct He.
  - destruct (IH e He) as (g & Hin & Hm). exists g. split; [now right|exact Hm].
  - apply in_app_iff in He as [He|He].
    + exists group. split; [now left|]. rewrite Hg. apply in_app_iff.
      apply in_app_iff in He as [He|He]; [now left|right; now right].
    + destruct (IH e He) as (g & Hin & Hm). exists g. split; [now right|exact Hm].
Qed.



End KeepOneFacts.

(** ** The plan of the move variant *)

Section MovePlanner.
Import Go MoveDuplicates MoveRun KeepOne.

Lemma move_planGroup_spec (choice j : Z) (emails plannedMoves : list EmailInfo) :
  planGroup choice j emails plannedMoves =
  plannedMoves ++
    (if ((j <=? choice) && (choice <? j + Z.of_nat (length emails)))%Z
     then take (Z.to_nat (choice - j)) emails ++ drop (S (Z.to_nat (choice - j))) emails
     else emails).
Proof.
  revert j plannedMoves.
  induction emails as [|email rest IH]; intros j plannedMoves.
  - simpl. rewrite ?take_nil, ?drop_nil. destruct (_ && _); now rewrite app_nil_r.
  - cbn [planGroup]. rewrite IH. cbn [length].
    destruct (Z.eqb_spec j choice) as [->|Hne]; simpl negb; cbv iota.
    + replace (choice + 1 <=? choice)%Z with false by (symmetry; apply Z.leb_gt; lia).
      replace (choice <=? choice)%Z with true by (symmetry; apply Z.leb_le; lia).
      replace (choice <? choice + Z.of_nat (S (length rest)))%Z with true
        by (symmetry; apply Z.ltb_lt; lia).
      rewrite Z.sub_diag. reflexivity.
    + rewrite <- app_assoc. f_equal. simpl app.
      destruct ((j + 1 <=? choice) && (choice <? j + 1 + Z.of_nat (length rest)))%Z eqn:Hin.
      * apply andb_true_iff in Hin as [Hlo Hhi].
        apply Z.leb_le in Hlo. apply Z.ltb_lt in Hhi.
        replace (j <=? choice)%Z with true by (symmetry; apply Z.leb_le; lia).
        replace (choice <? j + Z.of_nat (S (length rest)))%Z with true
          by (symmetry; apply Z.ltb_lt; lia).
        replace (Z.to_nat (choice - j)) with (S (Z.to_nat (choice - (j + 1)))) by lia.
        reflexivity.
      * replace ((j <=? choice) && (choice <? j + Z.of_nat (S (length rest))))%Z with false;
          [reflexivity|].
        symmetry. apply andb_false_iff. apply andb_false_iff in Hin as [Hlo|Hhi].
        -- left. apply Z.leb_gt. apply Z.leb_gt in Hlo. lia.
        -- right. apply Z.ltb_ge. apply Z.ltb_ge in Hhi. lia.
Qed.

Context `{U : Unicode}.

(** The answers of [promptForChoice]: an error comes with -1; without
    an error the answer is -1 or an index into the group, and in a dry
    run it is index 0. *)
Lemma move_promptForChoice_range (group : DuplicateGroup) (dryRun : bool)
    (stdin : list DeleteDuplicates.Line) (choice : Z) (err : option ChoiceError)
    (stdin' : list DeleteDuplicates.Line) :
  promptForChoice group dryRun stdin = Some (choice, err, stdin') ->
  Emails group <> [] /\
  (choice = -1 \/ err = None /\ 0 <= choice < Z.of_nat (length (Emails group)))%Z /\
  (dryRun = true -> choice = 0%Z /\ err = None).
Proof.
  unfold promptForChoice. intros Hrun.
  destruct (Emails group) as [|e0 es] eqn:Hes; [discriminate|].
  split; [discriminate|].
  destruct dryRun.
  { injection Hrun as <- <- _. split; [right; cbn [length]; split; [reflexivity|lia]|auto]. }
  split; [|discriminate].
  destruct (DeleteDuplicates.readLine stdin) as [line rest].
  destruct (DeleteDuplicates.failed line); [injection Hrun as <- _ _; now left|].
  destruct (_ || _); [injection Hrun as <- _ _; now left|].
  destruct (Atoi _) as [n|]; [|injection Hrun as <- _ _; now left].
  destruct ((n <? 1) || (n >? Z.of_nat (length (e0 :: es))))%Z eqn:Hn;
    [injection Hrun as <- _ _; now left|].
  apply orb_false_iff in Hn as [Hlo Hhi].
  apply Z.ltb_ge in Hlo. rewrite Z.gtb_ltb in Hhi. apply Z.ltb_ge in Hhi.
  injection Hrun as <- <- _. right. split; [reflexivity|lia].
Qed.

Lemma move_promptForChoice_returns (group : DuplicateGroup) (dryRun : bool)
    (stdin : list DeleteDuplicates.Line) :
  Emails group <> [] -> exists r, promptForChoice group dryRun stdin = Some r.
Proof.
  unfold promptForChoice. intros Hne.
  destruct (Emails group); [contradiction|]. destruct dryRun; [eauto|].
  destruct (DeleteDuplicates.readLine stdin) as [line rest].
  destruct (DeleteDuplicates.failed line); [eauto|].
  destruct (_ || _); [eauto|]. destruct (Atoi _); [|eauto]. destruct (_ || _)%bool; eauto.
Qed.

Lemma move_planLoop_takes (groups : list DuplicateGroup) (dryRun : bool)
    (stdin : list DeleteDuplicates.Line) (plannedMoves : list EmailInfo) :
  (forall group, In group groups -> Emails group <> []) ->
  exists added stdin',
    planLoop groups dryRun stdin plannedMoves = Some (plannedMoves ++ added, stdin') /\
    TakesFrom Emails groups added /\
    (dryRun = true -> added = concat (map (fun group => tail (Emails group)) groups)).
Proof.
  revert stdin plannedMoves.
  induction groups as [|group rest IH]; intros stdin plannedMoves Hne; cbn [planLoop].
  { exists [], stdin. rewrite app_nil_r. repeat split; constructor. }
  destruct (move_promptForChoice_returns group dryRun stdin (Hne group (or_introl eq_refl)))
    as [[[choice err] stdin1] Hprompt].
  rewrite Hprompt.
  destruct (move_promptForChoice_range _ _ _ _ _ _ Hprompt) as (_ & Hrange & Hdry).
  assert (Hrest : forall g, In g rest -> Emails g <> []) by (intros g Hg; apply Hne; now right).
  assert (Hskip : dryRun = false ->
                  forall planned,
                  exists added stdin',
                    planLoop rest dryRun stdin1 planned = Some (planned ++ added, stdin') /\
                    TakesFrom Emails (group :: rest) added /\
                    (dryRun = true ->
                     added = concat (map (fun g => tail (Emails g)) (group :: rest)))).
  { intros Hwet planned. destruct (IH stdin1 planned Hrest) as (added & stdin' & Hrun & Ht & _).
    exists added, stdin'. split; [exact Hrun|]. split; [now constructor|congruence]. }
  destruct err as [e|].
  { apply Hskip. destruct dryRun; [|reflexivity]. now destruct (Hdry eq_refl). }
  destruct (Z.eqb_spec choice (-1)) as [->|Hchoice].
  { apply Hskip. destruct dryRun; [|reflexivity]. now destruct (Hdry eq_refl). }
  destruct Hrange as [?|[_ Hidx]]; [contradiction|].
  rewrite move_planGroup_spec.
  replace ((0 <=? choice) && (choice <? 0 + Z.of_nat (length (Emails group))))%Z
    with true by (symmetry; apply andb_true_iff; split; [apply Z.leb_le|apply Z.ltb_lt]; lia).
  rewrite Z.sub_0_r.
  assert (Hlt : Z.to_nat choice < length (Emails group)) by lia.
  destruct (lookup_lt_is_Some_2 _ _ Hlt) as [kept Hkept].
  destruct (IH stdin1 (plannedMoves ++ take (Z.to_nat choice) (Emails group)
                         ++ drop (S (Z.to_nat choice)) (Emails group)) Hrest)
    as (added & stdin' & Hrun & Ht & Hall).
  exists ((take (Z.to_nat choice) (Emails group) ++ drop (S (Z.to_nat choice)) (Emails group))
            ++ added), stdin'.
  split; [now rewrite Hrun, <- !app_assoc|]. split.
  - apply TakesOthers with (kept := kept); [|exact Ht]. now rewrite take_drop_middle.
  - intros Hd. destruct (Hdry Hd) as [-> _]. cbn [map concat]. rewrite (Hall Hd).
    f_equal; now destruct (Emails group).
Qed.

Context `{R : MapRange}.

End MovePlanner.

(** ** The trash folder of the move variant *)

Section Trash.
Import Go MoveDuplicates MoveRun.
Context `{F : Folding}.

Lemma isTrashName_exists (name : string) (names : list string) :
  isTrashName name names = true <-> exists t, In t names /\ EqualFold name t = true.
Proof.
  induction names as [|t rest IH]; cbn [isTrashName].
  - split; [discriminate|]. now intros (t & [] & _).
  - destruct (EqualFold name t) eqn:Ht.
    + split; [|reflexivity]. intros _. exists t. split; [now left|exact Ht].
    + rewrite IH. split.
      * intros (t' & Hin & Ht'). exists t'. split; [now right|exact Ht'].
      * intros (t' & [<-|Hin] & Ht'); [congruence|eauto].
Qed.

Lemma fold_trashStep (names : list string) (trashbox : string) :
  fold_left trashStep names trashbox
  = default trashbox (last (List.filter (fun name => isTrashName name trashNames) names)).
Proof.
  revert trashbox. induction names as [|name names IH]; intros trashbox; [reflexivity|].
  cbn [fold_left List.filter]. rewrite IH. unfold trashStep.
  destruct (isTrashName name trashNames); [|reflexivity].
  rewrite last_cons. now destruct (last _).
Qed.

(** X16.  Once the connection and the login have gone through,
    [connectIMAP] of the move variant takes as trash folder the last
    listed folder whose name equals, under case folding, one of the six
    trash names: a later match replaces an earlier one.  It returns the
    error that no trash folder was found when no listed name matches
    (or the last match is the empty name), and the error of the listing,
    whatever was found, when the listing ends with one. *)
Theorem connectIMAP_takes_last_trash_folder (srv : Host) (env : Env) (h : list Admin) :
  let addr := (IMAP_HOST env ++ ":" ++ IMAP_PORT env)%string in
  let h1 := h ++ [ADialTLS addr] in
  let h2 := h1 ++ [ALogin (IMAP_USER env) (IMAP_PASSWORD env)] in
  adm_dial srv h addr = None ->
  adm_login srv h1 (IMAP_USER env) (IMAP_PASSWORD env) = None ->
  (forall name,
      isTrashName name trashNames = true <->
      exists t, In t trashNames /\ EqualFold name t = true) /\
  (forall names,
      adm_list srv h2 = (names, None) ->
      connectIMAP srv env h
      = (match last (List.filter (fun name => isTrashName name trashNames) names) with
         | Some t => if String.eqb t "" then Err "could not find trash folder"
                     else Ok {| trashbox := t |}
         | None => Err "could not find trash folder"
         end, h2 ++ [AList])) /\
  (forall names err,
      adm_list srv h2 = (names, Some err) ->
      connectIMAP srv env h = (Err ("error listing mailboxes: " ++ err)%string, h2 ++ [AList])).
Proof.
  intros addr h1 h2 Hdial Hlogin. split; [intros name; apply isTrashName_exists|].
  unfold connectIMAP. fold addr. rewrite Hdial. fold h1. rewrite Hlogin. fold h2.
  split.
  - intros names Hlist. rewrite Hlist, fold_trashStep.
    destruct (last _) as [t|]; cbn [default from_option id]; [|reflexivity].
    now destruct (String.eqb t "").
  - intros names err Hlist. now rewrite Hlist.
Qed.
End Trash.

(** Of Trash and [Gmail]/Trash the one listed last is taken. *)
Lemma connectIMAP_takes_last_trash_folder_witness :
  @MoveRun.connectIMAP MoveRun.asciiFolding MoveRun.twoTrashes MoveRun.plainEnv []
  = (Go.Ok {| MoveRun.trashbox := "[Gmail]/Trash" |},
     [MoveRun.ADialTLS "imap.example.com:993"; MoveRun.ALogin "me" "secret"; MoveRun.AList]).
Proof.
  apply (proj1 (proj2 (@connectIMAP_takes_last_trash_folder MoveRun.asciiFolding
                         MoveRun.twoTrashes MoveRun.plainEnv [] eq_refl eq_refl))
           ["INBOX"; "Trash"; "Archive"; "[Gmail]/Trash"]).
  reflexivity.
Defined.

(** ** What a run of the move variant touches *)

Section MoveRunFacts.
Import Go MoveDuplicates MoveRun KeepOne.
Context `{H256 : Sha256} `{R : MapRange} `{U : Unicode} `{F : Folding}.

Lemma move_scanBatches_selects (mailboxes : list string) (fuel : nat) (srv : Server)
    (name : string) (messages i : Z) (emails : list EmailInfo) (h : list Event)
    (res : result (list EmailInfo)) (h' : list Event) :
  scanBatches fuel srv name messages i emails h = Some (res, h') ->
  Forall (selectsFrom mailboxes) h -> Forall (selectsFrom mailboxes) h'.
Proof.
  revert i emails h. induction fuel as [|fuel IH]; intros i emails h Hrun Hh; [discriminate|].
  cbn [scanBatches] in Hrun.
  destruct (i <=? messages)%Z; [|injection Hrun as <- <-; exact Hh].
  match type of Hrun with
  | context [srv_fetch srv h ?f ?t] =>
      destruct (srv_fetch srv h f t) as [delivered status] eqn:Hfetch
  end.
  match type of Hrun with
  | context [?a ++ [EDone status]] =>
      assert (Hh' : Forall (selectsFrom mailboxes) (a ++ [EDone status]))
  end.
  { repeat (apply Forall_app; split); try exact Hh.
    - now repeat constructor.
    - apply Forall_map. now apply Forall_forall.
    - now repeat constructor. }
  destruct status as [err|].
  - injection Hrun as <- <-. exact Hh'.
  - eapply IH; [exact Hrun|exact Hh'].
Qed.

Lemma move_scanBatches_mailbox (fuel : nat) (srv : Server) (name : string) (messages i : Z)
    (emails : list EmailInfo) (h : list Event) (found : list EmailInfo) (h' : list Event) :
  scanBatches fuel srv name messages i emails h = Some (Ok found, h') ->
  Forall (fun e => Mailbox e = name) emails ->
  Forall (fun e => Mailbox e = name) found.
Proof.
  revert i emails h. induction fuel as [|fuel IH]; intros i emails h Hrun Hall; [discriminate|].
  cbn [scanBatches] in Hrun.
  destruct (i <=? messages)%Z; [|injection Hrun as <- <-; exact Hall].
  match type of Hrun with
  | context [srv_fetch srv h ?f ?t] =>
      destruct (srv_fetch srv h f t) as [delivered [err|]] eqn:Hfetch
  end; [discriminate|].
  eapply IH; [exact Hrun|].
  clear Hrun Hfetch. revert emails Hall.
  induction delivered as [|msg delivered IHd]; intros emails Hall; [exact Hall|].
  cbn [fold_left]. apply IHd. unfold scanMessage.
  destruct (GetBody msg) as [[mr|]|]; try exact Hall.
  destruct (computeEmailHash mr); [|exact Hall].
  apply Forall_app. split; [exact Hall|]. now repeat constructor.
Qed.

Lemma move_scanAll_facts (fuel : nat) (srv : Server) (mailboxes known : list string)
    (allEmails : list EmailInfo) (h : list Event) (all : list EmailInfo) (h' : list Event) :
  scanAll fuel srv mailboxes allEmails h = Some (all, h') ->
  (forall name, In name mailboxes -> In name known) ->
  (exists more, all = allEmails ++ more /\ Forall (fun e => In (Mailbox e) known) more) /\
  (Forall (selectsFrom known) h -> Forall (selectsFrom known) h').
Proof.
  revert allEmails h. induction mailboxes as [|mailbox rest IH];
    intros allEmails h Hrun Hknown.
  { injection Hrun as <- <-. split; [|auto]. exists []. now rewrite app_nil_r. }
  cbn [scanAll] in Hrun.
  destruct (scanMailbox fuel srv mailbox h) as [[[emails|err] h1]|] eqn:Hscan;
    [| |discriminate].
  all: assert (Hh1 : Forall (selectsFrom known) h -> Forall (selectsFrom known) h1).
  1,3: intros Hh; unfold scanMailbox in Hscan;
    assert (Hsel : Forall (selectsFrom known) (h ++ [ESelect mailbox true]))
      by (apply Forall_app; split; [exact Hh|];
          repeat constructor; apply Hknown; now left);
    destruct (srv_select srv h mailbox true) as [messages|];
      [destruct (messages =? 0)%Z;
         [injection Hscan as _ <-; exact Hsel
         |eapply move_scanBatches_selects; [exact Hscan|exact Hsel]]
      |injection Hscan as _ <-; exact Hsel].
  - assert (Hemails : Forall (fun e => Mailbox e = mailbox) emails).
    { unfold scanMailbox in Hscan.
      destruct (srv_select srv h mailbox true) as [messages|]; [|discriminate].
      destruct (messages =? 0)%Z; [injection Hscan as <- _; constructor|].
      eapply move_scanBatches_mailbox; [exact Hscan|constructor]. }
    apply IH in Hrun as [(more & -> & Hmore) Hh']; [|intros n Hn; apply Hknown; now right].
    split; [|auto]. exists (emails ++ more). split; [now rewrite app_assoc|].
    apply Forall_app. split; [|exact Hmore].
    eapply Forall_impl; [exact Hemails|]. intros e ->. apply Hknown. now left.
  - apply IH in Hrun as [Hmore Hh']; [|intros n Hn; apply Hknown; now right].
    split; [exact Hmore|auto].
Qed.

Lemma moveAll_actions (srv : Mover) (im : IMAPManager) (plannedMoves : list EmailInfo)
    (h : list Action) :
  exists new,
    snd (moveAll srv im plannedMoves h) = h ++ new /\
    Forall (fun a => match a with
                     | ASelect name => In name (map Mailbox plannedMoves)
                     | AMove _ dest => dest = trashbox im
                     end) new.
Proof.
  revert h. induction plannedMoves as [|email rest IH]; intros h; cbn [moveAll].
  { exists []. now rewrite app_nil_r. }
  assert (Hone : exists new,
             snd (moveToTrash srv im email h) = h ++ new /\
             Forall (fun a => match a with
                              | ASelect name => name = Mailbox email
                              | AMove _ dest => dest = trashbox im
                              end) new).
  { unfold moveToTrash. destruct (mv_select srv h (Mailbox email)); cbn [snd].
    - exists [ASelect (Mailbox email)]. split; [reflexivity|now repeat constructor].
    - exists [ASelect (Mailbox email); AMove (Uid email) (trashbox im)].
      split; [now rewrite <- app_assoc|now repeat constructor]. }
  destruct Hone as (new1 & Hnew1 & Hall1).
  destruct (moveToTrash srv im email h) as [status h1]. cbn [snd] in Hnew1. subst h1.
  destruct (IH (h ++ new1)) as (new2 & Hnew2 & Hall2).
  exists (new1 ++ new2). split.
  - rewrite app_assoc, <- Hnew2. destruct status; [|reflexivity].
    now destruct (moveAll srv im rest (h ++ new1)).
  - apply Forall_app. split.
    + eapply Forall_impl; [exact Hall1|]. intros [name|num dest]; [|auto].
      intros ->. now left.
    + eapply Forall_impl; [exact Hall2|]. intros [name|num dest]; [|auto].
      intros Hin. now right.
Qed.

(** X17.  A run of the move variant selects a folder for writing or
    moves a message only when it was started without -dry-run and ends
    after the loop of the moves.  Whatever it does then, every move is a
    move to the trash folder, and no folder that is the trash folder
    under case folding is selected, neither by the scan, which selects
    for reading only, nor by the moves; when the connection fails
    nothing is scanned or moved. *)
Theorem main_moves_only_to_trash (fuel : nat) (dryRun : bool) (env : Env) (world : World)
    (stdin : list DeleteDuplicates.Line) (run : Run) :
  main fuel dryRun env world stdin = Some run ->
  (actions run <> [] -> dryRun = false /\ exists errs, exit run = Completed errs) /\
  (forall imap h0,
      connectIMAP (session world) env [] = (Ok imap, h0) ->
      Forall (scansOutsideTrash imap) (scanned run) /\
      Forall (movesToTrash imap) (actions run)) /\
  (forall err h0,
      connectIMAP (session world) env [] = (Err err, h0) ->
      scanned run = [] /\ actions run = []).
Proof.
  unfold main. intros Hmain.
  destruct (dotenv env).
  { injection Hmain as <-. cbn. repeat split; auto; congruence. }
  destruct (connectIMAP (session world) env []) as [[imap|err] h0] eqn:Hconn.
  2:{ injection Hmain as <-. cbn. repeat split; auto; congruence. }
  unfold listMailboxes in Hmain.
  destruct (adm_list (session world) h0) as [names status] eqn:Hlist.
  destruct status as [err|].
  { injection Hmain as <-. cbn. repeat split; auto; congruence. }
  set (mailboxes := List.filter (fun name => negb (EqualFold name (trashbox imap))) names)
    in Hmain.
  destruct (scanAll fuel (scanner world (h0 ++ [AList])) mailboxes [] [])
    as [[allEmails events]|] eqn:Hscan; [|discriminate].
  destruct (move_scanAll_facts _ _ _ mailboxes _ _ _ _ Hscan (fun n Hn => Hn))
    as [(more & Hall & Hfrom) Hevents].
  cbn [app] in Hall. subst more. specialize (Hevents (List.Forall_nil _)).
  assert (Hout : forall name, In name mailboxes -> EqualFold name (trashbox imap) = false).
  { intros name Hn. apply filter_In in Hn as [_ Hn]. now apply negb_true_iff. }
  assert (Hscanned : Forall (scansOutsideTrash imap) events).
  { eapply Forall_impl; [exact Hevents|]. intros [name ro| | |]; cbn; auto.
    intros [-> Hn]. auto. }
  assert (Hquiet : forall exit0,
             let run0 := {| exit := exit0; admin := (h0 ++ [AList]) ++ [ALogout];
                            scanned := events; actions := [] |} in
             (actions run0 <> [] -> dryRun = false /\ exists errs, exit run0 = Completed errs) /\
             (forall imap1 h1,
                 (Ok imap, h0) = (Ok imap1, h1) ->
                 Forall (scansOutsideTrash imap1) (scanned run0) /\
                 Forall (movesToTrash imap1) (actions run0)) /\
             (forall err h1,
                 (@Ok IMAPManager imap, h0) = (Err err, h1) ->
                 scanned run0 = [] /\ actions run0 = [])).
  { intros exit0. cbn. split; [congruence|]. split; [|discriminate].
    intros imap1 h1 [= <- <-]. split; [exact Hscanned|constructor]. }
  destruct (move_planLoop_takes (findDuplicates allEmails) dryRun stdin [])
    as (plan & stdin1 & Hplan & Htakes & _).
  { intros g Hg. apply move_findDuplicates_In in Hg as [_ Hlen].
    intros Hnil. rewrite Hnil in Hlen. simpl in Hlen. lia. }
  cbn [app] in Hplan. rewrite Hplan in Hmain.
  destruct (length plan =? 0)%nat; [injection Hmain as <-; apply Hquiet|].
  destruct dryRun; [injection Hmain as <-; apply Hquiet|].
  destruct (confirmActions stdin1) as [yes stdin2].
  destruct yes; cbn [negb] in Hmain; [|injection Hmain as <-; apply Hquiet].
  destruct (moveAll_actions (mover world (h0 ++ [AList]) events) imap plan [])
    as (new & Hnew & Hmoves).
  destruct (moveAll (mover world (h0 ++ [AList]) events) imap plan []) as [errs moves].
  cbn [snd app] in Hnew. subst moves. injection Hmain as <-. cbn.
  split; [eauto|]. split; [|discriminate].
  intros imap1 h1 [= <- <-]. split; [exact Hscanned|].
  eapply Forall_impl; [exact Hmoves|]. intros [name|num dest]; cbn; [|auto].
  intros Hin. apply in_map_iff in Hin as (e & <- & He). apply Hout.
  destruct (TakesFrom_members Emails _ _ Htakes e He) as (g & Hg & Hm).
  apply move_findDuplicates_In in Hg as [Hb _]. rewrite Hb in Hm.
  apply filter_In in Hm as [Hm _].
  rewrite Forall_forall in Hfrom. apply (Hfrom e). now apply list_elem_of_In.
Qed.
End MoveRunFacts.

(** A run on the server with two copies in every folder: the user keeps
    the first copy and confirms. *)
Lemma main_moves_only_to_trash_witness :
  exists run,
    @MoveRun.main Go.plainDigest listedRange Go.asciiUnicode MoveRun.asciiFolding 5 false
      MoveRun.plainEnv MoveRun.twoCopies
      [DeleteDuplicates.typed "1"; DeleteDuplicates.typed "yes"]
    = Some run /\
    (MoveRun.actions run <> [] ->
     false = false /\ exists errs, MoveRun.exit run = MoveRun.Completed errs) /\
    (forall imap h0,
        @MoveRun.connectIMAP MoveRun.asciiFolding (MoveRun.session MoveRun.twoCopies)
          MoveRun.plainEnv [] = (Go.Ok imap, h0) ->
        Forall (@MoveRun.scansOutsideTrash MoveRun.asciiFolding imap) (MoveRun.scanned run) /\
        Forall (@MoveRun.movesToTrash MoveRun.asciiFolding imap) (MoveRun.actions run)) /\
    (forall err h0,
        @MoveRun.connectIMAP MoveRun.asciiFolding (MoveRun.session MoveRun.twoCopies)
          MoveRun.plainEnv [] = (Go.Err err, h0) ->
        MoveRun.scanned run = [] /\ MoveRun.actions run = []).
Proof.
  eexists. split; [vm_compute; reflexivity|].
  apply (@main_moves_only_to_trash Go.plainDigest listedRange Go.asciiUnicode
           MoveRun.asciiFolding 5 false MoveRun.plainEnv MoveRun.twoCopies
           [DeleteDuplicates.typed "1"; DeleteDuplicates.typed "yes"]).
  vm_compute. reflexivity.
Defined.

(** ** imap-backup: what a run saves *)

Section BackupBatch.
Import Go Backup BackupRun.
Variables (w : World) (mailboxPath : list string).

Lemma saveMessage_events (seqNum : Z) (h : list Event) :
  exists new,
    snd (saveMessage w mailboxPath seqNum h) = h ++ new /\
    createdSeqNums new = [seqNum] /\ fetchRanges new = [] /\
    Forall (savesInto mailboxPath) new.
Proof.
  unfold saveMessage. destruct (w_create w h mailboxPath _ seqNum); cbn [snd].
  - eexists [_]. split; [reflexivity|]. repeat split. now repeat constructor.
  - destruct (w_copy w _ mailboxPath _ seqNum); cbn [snd]; eexists [_; _];
      (split; [now rewrite <- app_assoc|]); repeat split; now repeat constructor.
Qed.

Lemma fold_saveStep (delivered : list Message) (h : list Event) :
  exists new,
    fold_left (saveStep w mailboxPath) delivered h = h ++ new /\
    createdSeqNums new = map SeqNum (List.filter HasBody delivered) /\
    fetchRanges new = [] /\
    Forall (savesInto mailboxPath) new.
Proof.
  revert h. induction delivered as [|msg rest IH]; intros h; cbn [fold_left List.filter].
  { exists []. rewrite app_nil_r. repeat split. constructor. }
  unfold saveStep at 2. destruct (HasBody msg); [|apply IH].
  destruct (saveMessage_events (SeqNum msg) h) as (new1 & -> & Hc1 & Hf1 & Hs1).
  destruct (IH (h ++ new1)) as (new2 & -> & Hc2 & Hf2 & Hs2).
  exists (new1 ++ new2). split; [now rewrite app_assoc|].
  unfold createdSeqNums, fetchRanges in *. rewrite !omap_app, Hc1, Hc2, Hf1, Hf2.
  repeat split. now apply Forall_app.
Qed.

Lemma backupMessageBatch_saves_steps (start end_ : Z) (h : list Event) :
  exists new,
    snd (backupMessageBatch w mailboxPath start end_ h) = h ++ EFetch start end_ :: new /\
    Forall (savesInto mailboxPath) new.
Proof.
  unfold backupMessageBatch. destruct (w_fetch w h start end_) as [delivered status].
  cbn [snd].
  destruct (fold_saveStep delivered (h ++ [EFetch start end_])) as (new & -> & _ & _ & Hs).
  exists new. split; [now rewrite <- app_assoc|exact Hs].
Qed.

(** X18.  [backupMessageBatch] tries to save every delivered message
    that has a body, once and in the order of delivery, to a file in the
    directory of the mailbox named by the message's sequence number; a
    message without a body is passed over, and a message that cannot be
    saved does not stop the batch or make it fail: the batch returns the
    status of the retrieval, whatever happened to the files. *)
Theorem backupMessageBatch_saves_each_body (start end_ : Z) (h : list Event) :
  fst (backupMessageBatch w mailboxPath start end_ h) = snd (w_fetch w h start end_) /\
  exists new,
    snd (backupMessageBatch w mailboxPath start end_ h) = h ++ EFetch start end_ :: new /\
    createdSeqNums new
    = map SeqNum (List.filter HasBody (fst (w_fetch w h start end_))) /\
    Forall (savesInto mailboxPath) new.
Proof.
  unfold backupMessageBatch. destruct (w_fetch w h start end_) as [delivered status].
  cbn [fst snd]. split; [reflexivity|].
  destruct (fold_saveStep delivered (h ++ [EFetch start end_])) as (new & -> & Hc & _ & Hs).
  exists new. rewrite <- app_assoc. auto.
Qed.

Lemma backupBatches_windows (fuel : nat) (messages i : Z) (h h' : list Event) :
  (0 < i)%Z -> (messages + batchSize < 4294967296)%Z ->
  backupBatches fuel w mailboxPath messages i h = Some (None, h') ->
  exists new,
    h' = h ++ new /\
    concat (map Ranges.numbersOf (fetchRanges new)) = Ranges.numbers i messages /\
    Forall (fun range => (fst range <= snd range < fst range + batchSize)%Z)
      (fetchRanges new).
Proof.
  intros Hi Hroom. revert i h Hi.
  induction fuel as [|fuel IH]; intros i h Hi Hrun; [discriminate|].
  cbn [backupBatches] in Hrun.
  destruct (Z.leb_spec i messages) as [Hle|Hgt].
  2:{ injection Hrun as <-. exists []. rewrite app_nil_r. split; [reflexivity|].
      split; [|constructor]. now rewrite numbers_nil. }
  unfold batchSize in *.
  assert (Hu1 : u32 (i + 100 - 1) = (i + 100 - 1)%Z) by (apply Z.mod_small; lia).
  assert (Hu2 : u32 (i + 100) = (i + 100)%Z) by (apply Z.mod_small; lia).
  rewrite Hu1, Hu2 in Hrun.
  set (end_ := if (i + 100 - 1 >? messages)%Z then messages else (i + 100 - 1)%Z) in *.
  unfold backupMessageBatch in Hrun.
  destruct (w_fetch w h i end_) as [delivered [err|]]; [discriminate|].
  destruct (fold_saveStep delivered (h ++ [EFetch i end_])) as (new1 & Hnew1 & _ & Hf1 & _).
  rewrite Hnew1 in Hrun.
  apply IH in Hrun as (new2 & -> & Hcover & Hwidth); [|lia].
  exists (EFetch i end_ :: new1 ++ new2).
  split; [rewrite <- !app_assoc; reflexivity|].
  assert (Hranges : fetchRanges (EFetch i end_ :: new1 ++ new2)
                    = (i, end_) :: fetchRanges new2).
  { change (fetchRanges ([EFetch i end_] ++ new1 ++ new2) = (i, end_) :: fetchRanges new2).
    unfold fetchRanges in *. now rewrite !omap_app, Hf1. }
  rewrite Hranges. split.
  - cbn [map concat Ranges.numbersOf fst snd]. subst end_.
    apply numbers_windows; [lia|exact Hle|now symmetry].
  - constructor; [|exact Hwidth]. cbn [fst snd]. subst end_. rewrite Z.gtb_ltb.
    destruct (Z.ltb_spec messages (i + 100 - 1)); lia.
Qed.
End BackupBatch.

Section BackupStart.
Import Go Backup BackupRun.
Context `{S : Strings}.
Variables (w : World) (config : ImapConfig).

Lemma createdDirs_app (h1 h2 : list Event) :
  createdDirs (h1 ++ h2) = createdDirs h1 ++ createdDirs h2.
Proof. apply omap_app. Qed.

Lemma savesInto_no_dirs (dir : list string) (new : list Event) :
  Forall (savesInto dir) new -> createdDirs new = [].
Proof.
  induction 1 as [|e new He _ IH]; [reflexivity|].
  destruct e; try contradiction; exact IH.
Qed.

(** The batches of a mailbox create no directory. *)
Lemma backupBatches_extends (fuel : nat) (mailboxPath : list string) (messages i : Z)
    (h : list Event) (res : option Error) (h' : list Event) :
  backupBatches fuel w mailboxPath messages i h = Some (res, h') ->
  exists new, h' = h ++ new /\ createdDirs new = [].
Proof.
  revert i h. induction fuel as [|fuel IH]; intros i h Hrun; [discriminate|].
  cbn [backupBatches] in Hrun.
  destruct (i <=? messages)%Z;
    [|injection Hrun as _ <-; exists []; now rewrite app_nil_r].
  match type of Hrun with
  | context [backupMessageBatch w mailboxPath i ?e h] =>
      destruct (backupMessageBatch_saves_steps w mailboxPath i e h)
        as (new1 & Hnew1 & Hsaves);
      destruct (backupMessageBatch w mailboxPath i e h) as [[err|] h1]
  end; cbn [snd] in Hnew1; subst h1.
  - injection Hrun as _ <-. eexists. split; [reflexivity|].
    cbn. now apply savesInto_no_dirs in Hsaves.
  - apply IH in Hrun as (new2 & -> & Hdirs2). eexists (_ :: new1 ++ new2).
    split; [rewrite <- !app_assoc; reflexivity|].
    change (createdDirs (new1 ++ new2) = []).
    now rewrite createdDirs_app, (savesInto_no_dirs _ _ Hsaves), Hdirs2.
Qed.

Lemma backupBatches_returns (fuel : nat) (mailboxPath : list string) (messages i : Z)
    (h : list Event) :
  (1 <= i)%Z -> (messages + batchSize < 4294967296)%Z ->
  Z.to_nat (messages + 1 - i) < fuel ->
  exists r, backupBatches fuel w mailboxPath messages i h = Some r.
Proof.
  revert i h. induction fuel as [|fuel IH]; intros i h Hi Hbound Hfuel; [lia|].
  cbn [backupBatches].
  destruct (Z.leb_spec i messages) as [Hle|Hgt]; [|eauto].
  match goal with
  | |- context [backupMessageBatch w mailboxPath i ?e h] =>
      destruct (backupMessageBatch w mailboxPath i e h) as [[err|] h1]
  end; [eauto|].
  unfold batchSize in *.
  apply IH; unfold u32; try rewrite Z.mod_small by lia; lia.
Qed.

(** [backupMailbox] creates the directory of its mailbox, first of all,
    and no other. *)
Lemma backupMailbox_extends (fuel : nat) (delimiter mailboxName : string) (h : list Event)
    (res : option Error) (h' : list Event) :
  backupMailbox fuel w config delimiter mailboxName h = Some (res, h') ->
  exists new,
    h' = h ++ EMkdirAll (mailboxPathOf config delimiter mailboxName) :: new /\
    createdDirs new = [].
Proof.
  unfold backupMailbox. intros Hrun.
  destruct (w_mkdir w h _); [injection Hrun as _ <-; now exists []|].
  destruct (w_select w _ mailboxName) as [messages|err].
  2:{ injection Hrun as _ <-. eexists [_]. now rewrite <- app_assoc. }
  destruct (messages =? 0)%Z.
  { injection Hrun as _ <-. eexists [_]. now rewrite <- app_assoc. }
  apply backupBatches_extends in Hrun as (new & -> & Hdirs).
  exists (ESelect mailboxName :: new). split; [now rewrite <- !app_assoc|exact Hdirs].
Qed.

Lemma backupMailbox_returns (fuel : nat) (delimiter mailboxName : string) (h : list Event) :
  (forall h0 name messages,
      w_select w h0 name = Ok messages ->
      (0 <= messages)%Z /\ (messages + batchSize < 4294967296)%Z /\
      Z.to_nat messages < fuel) ->
  exists r, backupMailbox fuel w config delimiter mailboxName h = Some r.
Proof.
  intros Hbound. unfold backupMailbox.
  destruct (w_mkdir w h _); [eauto|].
  destruct (w_select w _ mailboxName) as [messages|err] eqn:Hsel; [|eauto].
  destruct (Hbound _ _ _ Hsel) as (Hpos & Hroom & Hfuel).
  destruct (messages =? 0)%Z; [eauto|].
  apply backupBatches_returns; lia.
Qed.

(** The last loop of [Start] creates the directories of the mailboxes,
    one for each and in their order, and no other. *)
Lemma backupAll_every_mailbox (fuel : nat) (delimiter : string) (boxes : list string)
    (h : list Event) (errs : list (string * Error)) (h' : list Event) :
  backupAll fuel w config delimiter boxes h = Some (errs, h') ->
  exists new,
    h' = h ++ new /\
    sublist (map fst errs) boxes /\
    createdDirs new = map (mailboxPathOf config delimiter) boxes.
Proof.
  revert h errs h'. induction boxes as [|name rest IH]; intros h errs h' Hrun.
  { injection Hrun as <- <-. exists []. rewrite app_nil_r. repeat split. constructor. }
  cbn [backupAll] in Hrun.
  destruct (backupMailbox fuel w config delimiter name h) as [[status h1]|] eqn:Hone;
    [|discriminate].
  destruct (backupAll fuel w config delimiter rest h1) as [[errs1 h2]|] eqn:Hrest;
    [|discriminate].
  injection Hrun as <- <-.
  apply backupMailbox_extends in Hone as (new1 & -> & Hdirs1).
  apply IH in Hrest as (new2 & -> & Hsub & Hdirs2).
  exists ((EMkdirAll (mailboxPathOf config delimiter name) :: new1) ++ new2).
  split; [now rewrite app_assoc|]. split.
  - destruct status; cbn [map fst]; [now apply sublist_skip|now apply sublist_cons].
  - cbn [app map]. change (createdDirs (EMkdirAll ?p :: ?l)) with (p :: createdDirs l).
    now rewrite createdDirs_app, Hdirs1, Hdirs2.
Qed.

Lemma backupAll_returns (fuel : nat) (delimiter : string) (boxes : list string)
    (h : list Event) :
  (forall h0 name messages,
      w_select w h0 name = Ok messages ->
      (0 <= messages)%Z /\ (messages + batchSize < 4294967296)%Z /\
      Z.to_nat messages < fuel) ->
  exists r, backupAll fuel w config delimiter boxes h = Some r.
Proof.
  intros Hbound. revert h. induction boxes as [|name rest IH]; intros h; cbn [backupAll];
    [eauto|].
  destruct (backupMailbox_returns fuel delimiter name h Hbound) as [[status h1] ->].
  destruct (IH h1) as [[errs h2] ->]. eauto.
Qed.

Lemma fold_pickDelimiter (mailboxes : list Listed) (delimiter : string) :
  fold_left pickDelimiter mailboxes delimiter
  = if String.eqb delimiter "" then firstDelimiter mailboxes else delimiter.
Proof.
  revert delimiter. induction mailboxes as [|mbox rest IH]; intros delimiter.
  { cbn. now destruct (String.eqb_spec delimiter ""). }
  cbn [fold_left]. rewrite IH. unfold pickDelimiter, firstDelimiter.
  cbn [map List.filter].
  destruct (String.eqb_spec delimiter "") as [->|Hd]; cbn [andb].
  - destruct (String.eqb_spec (Delimiter mbox) "") as [->|Hm]; cbn [negb]; [reflexivity|].
    destruct (String.eqb_spec (Delimiter mbox) ""); [contradiction|reflexivity].
  - destruct (String.eqb_spec delimiter ""); [contradiction|reflexivity].
Qed.

(** X19.  [backupMailbox] first creates the directory of the mailbox
    and then selects it; when the select reports a number of messages
    that leaves room for one more batch below 2^32 and the backup
    returns nil, the ranges it asked for, laid end to end, are the
    sequence numbers 1, 2, ... up to that number, each once and in
    ascending order, in ranges of at most 100. *)
Theorem backupMailbox_fetches_every_message (fuel : nat) (delimiter mailboxName : string)
    (h : list Event) (messages : Z) (h' : list Event) :
  let mailboxPath := mailboxPathOf config delimiter mailboxName in
  w_mkdir w h mailboxPath = None ->
  w_select w (h ++ [EMkdirAll mailboxPath]) mailboxName = Ok messages ->
  (0 <= messages)%Z -> (messages + batchSize < 4294967296)%Z ->
  backupMailbox fuel w config delimiter mailboxName h = Some (None, h') ->
  exists new,
    h' = h ++ EMkdirAll mailboxPath :: ESelect mailboxName :: new /\
    concat (map Ranges.numbersOf (fetchRanges new)) = Ranges.numbers 1 messages /\
    Forall (fun range => (fst range <= snd range < fst range + batchSize)%Z)
      (fetchRanges new).
Proof.
  intros mailboxPath Hmkdir Hsel Hpos Hroom. unfold backupMailbox. fold mailboxPath.
  rewrite Hmkdir, Hsel. destruct (Z.eqb_spec messages 0) as [->|Hne]; intros Hrun.
  - injection Hrun as <-. exists []. rewrite <- app_assoc. repeat split. constructor.
  - apply backupBatches_windows in Hrun as (new & -> & Hcover & Hwidth); [|lia|exact Hroom].
    exists new. rewrite <- !app_assoc. auto.
Qed.

(** X20.  When every mailbox that can be selected holds a number of
    messages that leaves room for one more batch below 2^32, [Start]
    returns, given fuel above those numbers.  It returns an error only
    for the connection, the login, the backup directory or the listing,
    and after a dial that went through its last call is the logout.
    When these four go through it returns nil whatever happens to the
    mailboxes: it takes as delimiter the first delimiter of the listing
    that is not empty, and the directories it creates are the backup
    directory and then, for every listed mailbox in the order listed,
    once for each and whether or not the ones before failed, the
    directory made of the backup directory and the sanitized parts of
    the name; the errors it logs are of listed mailboxes, in the order
    listed. *)
Theorem Start_backs_up_every_mailbox (fuel : nat) (h : list Event) :
  let addr := (Host config ++ ":" ++ Port config)%string in
  let h1 := h ++ [EDialTLS addr] in
  let h2 := h1 ++ [ELogin (User config) (Password config)] in
  let h3 := h2 ++ [EMkdirAll [BackupDir config]] in
  ((forall h0 name messages,
       w_select w h0 name = Ok messages ->
       (0 <= messages)%Z /\ (messages + batchSize < 4294967296)%Z /\
       Z.to_nat messages < fuel) ->
   exists r, Start fuel w config h = Some r) /\
  (forall res errs h',
      Start fuel w config h = Some (res, errs, h') ->
      setupError res /\
      (w_dial w h addr = None -> last h' = Some ELogout) /\
      (forall mailboxes,
          w_dial w h addr = None ->
          w_login w h1 (User config) (Password config) = None ->
          w_mkdir w h2 [BackupDir config] = None ->
          w_list w h3 = (mailboxes, None) ->
          res = None /\
          sublist (map fst errs) (map Name mailboxes) /\
          exists new,
            h' = h3 ++ new /\
            createdDirs new
            = map (fun mbox => mailboxPathOf config (firstDelimiter mailboxes) (Name mbox))
                mailboxes)).
Proof.
  intros addr h1 h2 h3. split.
  { intros Hbound. unfold Start. fold addr.
    destruct (w_dial w h addr); [eauto|]. fold h1.
    destruct (w_login w h1 _ _); [eauto|]. fold h2.
    destruct (w_mkdir w h2 _); [eauto|]. fold h3.
    destruct (w_list w h3) as [mailboxes [err|]]; [eauto|].
    destruct (backupAll_returns fuel (fold_left pickDelimiter mailboxes EmptyString)
                (map Name mailboxes) (h3 ++ [EList]) Hbound) as [[errs h4] ->].
    eauto. }
  intros res errs h'. unfold Start. fold addr.
  destruct (w_dial w h addr) as [err|]; fold h1.
  { intros [= <- <- <-]. repeat split; try discriminate. }
  destruct (w_login w h1 _ _) as [err|]; fold h2.
  { intros [= <- <- <-]. split; [exact I|]. split; [intros _; apply last_snoc|].
    discriminate. }
  destruct (w_mkdir w h2 _) as [err|]; fold h3.
  { intros [= <- <- <-]. split; [exact I|]. split; [intros _; apply last_snoc|].
    discriminate. }
  destruct (w_list w h3) as [mailboxes [err|]].
  { intros [= <- <- <-]. split; [exact I|]. split; [intros _; apply last_snoc|].
    discriminate. }
  rewrite fold_pickDelimiter. cbn [String.eqb].
  destruct (backupAll fuel w config (firstDelimiter mailboxes) (map Name mailboxes)
              (h3 ++ [EList])) as [[errs1 h4]|] eqn:Hall; [|discriminate].
  intros [= <- <- <-]. split; [exact I|]. split; [intros _; apply last_snoc|].
  intros mailboxes0 _ _ _ [= <-].
  apply backupAll_every_mailbox in Hall as (new & -> & Hsub & Hdirs).
  split; [reflexivity|]. split; [exact Hsub|].
  exists ((EList :: new) ++ [ELogout]). split; [now rewrite <- !app_assoc|].
  rewrite createdDirs_app. change (createdDirs (EList :: new)) with (createdDirs new).
  rewrite Hdirs, map_map. cbn. now rewrite app_nil_r.
Qed.
End BackupStart.

(** The three messages of INBOX are asked for in one range. *)
Lemma backupMailbox_fetches_every_message_witness :
  exists h',
    @BackupRun.backupMailbox BackupRun.byteStrings 5 BackupRun.threeFolders
      BackupRun.someConfig "/" "INBOX" [] = Some (None, h') /\
    exists new,
      h' = [] ++ BackupRun.EMkdirAll
                   (@BackupRun.mailboxPathOf BackupRun.byteStrings BackupRun.someConfig
                      "/" "INBOX")
              :: BackupRun.ESelect "INBOX" :: new /\
      concat (map Ranges.numbersOf (BackupRun.fetchRanges new)) = Ranges.numbers 1 3 /\
      Forall (fun range => (fst range <= snd range < fst range + BackupRun.batchSize)%Z)
        (BackupRun.fetchRanges new).
Proof.
  eexists. split; [vm_compute; reflexivity|].
  apply (@backupMailbox_fetches_every_message BackupRun.byteStrings BackupRun.threeFolders
           BackupRun.someConfig 5 "/" "INBOX" [] 3%Z).
  - reflexivity.
  - reflexivity.
  - lia.
  - vm_compute. reflexivity.
  - vm_compute. reflexivity.
Defined.

(** On the server with three folders Work cannot be selected; the run
    goes on to Work/2024: Q1 and returns nil. *)
Lemma Start_backs_up_every_mailbox_witness :
  exists res errs h',
    @BackupRun.Start BackupRun.byteStrings 5 BackupRun.threeFolders BackupRun.someConfig []
    = Some (res, errs, h') /\
    res = None /\
    sublist (map fst errs) ["INBOX"; "Work"; "Work/2024: Q1"] /\
    exists new,
      h' = [BackupRun.EDialTLS "imap.example.com:993"; BackupRun.ELogin "me" "secret";
            BackupRun.EMkdirAll ["email_backup"]] ++ new /\
      BackupRun.createdDirs new
      = [["email_backup"; "INBOX"]; ["email_backup"; "Work"];
         ["email_backup"; "Work"; "2024_ Q1"]].
Proof.
  destruct (proj1 (@Start_backs_up_every_mailbox BackupRun.byteStrings BackupRun.threeFolders
                     BackupRun.someConfig 5 [])) as [[[res errs] h'] Hrun].
  { intros h0 name messages Hsel. simpl in Hsel.
    destruct (String.eqb name "Work"); [discriminate|]. injection Hsel as <-.
    vm_compute. repeat split; try lia; discriminate. }
  exists res, errs, h'. split; [exact Hrun|].
  apply (proj2 (proj2 (proj2 (@Start_backs_up_every_mailbox BackupRun.byteStrings
                                BackupRun.threeFolders BackupRun.someConfig 5 [])
                         res errs h' Hrun))
           (fst (BackupRun.w_list BackupRun.threeFolders [])));
    reflexivity.
Defined.

